(** * SIDEWAYS: drift scoring, clipping detection, replay and ghost recording

    A shallow embedding of the simulation core of the game:

    - [utils/ClippingSystem.ts]: [ClippingZoneDetector], [DriftScoring] and
      [createDriftSystem];
    - [components/GameCanvas.tsx]: the per-tick [updatePhysics] (live physics
      and replay playback), [handleClear] (ghost bookkeeping and reset) and
      [handleReplayControl];
    - [components/MapEditor.tsx]: the editor's state and its handlers
      (history with undo and redo, tools, zoom and pan);
    - [utils/SoundEngine.ts]: the wave-shaper curve [makeDistortionCurve];
    - [types.ts]: [CarState], [InputState], [GameParams], [GhostFrame],
      [GhostRun], [MapTile].

    A JavaScript [number] is modelled by an exact rational ([Q]): sums,
    products and comparisons are the mathematical ones, without the rounding
    of IEEE-754 doubles, and there is no NaN or infinity (a division by
    zero gives 0 in [Q]; the sources divide by the world size and by
    [maxSpeed], which are positive in the game).  Mutable objects become
    explicit state passing: a method is a function from the object before
    the call to the object after it. *)

From Stdlib Require Import QArith Qabs Qround Qminmax ZArith List Bool Lia Lqa.
From Stdlib Require Import Qpower.
From Stdlib Require String.
Import String.StringSyntax.
Delimit Scope string_scope with string.
Import ListNotations.
Open Scope Q_scope.

(** ** JavaScript primitives used by the sources *)

Module JS.

(** Comparison operators on numbers, as booleans. *)
Definition leb (x y : Q) : bool := Qle_bool x y.
Definition ltb (x y : Q) : bool := negb (Qle_bool y x).
Definition geb (x y : Q) : bool := leb y x.
Definition gtb (x y : Q) : bool := ltb y x.
Definition eqb (x y : Q) : bool := Qeq_bool x y.
Definition neqb (x y : Q) : bool := negb (Qeq_bool x y).

(** [Math.PI] is the double 3.141592653589793, which is exactly
    884279719003555 / 2^48. *)
Definition PI : Q := 884279719003555 # 281474976710656.

Definition abs (x : Q) : Q := Qabs x.
Definition max (x y : Q) : Q := Qmax x y.
Definition min (x y : Q) : Q := Qmin x y.
Definition floor (x : Q) : Q := inject_Z (Qfloor x).

(** [Math.sign]: -1, 0 or 1. *)
Definition sign (x : Q) : Q :=
  if ltb 0 x then 1 else if ltb x 0 then -1 else 0.

(** [v || d] on an optional number: [undefined] and [0] are falsy. *)
Definition or_default (v : option Q) (d : Q) : Q :=
  match v with
  | Some x => if eqb x 0 then d else x
  | None => d
  end.

(** [Math.trunc], and the remainder [x % y], which has the sign of the
    dividend.  (No [NaN] here: [x % 0] is [x], as [x / 0] is [0].) *)
Definition trunc (x : Q) : Q :=
  if leb 0 x then inject_Z (Qfloor x) else inject_Z (- Qfloor (- x)).
Definition rem (x y : Q) : Q := x - y * trunc (x / y).

End JS.

(** ** types.ts *)

Record CarState := mkCarState {
  xPos : Q;
  yPos : Q;
  xSpeed : Q;
  ySpeed : Q;
  speed : Q;
  driftAngle : Q;
  angle : Q;
  angularVelocity : Q;
  isTurning : bool;
  isReversing : bool;
  width : Q;
  height : Q
}.

Record InputState := mkInputState {
  up : bool;
  down : bool;
  left : bool;
  right : bool;
  brake : bool;
  eBrake : bool
}.

(** The fields of [GameParams] read by the simulation; the audio and UI
    settings are not part of it. *)
Record GameParams := mkGameParams {
  maxSpeed : Q;
  maxReverseSpeed : Q;
  accelerationFactor : Q;
  decelerationFactor : Q;
  driftFactor : Q;
  turnFactor : Q;
  oversteer : Q;
  zoom : Q;
  carScale : Q;
  eBrakeDecay : Q
}.

Definition DEFAULT_PARAMS : GameParams :=
  {| maxSpeed := 5; maxReverseSpeed := -4;
     accelerationFactor := 1 # 10; decelerationFactor := 1 # 10;
     driftFactor := 145 # 100; turnFactor := 2 # 10; oversteer := 12 # 10;
     zoom := 4 # 10; carScale := 1; eBrakeDecay := 995 # 1000 |}.

Module Ghost.

Record GhostFrame := mkGhostFrame {
  x : Q;
  y : Q;
  angle : Q;
  driftAngle : Q
}.

Record GhostRun := mkGhostRun {
  frames : list GhostFrame;
  totalScore : Q
}.

End Ghost.

(** ** utils/ClippingSystem.ts: DriftScoring *)

Module DriftScoring.

Record DriftState := mkDriftState {
  isDrifting : bool;
  currentScore : Q;
  totalScore : Q;
  multiplier : Q;
  combo : Q;
  duration : Q;
  isInClippingZone : bool
}.

Record DriftScoringConfig := mkConfig {
  minDriftAngle : Q;
  minSpeed : Q;
  basePointsPerSecond : Q;
  comboDecayTime : Q;
  comboBonus : Q
}.

(** [Partial<DriftScoringConfig>]: every field may be absent. *)
Record PartialConfig := mkPartialConfig {
  p_minDriftAngle : option Q;
  p_minSpeed : option Q;
  p_basePointsPerSecond : option Q;
  p_comboDecayTime : option Q;
  p_comboBonus : option Q
}.

Definition empty_config : PartialConfig :=
  mkPartialConfig None None None None None.

(** The object: its [state], its [config] and the two private fields. *)
Record t := mk {
  state : DriftState;
  config : DriftScoringConfig;
  comboTimer : Q;
  lastDriftDir : Q
}.

(** Assignments to one field of [this.state] or of [this]. *)
Definition set_isDrifting (v : bool) (s : DriftState) : DriftState :=
  mkDriftState v (currentScore s) (totalScore s) (multiplier s) (combo s)
               (duration s) (isInClippingZone s).
Definition set_currentScore (v : Q) (s : DriftState) : DriftState :=
  mkDriftState (isDrifting s) v (totalScore s) (multiplier s) (combo s)
               (duration s) (isInClippingZone s).
Definition set_totalScore (v : Q) (s : DriftState) : DriftState :=
  mkDriftState (isDrifting s) (currentScore s) v (multiplier s) (combo s)
               (duration s) (isInClippingZone s).
Definition set_multiplier (v : Q) (s : DriftState) : DriftState :=
  mkDriftState (isDrifting s) (currentScore s) (totalScore s) v (combo s)
               (duration s) (isInClippingZone s).
Definition set_combo (v : Q) (s : DriftState) : DriftState :=
  mkDriftState (isDrifting s) (currentScore s) (totalScore s) (multiplier s) v
               (duration s) (isInClippingZone s).
Definition set_duration (v : Q) (s : DriftState) : DriftState :=
  mkDriftState (isDrifting s) (currentScore s) (totalScore s) (multiplier s)
               (combo s) v (isInClippingZone s).
Definition set_isInClippingZone (v : bool) (s : DriftState) : DriftState :=
  mkDriftState (isDrifting s) (currentScore s) (totalScore s) (multiplier s)
               (combo s) (duration s) v.

Definition with_state (f : DriftState -> DriftState) (d : t) : t :=
  mk (f (state d)) (config d) (comboTimer d) (lastDriftDir d).
Definition set_comboTimer (v : Q) (d : t) : t :=
  mk (state d) (config d) v (lastDriftDir d).
Definition set_lastDriftDir (v : Q) (d : t) : t :=
  mk (state d) (config d) (comboTimer d) v.

(** The field initialisers and the constructor. *)
Definition initial_state : DriftState :=
  {| isDrifting := false; currentScore := 0; totalScore := 0;
     multiplier := 1; combo := 0; duration := 0;
     isInClippingZone := false |}.

Definition new (c : PartialConfig) : t :=
  {| state := initial_state;
     config :=
       {| minDriftAngle := JS.or_default (p_minDriftAngle c) 15;
          minSpeed := JS.or_default (p_minSpeed c) 3;
          basePointsPerSecond := JS.or_default (p_basePointsPerSecond c) 500;
          comboDecayTime := JS.or_default (p_comboDecayTime c) 2000;
          comboBonus := JS.or_default (p_comboBonus c) (2 # 10) |};
     comboTimer := 0;
     lastDriftDir := 0 |}.

Definition startDrift (d : t) : t :=
  let d := with_state (set_isDrifting true) d in
  let d := with_state (set_currentScore 0) d in
  let d := with_state (set_duration 0) d in
  let d := with_state (set_combo 1) d in
  set_comboTimer (comboDecayTime (config d)) d.

Definition endDrift (bank : bool) (d : t) : t :=
  let d :=
    if bank
    then with_state
           (set_totalScore
              (totalScore (state d) + JS.floor (currentScore (state d)))) d
    else d in
  let d := with_state (set_combo 0) d in
  let d := with_state (set_currentScore 0) d in
  let d := with_state (set_multiplier 1) d in
  let d := with_state (set_isDrifting false) d in
  set_lastDriftDir 0 d.

(** The chain step of [update]: a change of drift direction. *)
Definition chain (currentDir : Q) (d : t) : t :=
  if JS.neqb (lastDriftDir d) 0 && JS.neqb currentDir 0
     && JS.neqb currentDir (lastDriftDir d)
  then
    let d := with_state (set_combo (combo (state d) + 1)) d in
    let d := set_lastDriftDir currentDir d in
    with_state
      (set_currentScore (currentScore (state d) + 500 * combo (state d))) d
  else d.

(** The angle that [update] compares with [minDriftAngle]. *)
Definition angleDeg (driftAngle : Q) : Q :=
  JS.abs (driftAngle * (180 / JS.PI)).

(** [update(carState, clippingMultiplier, deltaTime)]; it returns
    [this.state], the [state] of the result here. *)
Definition update (carState : CarState) (clippingMultiplier deltaTime : Q)
    (d : t) : t :=
  let d := with_state (set_isInClippingZone (JS.gtb clippingMultiplier 1)) d in
  if JS.ltb (JS.abs (speed carState)) (minSpeed (config d)) then
    if isDrifting (state d) || JS.gtb (currentScore (state d)) 0
    then endDrift false d
    else d
  else
    let angleDeg := angleDeg (driftAngle carState) in
    let currentDir := JS.sign (driftAngle carState) in
    if JS.geb angleDeg (minDriftAngle (config d)) then
      let d :=
        if negb (isDrifting (state d))
        then set_lastDriftDir currentDir (startDrift d)
        else d in
      let d := chain currentDir d in
      let d := with_state (set_multiplier clippingMultiplier) d in
      let comboMultiplier :=
        1 + (combo (state d) - 1) * comboBonus (config d) in
      let angleBonus := JS.max 1 (angleDeg / 30) in
      let pointsThisFrame :=
        basePointsPerSecond (config d) * multiplier (state d)
        * comboMultiplier * angleBonus * deltaTime in
      let d :=
        with_state
          (set_currentScore (currentScore (state d) + pointsThisFrame)) d in
      let d := with_state (set_duration (duration (state d) + deltaTime)) d in
      set_comboTimer (comboDecayTime (config d)) d
    else
      if isDrifting (state d) then
        let d := set_comboTimer (comboTimer d - deltaTime * 1000) d in
        if JS.leb (comboTimer d) 0 then endDrift true d else d
      else d.

(** [getState] returns a copy of the state. *)
Definition getState (d : t) : DriftState := state d.

Definition resetTotal (d : t) : t :=
  let d := with_state (set_totalScore 0) d in
  let d := with_state (set_currentScore 0) d in
  let d := with_state (set_combo 0) d in
  let d := with_state (set_isDrifting false) d in
  set_lastDriftDir 0 d.

(** A call made on the object from outside or from [update]. *)
Inductive call :=
| Update (carState : CarState) (clippingMultiplier deltaTime : Q)
| EndDrift (bank : bool)
| ResetTotal.

Definition perform (d : t) (c : call) : t :=
  match c with
  | Update carState m dt => update carState m dt d
  | EndDrift bank => endDrift bank d
  | ResetTotal => resetTotal d
  end.

Definition run (cs : list call) (d : t) : t := fold_left perform cs d.

End DriftScoring.

(** ** utils/ClippingSystem.ts: ClippingZoneDetector *)

(** The part of an [HTMLImageElement] the detector reads. *)
Module Image.

Record t := mk {
  width : Z;
  height : Z
}.

End Image.

Module ClippingZoneDetector.

(** An [{r, g, b}] object. *)
Record RGB (A : Type) := mkRGB {
  r : A;
  g : A;
  b : A
}.
Arguments mkRGB {A} _ _ _.
Arguments r {A} _.
Arguments g {A} _.
Arguments b {A} _.

Record Point := mkPoint {
  x : Q;
  y : Q
}.

Record ClippingZoneConfig := mkConfig {
  clippingColor : RGB Q;
  colorTolerance : Q;
  pointMultiplier : Q;
  detectionRadius : Q
}.

Record PartialConfig := mkPartialConfig {
  p_clippingColor : option (RGB Q);
  p_colorTolerance : option Q;
  p_pointMultiplier : option Q;
  p_detectionRadius : option Q
}.

Definition empty_config : PartialConfig :=
  mkPartialConfig None None None None.

(** The object.  [imageData] is the [data] array of the cached [ImageData]:
    four bytes (red, green, blue, alpha) per pixel, row by row.  The
    offscreen canvas is only the means to obtain it. *)
Record t := mk {
  trackImage : option Image.t;
  imageData : option (list Z);
  config : ClippingZoneConfig
}.

Definition new (c : PartialConfig) : t :=
  {| trackImage := None;
     imageData := None;
     config :=
       {| clippingColor :=
            match p_clippingColor c with
            | Some col => col
            | None => mkRGB 255 255 255
            end;
          colorTolerance := JS.or_default (p_colorTolerance c) 50;
          pointMultiplier := JS.or_default (p_pointMultiplier c) (25 # 10);
          detectionRadius := JS.or_default (p_detectionRadius c) 20 |} |}.

(** What the browser does with the image of [loadTrack]: it loads, and
    the 2d context of the offscreen canvas may or may not be obtained, or
    it fails to load. *)
Inductive LoadOutcome :=
| Loaded (img : Image.t) (pixels : option (list Z))
| Failed.

Definition loadTrack (o : LoadOutcome) (d : t) : t :=
  match o with
  | Loaded img pixels =>
      let d := mk (Some img) (imageData d) (config d) in
      match pixels with
      | Some data => mk (trackImage d) (Some data) (config d)
      | None => d
      end
  | Failed => d
  end.

(** [data[i]]: [undefined] outside the array. *)
Definition byte_at (data : list Z) (i : Z) : option Q :=
  if (i <? 0)%Z then None
  else option_map inject_Z (nth_error data (Z.to_nat i)).

Definition getPixel (d : t) (x y : Q) : option (RGB (option Q)) :=
  match imageData d, trackImage d with
  | Some data, Some img =>
      let px := Qfloor x in
      let py := Qfloor y in
      if (px <? 0)%Z || (py <? 0)%Z
         || (Image.width img <=? px)%Z || (Image.height img <=? py)%Z
      then None
      else
        let index := ((py * Image.width img + px) * 4)%Z in
        Some (mkRGB (byte_at data index) (byte_at data (index + 1))
                    (byte_at data (index + 2)))
  | _, _ => None
  end.

(** [Math.abs(v - c) <= tol]; with [v] undefined the difference is NaN and
    the comparison is false. *)
Definition channel_close (v : option Q) (c tol : Q) : bool :=
  match v with
  | Some n => JS.leb (JS.abs (n - c)) tol
  | None => false
  end.

Definition isClippingZoneColor (d : t) (r g b : option Q) : bool :=
  let clippingColor := clippingColor (config d) in
  let colorTolerance := colorTolerance (config d) in
  channel_close r (ClippingZoneDetector.r clippingColor) colorTolerance
  && channel_close g (ClippingZoneDetector.g clippingColor) colorTolerance
  && channel_close b (ClippingZoneDetector.b clippingColor) colorTolerance.

(** One round of the loop of [checkClippingZone] over the check points;
    the accumulator is [(clippingHits, totalChecks)]. *)
Definition check_point (d : t) (acc : Z * Z) (point : Point) : Z * Z :=
  let '(clippingHits, totalChecks) := acc in
  match getPixel d (x point) (y point) with
  | Some pixel =>
      let totalChecks := (totalChecks + 1)%Z in
      if isClippingZoneColor d (r pixel) (g pixel) (b pixel)
      then ((clippingHits + 1)%Z, totalChecks)
      else (clippingHits, totalChecks)
  | None => (clippingHits, totalChecks)
  end.

Section WithMath.

(** [Math.cos] and [Math.sin] are implementation-approximated: the model
    takes them as given. *)
Variables Math_cos Math_sin : Q -> Q.

(** [(this.trackImage?.width || 1)] and the same for the height. *)
Definition dim_or_1 (img : option Image.t) (dim : Image.t -> Z) : Q :=
  match img with
  | Some i => if (dim i =? 0)%Z then 1 else inject_Z (dim i)
  | None => 1
  end.

Definition getCarCheckPoints (d : t)
    (centerX centerY carWidth carHeight angleRad trackWidth trackHeight : Q)
    : list Point :=
  let imgScaleX := dim_or_1 (trackImage d) Image.width / trackWidth in
  let imgScaleY := dim_or_1 (trackImage d) Image.height / trackHeight in
  let imgW := carWidth * imgScaleX in
  let imgH := carHeight * imgScaleY in
  let cos := Math_cos angleRad in
  let sin := Math_sin angleRad in
  let offsets :=
    [ mkPoint (- imgW * (1 # 2)) (imgH * (1 # 2));
      mkPoint 0 (imgH * (1 # 2));
      mkPoint (imgW * (1 # 2)) (imgH * (1 # 2));
      mkPoint (- imgW * (1 # 2)) (- imgH * (1 # 2));
      mkPoint (imgW * (1 # 2)) (- imgH * (1 # 2));
      mkPoint (imgW * (1 # 2)) 0;
      mkPoint (- imgW * (1 # 2)) 0 ] in
  map (fun offset =>
         let rotatedX := x offset * cos - y offset * sin in
         let rotatedY := x offset * sin + y offset * cos in
         mkPoint (centerX + rotatedX) (centerY + rotatedY))
      offsets.

(** The check points [checkClippingZone] computes for a car. *)
Definition checkPoints (d : t) (img : Image.t) (carState : CarState)
    (trackWidth trackHeight : Q) : list Point :=
  let imageX := (xPos carState / trackWidth) * inject_Z (Image.width img) in
  let imageY :=
    (yPos carState / trackHeight) * inject_Z (Image.height img) in
  getCarCheckPoints d imageX imageY (width carState) (height carState)
    (angle carState * (JS.PI / 180)) trackWidth trackHeight.

(** With a world size of zero the divisions by [trackWidth] or
    [trackHeight] make that coordinate of every check point infinite or
    NaN in the code: [getPixel] returns [null] for an infinite coordinate,
    and for a NaN one a pixel whose channels are [undefined], which is
    counted as checked but matches no colour.  So no point is a hit and
    the code returns 1.0; the rational numbers of the model cannot carry
    such coordinates, hence the first test. *)
Definition checkClippingZone (d : t) (carState : CarState)
    (trackWidth trackHeight : Q) : Q :=
  match trackImage d, imageData d with
  | Some img, Some _ =>
      if JS.eqb trackWidth 0 || JS.eqb trackHeight 0 then 1
      else
        let checkPoints :=
          checkPoints d img carState trackWidth trackHeight in
        let '(clippingHits, totalChecks) :=
          fold_left (check_point d) checkPoints (0%Z, 0%Z) in
        if (0 <? totalChecks)%Z
           && JS.geb (inject_Z clippingHits / inject_Z totalChecks) (3 # 10)
        then pointMultiplier (config d)
        else 1
  | _, _ => 1
  end.

End WithMath.

End ClippingZoneDetector.

(** ** utils/ClippingSystem.ts: createDriftSystem *)

Module DriftSystem.

(** The object [createDriftSystem] returns closes over a detector and a
    scoring machine.  GameCanvas stores the value returned by [update] in
    a property [_lastState] of that object; [update] returns the scoring
    machine's own state object, not a copy, so [_lastState] is either
    unset or an alias of [DriftScoring.state scoring]: the model records
    only whether it is set. *)
Record t := mk {
  detector : ClippingZoneDetector.t;
  scoring : DriftScoring.t;
  lastState_set : bool
}.

(** [trackUrl] is empty ([None]) or leads to an outcome of the load. *)
Definition createDriftSystem
    (trackUrl : option ClippingZoneDetector.LoadOutcome) : t :=
  let detector :=
    ClippingZoneDetector.new ClippingZoneDetector.empty_config in
  let detector :=
    match trackUrl with
    | Some outcome => ClippingZoneDetector.loadTrack outcome detector
    | None => detector
    end in
  mk detector (DriftScoring.new DriftScoring.empty_config) false.

Section WithMath.

Variables Math_cos Math_sin : Q -> Q.

Definition update (carState : CarState)
    (trackWidth trackHeight deltaTime : Q) (sys : t) : t :=
  let multiplier :=
    ClippingZoneDetector.checkClippingZone Math_cos Math_sin
      (detector sys) carState trackWidth trackHeight in
  mk (detector sys)
     (DriftScoring.update carState multiplier deltaTime (scoring sys))
     (lastState_set sys).

End WithMath.

Definition resetScore (sys : t) : t :=
  mk (detector sys) (DriftScoring.resetTotal (scoring sys))
     (lastState_set sys).

Definition getState (sys : t) : DriftScoring.DriftState :=
  DriftScoring.getState (scoring sys).

(** [sys._lastState]: the live state of the scoring machine once set. *)
Definition lastState (sys : t) : option DriftScoring.DriftState :=
  if lastState_set sys then Some (DriftScoring.state (scoring sys)) else None.

Definition set_lastState (sys : t) : t :=
  mk (detector sys) (scoring sys) true.

End DriftSystem.

(** ** components/GameCanvas.tsx *)

(** [MapData]: the grid size; the tiles themselves are only drawn. *)
Module MapData.

Record t := mk {
  width : Q;
  height : Q
}.

End MapData.

(** The object held by [replayStateRef]. *)
Module Replay.

Record State := mkState {
  index : Q;
  isPlaying : bool;
  speed : Q;
  framesSinceLastUIUpdate : Q
}.

Definition set_index (v : Q) (s : State) : State :=
  mkState v (isPlaying s) (speed s) (framesSinceLastUIUpdate s).
Definition set_isPlaying (v : bool) (s : State) : State :=
  mkState (index s) v (speed s) (framesSinceLastUIUpdate s).
Definition set_speed (v : Q) (s : State) : State :=
  mkState (index s) (isPlaying s) v (framesSinceLastUIUpdate s).
Definition set_framesSinceLastUIUpdate (v : Q) (s : State) : State :=
  mkState (index s) (isPlaying s) (speed s) v.

(** The [detail] of a [replay-control] event. *)
Inductive Control :=
| seek (value : Q)
| togglePause
| setSpeed (value : Q).

End Replay.

Module GameCanvas.

Definition REFERENCE_WIDTH : Q := 390.
Definition REPLAY_MAX_FRAMES : nat := 1800.
Definition TILE_SIZE : Q := 256.
Definition PHYSICS_FPS : Q := 60.

(** What a tick or a handler reads from outside the component's refs: the
    props, the shared input object and the window size. *)
Record Props := mkProps {
  params : GameParams;
  inputState : InputState;
  isReplaying : bool;
  mapData : option MapData.t;
  innerWidth : Q;
  innerHeight : Q
}.

(** The refs of the component that the simulation uses (the particle lists
    and the image assets belong to the rendering). *)
Record Refs := mkRefs {
  driftSystemRef : option DriftSystem.t;
  replayDataRef : list CarState;
  replayStateRef : Replay.State;
  currentRunRef : list Ghost.GhostFrame;
  ghostRunRef : option Ghost.GhostRun;
  carRef : CarState
}.

Definition set_driftSystemRef (v : option DriftSystem.t) (g : Refs) : Refs :=
  mkRefs v (replayDataRef g) (replayStateRef g) (currentRunRef g)
         (ghostRunRef g) (carRef g).
Definition set_replayDataRef (v : list CarState) (g : Refs) : Refs :=
  mkRefs (driftSystemRef g) v (replayStateRef g) (currentRunRef g)
         (ghostRunRef g) (carRef g).
Definition set_replayStateRef (v : Replay.State) (g : Refs) : Refs :=
  mkRefs (driftSystemRef g) (replayDataRef g) v (currentRunRef g)
         (ghostRunRef g) (carRef g).
Definition set_currentRunRef (v : list Ghost.GhostFrame) (g : Refs) : Refs :=
  mkRefs (driftSystemRef g) (replayDataRef g) (replayStateRef g) v
         (ghostRunRef g) (carRef g).
Definition set_ghostRunRef (v : option Ghost.GhostRun) (g : Refs) : Refs :=
  mkRefs (driftSystemRef g) (replayDataRef g) (replayStateRef g)
         (currentRunRef g) v (carRef g).
Definition set_carRef (v : CarState) (g : Refs) : Refs :=
  mkRefs (driftSystemRef g) (replayDataRef g) (replayStateRef g)
         (currentRunRef g) (ghostRunRef g) v.

(** Assignments to one field of the car. *)
Definition set_xPos (v : Q) (c : CarState) : CarState :=
  mkCarState v (yPos c) (xSpeed c) (ySpeed c) (speed c) (driftAngle c)
    (angle c) (angularVelocity c) (isTurning c) (isReversing c) (width c)
    (height c).
Definition set_yPos (v : Q) (c : CarState) : CarState :=
  mkCarState (xPos c) v (xSpeed c) (ySpeed c) (speed c) (driftAngle c)
    (angle c) (angularVelocity c) (isTurning c) (isReversing c) (width c)
    (height c).
Definition set_xSpeed (v : Q) (c : CarState) : CarState :=
  mkCarState (xPos c) (yPos c) v (ySpeed c) (speed c) (driftAngle c)
    (angle c) (angularVelocity c) (isTurning c) (isReversing c) (width c)
    (height c).
Definition set_ySpeed (v : Q) (c : CarState) : CarState :=
  mkCarState (xPos c) (yPos c) (xSpeed c) v (speed c) (driftAngle c)
    (angle c) (angularVelocity c) (isTurning c) (isReversing c) (width c)
    (height c).
Definition set_speed (v : Q) (c : CarState) : CarState :=
  mkCarState (xPos c) (yPos c) (xSpeed c) (ySpeed c) v (driftAngle c)
    (angle c) (angularVelocity c) (isTurning c) (isReversing c) (width c)
    (height c).
Definition set_driftAngle (v : Q) (c : CarState) : CarState :=
  mkCarState (xPos c) (yPos c) (xSpeed c) (ySpeed c) (speed c) v
    (angle c) (angularVelocity c) (isTurning c) (isReversing c) (width c)
    (height c).
Definition set_angle (v : Q) (c : CarState) : CarState :=
  mkCarState (xPos c) (yPos c) (xSpeed c) (ySpeed c) (speed c) (driftAngle c)
    v (angularVelocity c) (isTurning c) (isReversing c) (width c)
    (height c).
Definition set_angularVelocity (v : Q) (c : CarState) : CarState :=
  mkCarState (xPos c) (yPos c) (xSpeed c) (ySpeed c) (speed c) (driftAngle c)
    (angle c) v (isTurning c) (isReversing c) (width c) (height c).
Definition set_isTurning (v : bool) (c : CarState) : CarState :=
  mkCarState (xPos c) (yPos c) (xSpeed c) (ySpeed c) (speed c) (driftAngle c)
    (angle c) (angularVelocity c) v (isReversing c) (width c) (height c).
Definition set_isReversing (v : bool) (c : CarState) : CarState :=
  mkCarState (xPos c) (yPos c) (xSpeed c) (ySpeed c) (speed c) (driftAngle c)
    (angle c) (angularVelocity c) (isTurning c) v (width c) (height c).

(** The initial value of the refs. *)
Definition initial_car : CarState :=
  {| xPos := 0; yPos := 0; xSpeed := 0; ySpeed := 0; speed := 0;
     driftAngle := 0; angle := 0; angularVelocity := 0;
     isTurning := false; isReversing := false; width := 25; height := 50 |}.

Definition initial_replayState : Replay.State :=
  {| Replay.index := 0; Replay.isPlaying := true; Replay.speed := 1;
     Replay.framesSinceLastUIUpdate := 0 |}.

Definition initial_refs : Refs :=
  {| driftSystemRef := None; replayDataRef := [];
     replayStateRef := initial_replayState; currentRunRef := [];
     ghostRunRef := None; carRef := initial_car |}.

(** [a[i]] for an integer [i]: [undefined] outside the array. *)
Definition at_index {A : Type} (a : list A) (i : Z) : option A :=
  if (i <? 0)%Z then None else nth_error a (Z.to_nat i).

(** [a.push(v); if (a.length > REPLAY_MAX_FRAMES) a.shift()]. *)
Definition push_capped {A : Type} (v : A) (a : list A) : list A :=
  let a := a ++ [v] in
  if (REPLAY_MAX_FRAMES <? length a)%nat then tl a else a.

(** The effect run when [isReplaying] changes (and on mount). *)
Definition onReplayingChange (p : Props) (g : Refs) : Refs :=
  if isReplaying p then
    let st := replayStateRef g in
    let st := Replay.set_index 0 st in
    let st := Replay.set_isPlaying true st in
    let st := Replay.set_speed 1 st in
    set_replayStateRef st g
  else
    if (0 <? length (replayDataRef g))%nat then
      match at_index (replayDataRef g)
              (Z.of_nat (length (replayDataRef g)) - 1) with
      | Some c => set_carRef c g
      | None => g
      end
    else g.

(** In [seek] the product [value * (length - 1)] is exact here; the code
    floors the product rounded to a double, which can be the next whole
    number when the exact product lies just below it. *)
Definition handleReplayControl (e : Replay.Control) (g : Refs) : Refs :=
  let st := replayStateRef g in
  let len := inject_Z (Z.of_nat (length (replayDataRef g))) in
  match e with
  | Replay.seek value =>
      let frame := JS.floor (value * (len - 1)) in
      set_replayStateRef
        (Replay.set_index (JS.max 0 (JS.min frame (len - 1))) st) g
  | Replay.togglePause =>
      set_replayStateRef
        (Replay.set_isPlaying (negb (Replay.isPlaying st)) st) g
  | Replay.setSpeed value =>
      set_replayStateRef (Replay.set_speed value st) g
  end.

Definition resetCarPosition (p : Props) (c : CarState) : CarState :=
  match mapData p with
  | Some m =>
      let c := set_xPos ((MapData.width m * TILE_SIZE) / 2) c in
      set_yPos ((MapData.height m * TILE_SIZE) / 2) c
  | None =>
      if JS.neqb (innerWidth p) 0 then
        let initialScale := innerWidth p / REFERENCE_WIDTH in
        let effectiveZoom := zoom (params p) * initialScale in
        let c := set_xPos ((innerWidth p / effectiveZoom) / 2) c in
        set_yPos ((innerHeight p / effectiveZoom) / 2) c
      else c
  end.

(** The banked score [handleClear] reads: [_lastState.totalScore] of the
    drift system, or 0 when there is no system or no [_lastState]. *)
Definition bankedScore (g : Refs) : Q :=
  match driftSystemRef g with
  | Some sys =>
      match DriftSystem.lastState sys with
      | Some currentState => DriftScoring.totalScore currentState
      | None => 0
      end
  | None => 0
  end.

(** The listener of the [game-reset-tracks] event. *)
Definition handleClear (p : Props) (g : Refs) : Refs :=
  let g :=
    if (0 <? length (currentRunRef g))%nat then
      let currentScore := bankedScore g in
      let replace :=
        match ghostRunRef g with
        | None => true
        | Some ghost => JS.gtb currentScore (Ghost.totalScore ghost)
        end in
      if replace
      then set_ghostRunRef
             (Some (Ghost.mkGhostRun (currentRunRef g) currentScore)) g
      else g
    else g in
  let g := set_replayDataRef [] g in
  let g := set_currentRunRef [] g in
  let g :=
    match driftSystemRef g with
    | Some sys => set_driftSystemRef (Some (DriftSystem.resetScore sys)) g
    | None => g
    end in
  let c := resetCarPosition p (carRef g) in
  let c := set_speed 0 c in
  let c := set_driftAngle 0 c in
  let c := set_angle 0 c in
  set_carRef c g.

(** The frame of the stored ghost that [render] draws after the physics
    step, if any: [frames[Math.floor(replayDataRef.current.length)]]. *)
Definition ghostFrame (p : Props) (carLoaded : bool) (g : Refs)
    : option Ghost.GhostFrame :=
  if negb (isReplaying p) then
    match ghostRunRef g with
    | Some ghost =>
        if carLoaded then
          let ghostFrameIndex :=
            JS.floor (inject_Z (Z.of_nat (length (replayDataRef g)))) in
          if JS.ltb ghostFrameIndex
               (inject_Z (Z.of_nat (length (Ghost.frames ghost))))
          then at_index (Ghost.frames ghost) (Qfloor ghostFrameIndex)
          else None
        else None
    | None => None
    end
  else None.

(** The animation-frame callback [loop]: the new value of [then], and
    whether [render] (and with it one [updatePhysics]) is called. *)
Definition interval : Q := 1000 / PHYSICS_FPS.

Definition loop (now then_ : Q) : Q * bool :=
  let delta := now - then_ in
  if JS.gtb delta interval
  then (now - JS.rem delta interval, true)
  else (then_, false).

Section WithMath.

Variables Math_cos Math_sin : Q -> Q.

(** The replay branch of [updatePhysics].  The [replay-update] event and
    the sound engine only consume values. *)
Definition replayTick (g : Refs) : Refs :=
  let state := replayStateRef g in
  let totalFrames := length (replayDataRef g) in
  if (totalFrames =? 0)%nat then g
  else
    let state :=
      if Replay.isPlaying state then
        let state :=
          Replay.set_index (Replay.index state + Replay.speed state) state in
        if JS.geb (Replay.index state) (inject_Z (Z.of_nat totalFrames))
        then Replay.set_index 0 state
        else state
      else state in
    let frameIndex := Qfloor (Replay.index state) in
    let g :=
      match at_index (replayDataRef g) frameIndex with
      | Some c => set_carRef c g
      | None => g
      end in
    let state :=
      Replay.set_framesSinceLastUIUpdate
        (Replay.framesSinceLastUIUpdate state + 1) state in
    let state :=
      if JS.gtb (Replay.framesSinceLastUIUpdate state) 5
      then Replay.set_framesSinceLastUIUpdate 0 state
      else state in
    set_replayStateRef state g.

(** The live branch of [updatePhysics] works on the car in place, one
    block after the other. *)

(** 1. Acceleration / Braking. *)
Definition accelerate (p : Props) (car : CarState) : CarState :=
  let inputState := inputState p in
  let params := params p in
  let throttle := up inputState && negb (eBrake inputState) in
  let car :=
    if throttle then
      if JS.ltb (speed car) (maxSpeed params)
      then set_speed (speed car + accelerationFactor params) car
      else car
    else car in
  let car :=
    if down inputState then
      if JS.gtb (speed car) (maxReverseSpeed params)
      then set_speed (speed car - decelerationFactor params) car
      else car
    else car in
  car.

(** 2. Turning. *)
Definition turn (p : Props) (car : CarState) : CarState :=
  let inputState := inputState p in
  let params := params p in
  let isMoving := JS.gtb (JS.abs (speed car)) (1 # 10) in
  let car :=
    if left inputState && isMoving then
      let car := set_isTurning true car in
      let dir :=
        if up inputState then 1 else if JS.gtb (speed car) 0 then 1 else -1 in
      set_angularVelocity
        (angularVelocity car
         - turnFactor params
           * (if up inputState then 1
              else (speed car / maxSpeed params) * 2)
           * dir) car
    else car in
  let car :=
    if right inputState && isMoving then
      let car := set_isTurning true car in
      let dir :=
        if up inputState then 1 else if JS.gtb (speed car) 0 then 1 else -1 in
      set_angularVelocity
        (angularVelocity car
         + turnFactor params
           * (if up inputState then 1
              else (speed car / maxSpeed params) * 2)
           * dir) car
    else car in
  car.

(** 3. Drift Physics. *)
Definition driftPhysics (p : Props) (car : CarState) : CarState :=
  let params := params p in
  let car := set_isReversing (JS.ltb (speed car) 0) car in
  let angularDamping := 94 # 100 in
  let car := set_angularVelocity (angularVelocity car * angularDamping) car in
  let car :=
    if negb (isReversing car)
    then set_driftAngle
           (driftAngle car
            + driftFactor params * angularVelocity car * oversteer params)
           car
    else car in
  let driftDamping := 94 # 100 in
  let car := set_driftAngle (driftAngle car * driftDamping) car in
  set_angle (angle car + angularVelocity car) car.

(** Friction. *)
Definition friction (p : Props) (car : CarState) : CarState :=
  let inputState := inputState p in
  let params := params p in
  let drag := if eBrake inputState then eBrakeDecay params else 98 # 100 in
  let lateralFriction := if eBrake inputState then 15 # 100 else 1 in
  set_speed
    (speed car * drag
     - (if isReversing car then -1 else 1)
       * ((JS.abs (driftAngle car) * speed car) / 1000)
       * lateralFriction) car.

(** Velocity Vectors. *)
Definition velocityVectors (p : Props) (car : CarState) : CarState :=
  let inputState := inputState p in
  let turnDrag :=
    if isTurning car && negb (eBrake inputState) then 94 # 100 else 1 in
  let car :=
    set_xSpeed
      (Math_sin ((JS.PI / 180) * (angle car - driftAngle car))
       * speed car * turnDrag) car in
  let car :=
    set_ySpeed
      (Math_cos ((JS.PI / 180) * (angle car - driftAngle car))
       * speed car * turnDrag) car in
  let car := set_xPos (xPos car + xSpeed car) car in
  set_yPos (yPos car - ySpeed car) car.

(** The world size: the tile map's, or the viewport's. *)
Definition mapW (p : Props) (effectiveWidth : Q) : Q :=
  match mapData p with
  | Some m => MapData.width m * TILE_SIZE
  | None => effectiveWidth
  end.

Definition mapH (p : Props) (effectiveHeight : Q) : Q :=
  match mapData p with
  | Some m => MapData.height m * TILE_SIZE
  | None => effectiveHeight
  end.

(** 5. Bounds wrapping. *)
Definition boundsWrapping (p : Props) (effectiveWidth effectiveHeight : Q)
    (car : CarState) : CarState :=
  let mapW := mapW p effectiveWidth in
  let mapH := mapH p effectiveHeight in
  let car :=
    if JS.gtb (xPos car) mapW then set_xPos 0 car
    else if JS.ltb (xPos car) 0 then set_xPos mapW car
    else car in
  let car :=
    if JS.gtb (yPos car) mapH then set_yPos 0 car
    else if JS.ltb (yPos car) 0 then set_yPos mapH car
    else car in
  car.

(** What one live tick does to the car. *)
Definition liveCar (p : Props) (effectiveWidth effectiveHeight : Q)
    (car : CarState) : CarState :=
  let car := accelerate p car in
  let car := turn p car in
  let car := driftPhysics p car in
  let car := friction p car in
  let car := velocityVectors p car in
  boundsWrapping p effectiveWidth effectiveHeight car.

(** The rest of the live branch: scoring, then the recording of the
    tick for the replay and for the ghost. *)
Definition liveTick (p : Props) (effectiveWidth effectiveHeight : Q)
    (g : Refs) : Refs :=
  let car := liveCar p effectiveWidth effectiveHeight (carRef g) in
  let g := set_carRef car g in
  let g :=
    match driftSystemRef g with
    | Some sys =>
        let sys :=
          DriftSystem.update Math_cos Math_sin car
            (mapW p effectiveWidth) (mapH p effectiveHeight)
            (1 / PHYSICS_FPS) sys in
        set_driftSystemRef (Some (DriftSystem.set_lastState sys)) g
    | None => g
    end in
  let g := set_replayDataRef (push_capped car (replayDataRef g)) g in
  set_currentRunRef
    (push_capped
       (Ghost.mkGhostFrame (xPos car) (yPos car) (angle car)
          (driftAngle car))
       (currentRunRef g)) g.

Definition updatePhysics (p : Props)
    (effectiveZoom effectiveWidth effectiveHeight : Q) (g : Refs) : Refs :=
  if isReplaying p then replayTick g
  else liveTick p effectiveWidth effectiveHeight g.

(** What happens to the component between two renders. *)
Inductive Event :=
| Tick (p : Props) (effectiveZoom effectiveWidth effectiveHeight : Q)
| GameResetTracks (p : Props)
| ReplayControl (e : Replay.Control)
| ReplayingChanged (p : Props)
| DriftSystemCreated
    (trackUrl : option ClippingZoneDetector.LoadOutcome).

Definition handle (g : Refs) (e : Event) : Refs :=
  match e with
  | Tick p z w h => updatePhysics p z w h g
  | GameResetTracks p => handleClear p g
  | ReplayControl c => handleReplayControl c g
  | ReplayingChanged p => onReplayingChange p g
  | DriftSystemCreated trackUrl =>
      set_driftSystemRef
        (Some (DriftSystem.createDriftSystem trackUrl)) g
  end.

Definition run (es : list Event) (g : Refs) : Refs :=
  fold_left handle es g.

(** [n] ticks in a row with the same props and viewport. *)
Definition ticks (n : nat) (p : Props)
    (effectiveZoom effectiveWidth effectiveHeight : Q) (g : Refs) : Refs :=
  Nat.iter n (updatePhysics p effectiveZoom effectiveWidth effectiveHeight)
    g.

(** The refs after each event of a run, oldest first. *)
Fixpoint history (es : list Event) (g : Refs) : list Refs :=
  match es with
  | [] => []
  | e :: es => handle g e :: history es (handle g e)
  end.

End WithMath.

End GameCanvas.

(** ** components/MapEditor.tsx *)

(** The React state of the editor is one record; a handler is a function
    from the state of the render it was created in to the state after the
    updates it queued.  Pointer, wheel and button events run the handlers
    of the current render ([handle]); the keyboard listener, which can hold
    the handlers of an older render, is modelled after them ([step]). *)
Module MapEditor.

Definition GRID_SIZE : Q := 64.
Definition TILE_SIZE : Q := 256.
Definition totalSize : Q := GRID_SIZE * TILE_SIZE.

Record MapTile := mkMapTile {
  x : Q;
  y : Q;
  type : String.string;
  rotation : Q
}.

Inductive ToolType := select | brush | eraser | hand.

(** [getBoundingClientRect()] of the viewport container. *)
Module Rect.

Record t := mk {
  left : Q;
  top : Q;
  width : Q;
  height : Q
}.

End Rect.

Record State := mkState {
  history : list (list MapTile);
  historyIndex : nat;
  selectedTool : ToolType;
  selectedPartId : String.string;
  selectedTileIndex : option nat;
  scale : Q;
  pan : Q * Q;
  isDragging : bool;
  dragStart : Q * Q;
  ghostTile : option (Q * Q * String.string)
}.

Definition setHistory (v : list (list MapTile)) (s : State) : State :=
  mkState v (historyIndex s) (selectedTool s) (selectedPartId s)
    (selectedTileIndex s) (scale s) (pan s) (isDragging s) (dragStart s)
    (ghostTile s).
Definition setHistoryIndex (v : nat) (s : State) : State :=
  mkState (history s) v (selectedTool s) (selectedPartId s)
    (selectedTileIndex s) (scale s) (pan s) (isDragging s) (dragStart s)
    (ghostTile s).
Definition setSelectedTool (v : ToolType) (s : State) : State :=
  mkState (history s) (historyIndex s) v (selectedPartId s)
    (selectedTileIndex s) (scale s) (pan s) (isDragging s) (dragStart s)
    (ghostTile s).
Definition setSelectedPartId (v : String.string) (s : State) : State :=
  mkState (history s) (historyIndex s) (selectedTool s) v
    (selectedTileIndex s) (scale s) (pan s) (isDragging s) (dragStart s)
    (ghostTile s).
Definition setSelectedTileIndex (v : option nat) (s : State) : State :=
  mkState (history s) (historyIndex s) (selectedTool s) (selectedPartId s)
    v (scale s) (pan s) (isDragging s) (dragStart s) (ghostTile s).
Definition setScale (v : Q) (s : State) : State :=
  mkState (history s) (historyIndex s) (selectedTool s) (selectedPartId s)
    (selectedTileIndex s) v (pan s) (isDragging s) (dragStart s)
    (ghostTile s).
Definition setPan (v : Q * Q) (s : State) : State :=
  mkState (history s) (historyIndex s) (selectedTool s) (selectedPartId s)
    (selectedTileIndex s) (scale s) v (isDragging s) (dragStart s)
    (ghostTile s).
Definition setIsDragging (v : bool) (s : State) : State :=
  mkState (history s) (historyIndex s) (selectedTool s) (selectedPartId s)
    (selectedTileIndex s) (scale s) (pan s) v (dragStart s) (ghostTile s).
Definition setDragStart (v : Q * Q) (s : State) : State :=
  mkState (history s) (historyIndex s) (selectedTool s) (selectedPartId s)
    (selectedTileIndex s) (scale s) (pan s) (isDragging s) v (ghostTile s).
Definition setGhostTile (v : option (Q * Q * String.string)) (s : State)
    : State :=
  mkState (history s) (historyIndex s) (selectedTool s) (selectedPartId s)
    (selectedTileIndex s) (scale s) (pan s) (isDragging s) (dragStart s) v.

(** The state of the first render: [initialData?.tiles || []] is the only
    history entry, the brush with the first track part is selected. *)
Definition initial (initialData : option (list MapTile)) : State :=
  {| history := [match initialData with Some tiles => tiles | None => [] end];
     historyIndex := 0;
     selectedTool := brush;
     selectedPartId := "straight"%string;
     selectedTileIndex := None;
     scale := 1 # 2;
     pan := (0, 0);
     isDragging := false;
     dragStart := (0, 0);
     ghostTile := None |}.

(** [history[historyIndex]]: [undefined] outside the array. *)
Definition tiles (s : State) : option (list MapTile) :=
  nth_error (history s) (historyIndex s).

(** What a handler did: it returned, or it threw (a [TypeError]) after
    queuing the updates that lead to the state it carries. *)
Inductive Outcome :=
| Done (s : State)
| Threw (s : State).

Definition state_of (o : Outcome) : State :=
  match o with
  | Done s => s
  | Threw s => s
  end.

(** Array methods: [findIndex] ([None] for -1), [splice(i, 1)] on a copy,
    and the assignment [a[i] = v] to an index inside the array. *)
Fixpoint findIndex {A : Type} (f : A -> bool) (a : list A) : option nat :=
  match a with
  | [] => None
  | v :: a => if f v then Some 0%nat else option_map S (findIndex f a)
  end.

Definition splice1 {A : Type} (i : nat) (a : list A) : list A :=
  firstn i a ++ skipn (S i) a.

Definition assign {A : Type} (i : nat) (v : A) (a : list A) : list A :=
  firstn i a ++ v :: skipn (S i) a.

Definition pushHistory (newTiles : list MapTile) (s : State) : State :=
  let newHistory := firstn (historyIndex s + 1) (history s) in
  let newHistory := newHistory ++ [newTiles] in
  let newHistory :=
    if (20 <? length newHistory)%nat then tl newHistory else newHistory in
  let s := setHistory newHistory s in
  setHistoryIndex (length newHistory - 1) s.

Definition handleUndo (s : State) : State :=
  if (0 <? historyIndex s)%nat then
    let s := setHistoryIndex (historyIndex s - 1) s in
    setSelectedTileIndex None s
  else s.

Definition handleRedo (s : State) : State :=
  if (Z.of_nat (historyIndex s) <? Z.of_nat (length (history s)) - 1)%Z then
    let s := setHistoryIndex (historyIndex s + 1) s in
    setSelectedTileIndex None s
  else s.

(** [rect] is the bounding rectangle of the container, [None] while
    [containerRef.current] is null. *)
Definition screenToWorld (rect : option Rect.t) (screenX screenY : Q)
    (s : State) : Q * Q :=
  match rect with
  | None => (0, 0)
  | Some rect =>
      let centerX := Rect.width rect / 2 in
      let centerY := Rect.height rect / 2 in
      let offsetX := screenX - Rect.left rect - centerX in
      let offsetY := screenY - Rect.top rect - centerY in
      let worldX := (offsetX - fst (pan s)) / scale s in
      let worldY := (offsetY - snd (pan s)) / scale s in
      (worldX, worldY)
  end.

Definition handleWheel (ctrlKey metaKey : bool) (deltaX deltaY : Q)
    (s : State) : State :=
  if ctrlKey || metaKey then
    let delta := - deltaY * (1 # 1000) in
    let newScale := JS.min (JS.max (scale s + delta) (1 # 10)) 2 in
    setScale newScale s
  else
    setPan (fst (pan s) - deltaX, snd (pan s) - deltaY) s.

Definition handleInteraction (rect : option Rect.t) (clientX clientY : Q)
    (isDrag : bool) (s : State) : Outcome :=
  let '(worldX, worldY) := screenToWorld rect clientX clientY s in
  let gridPixelX := worldX + totalSize / 2 in
  let gridPixelY := worldY + totalSize / 2 in
  if JS.ltb gridPixelX 0 || JS.geb gridPixelX totalSize
     || JS.ltb gridPixelY 0 || JS.geb gridPixelY totalSize
  then Done s
  else
    let tileX := JS.floor (gridPixelX / TILE_SIZE) in
    let tileY := JS.floor (gridPixelY / TILE_SIZE) in
    match tiles s with
    | None => Threw s
    | Some tiles =>
        let existingIndex :=
          findIndex (fun t => JS.eqb (x t) tileX && JS.eqb (y t) tileY)
            tiles in
        match selectedTool s with
        | select =>
            if negb isDrag then Done (setSelectedTileIndex existingIndex s)
            else Done s
        | eraser =>
            match existingIndex with
            | Some existingIndex =>
                Done (pushHistory (splice1 existingIndex tiles) s)
            | None => Done s
            end
        | brush =>
            match existingIndex with
            | Some existingIndex =>
                match nth_error tiles existingIndex with
                | Some existing =>
                    if isDrag
                       && String.eqb (type existing) (selectedPartId s)
                    then Done s
                    else if negb (String.eqb (type existing)
                                    (selectedPartId s))
                    then
                      Done (pushHistory
                              (assign existingIndex
                                 (mkMapTile (x existing) (y existing)
                                    (selectedPartId s) 0) tiles) s)
                    else if negb isDrag
                    then
                      Done (pushHistory
                              (assign existingIndex
                                 (mkMapTile (x existing) (y existing)
                                    (type existing)
                                    (JS.rem (rotation existing + 90) 360))
                                 tiles) s)
                    else Done s
                | None => Threw s
                end
            | None =>
                Done (pushHistory
                        (tiles ++ [mkMapTile tileX tileY (selectedPartId s) 0])
                        s)
            end
        | hand => Done s
        end
    end.

Definition handlePointerDown (rect : option Rect.t) (button : Z)
    (clientX clientY : Q) (s : State) : Outcome :=
  if match selectedTool s with hand => true | _ => false end
     || (button =? 1)%Z
  then
    let s' := setIsDragging true s in
    Done (setDragStart (clientX - fst (pan s), clientY - snd (pan s)) s')
  else if (button =? 0)%Z
  then handleInteraction rect clientX clientY false s
  else Done s.

Definition handlePointerMove (rect : option Rect.t) (buttons : Z)
    (clientX clientY : Q) (s : State) : Outcome :=
  if isDragging s then
    Done (setPan (clientX - fst (dragStart s), clientY - snd (dragStart s)) s)
  else
    let '(worldX, worldY) := screenToWorld rect clientX clientY s in
    let gridPixelX := worldX + totalSize / 2 in
    let gridPixelY := worldY + totalSize / 2 in
    if JS.geb gridPixelX 0 && JS.ltb gridPixelX totalSize
       && JS.geb gridPixelY 0 && JS.ltb gridPixelY totalSize
    then
      let tileX := JS.floor (gridPixelX / TILE_SIZE) in
      let tileY := JS.floor (gridPixelY / TILE_SIZE) in
      let s' := setGhostTile (Some (tileX, tileY, selectedPartId s)) s in
      if (buttons =? 1)%Z then
        match selectedTool s with
        | brush | eraser => handleInteraction rect clientX clientY true s'
        | _ => Done s'
        end
      else Done s'
    else Done (setGhostTile None s).

Definition handlePointerUp (s : State) : State := setIsDragging false s.

Definition handleSelectedRotate (s : State) : Outcome :=
  match selectedTileIndex s with
  | None => Done s
  | Some selectedTileIndex =>
      match tiles s with
      | None => Threw s
      | Some tiles =>
          match nth_error tiles selectedTileIndex with
          | None => Threw s
          | Some tile =>
              Done (pushHistory
                      (assign selectedTileIndex
                         (mkMapTile (x tile) (y tile) (type tile)
                            (JS.rem (rotation tile + 90) 360)) tiles) s)
          end
      end
  end.

Definition handleSelectedDelete (s : State) : Outcome :=
  match selectedTileIndex s with
  | None => Done s
  | Some selectedTileIndex =>
      match tiles s with
      | None => Threw s
      | Some tiles =>
          let s := pushHistory (splice1 selectedTileIndex tiles) s in
          Done (setSelectedTileIndex None s)
      end
  end.

(** What the user can do in the editor.  The rotate and delete buttons of
    the selection menu exist only while the select tool has a selection;
    the zoom and centre buttons are the inline handlers of the HUD. *)
Inductive Event :=
| Undo
| Redo
| Wheel (ctrlKey metaKey : bool) (deltaX deltaY : Q)
| PointerDown (rect : option Rect.t) (button : Z) (clientX clientY : Q)
| PointerMove (rect : option Rect.t) (buttons : Z) (clientX clientY : Q)
| PointerUp
| ToolButton (tool : ToolType)
| PartButton (id : String.string)
| RotateButton
| DeleteButton
| CenterView
| ZoomIn
| ZoomOut.

Definition selectionMenu (s : State) : bool :=
  match selectedTool s, selectedTileIndex s with
  | select, Some _ => true
  | _, _ => false
  end.

Definition handle (s : State) (e : Event) : State :=
  match e with
  | Undo => handleUndo s
  | Redo => handleRedo s
  | Wheel ctrlKey metaKey deltaX deltaY =>
      handleWheel ctrlKey metaKey deltaX deltaY s
  | PointerDown rect button clientX clientY =>
      state_of (handlePointerDown rect button clientX clientY s)
  | PointerMove rect buttons clientX clientY =>
      state_of (handlePointerMove rect buttons clientX clientY s)
  | PointerUp => handlePointerUp s
  | ToolButton tool => setSelectedTool tool s
  | PartButton id => setSelectedPartId id s
  | RotateButton =>
      if selectionMenu s then state_of (handleSelectedRotate s) else s
  | DeleteButton =>
      if selectionMenu s then state_of (handleSelectedDelete s) else s
  | CenterView => setPan (0, 0) s
  | ZoomIn => setScale (JS.min (scale s * (12 # 10)) 2) s
  | ZoomOut => setScale (JS.max (scale s / (12 # 10)) (1 # 10)) s
  end.

Definition run (es : list Event) (s : State) : State :=
  fold_left handle es s.

(** *** The keyboard shortcuts

    The [keydown] listener is registered by an effect with the
    dependencies [historyIndex], [selectedTool] and [selectedTileIndex]:
    it holds the handlers of the last render in which one of the three
    changed.  Those handlers read the state [c] of that render and queue
    their updates on the current state [s]. *)

Definition handleUndo_in (c s : State) : State :=
  if (0 <? historyIndex c)%nat then
    let s := setHistoryIndex (historyIndex c - 1) s in
    setSelectedTileIndex None s
  else s.

Definition handleRedo_in (c s : State) : State :=
  if (Z.of_nat (historyIndex c) <? Z.of_nat (length (history c)) - 1)%Z then
    let s := setHistoryIndex (historyIndex c + 1) s in
    setSelectedTileIndex None s
  else s.

Definition pushHistory_in (newTiles : list MapTile) (c s : State) : State :=
  let newHistory := firstn (historyIndex c + 1) (history c) in
  let newHistory := newHistory ++ [newTiles] in
  let newHistory :=
    if (20 <? length newHistory)%nat then tl newHistory else newHistory in
  let s := setHistory newHistory s in
  setHistoryIndex (length newHistory - 1) s.

Definition handleSelectedDelete_in (c s : State) : Outcome :=
  match selectedTileIndex c with
  | None => Done s
  | Some selectedTileIndex =>
      match tiles c with
      | None => Threw s
      | Some tiles =>
          let s := pushHistory_in (splice1 selectedTileIndex tiles) c s in
          Done (setSelectedTileIndex None s)
      end
  end.

Definition handleKeyDown (key : String.string) (ctrlKey metaKey : bool)
    (c s : State) : State :=
  let s :=
    if String.eqb key "z"%string && (ctrlKey || metaKey)
    then handleUndo_in c s else s in
  let s :=
    if String.eqb key "y"%string && (ctrlKey || metaKey)
    then handleRedo_in c s else s in
  if String.eqb key "Delete"%string || String.eqb key "Backspace"%string
  then
    match selectedTool c, selectedTileIndex c with
    | select, Some _ => state_of (handleSelectedDelete_in c s)
    | _, _ => s
    end
  else s.

(** The editor between two events: the state of the current render and
    the state of the render whose handlers the [keydown] listener holds. *)
Record Session := mkSession {
  current : State;
  listener : State
}.

Definition start (initialData : option (list MapTile)) : Session :=
  mkSession (initial initialData) (initial initialData).

Definition ToolType_eqb (a b : ToolType) : bool :=
  match a, b with
  | select, select | brush, brush | eraser, eraser | hand, hand => true
  | _, _ => false
  end.

Definition index_eqb (a b : option nat) : bool :=
  match a, b with
  | Some i, Some j => (i =? j)%nat
  | None, None => true
  | _, _ => false
  end.

(** Whether a dependency of the [keydown] effect differs between two
    renders. *)
Definition deps_changed (s s' : State) : bool :=
  negb (historyIndex s =? historyIndex s')%nat
  || negb (ToolType_eqb (selectedTool s) (selectedTool s'))
  || negb (index_eqb (selectedTileIndex s) (selectedTileIndex s')).

(** The render with the state [s']: the effect registers the handlers of
    this render when a dependency changed, and keeps the old listener
    otherwise. *)
Definition render (ss : Session) (s' : State) : Session :=
  mkSession s'
    (if deps_changed (current ss) s' then s' else listener ss).

(** Pointer, wheel and button events run the handlers of the current
    render; key presses run those of the listener. *)
Inductive Input :=
| UI (e : Event)
| KeyDown (key : String.string) (ctrlKey metaKey : bool).

Definition step (ss : Session) (i : Input) : Session :=
  match i with
  | UI e => render ss (handle (current ss) e)
  | KeyDown key ctrlKey metaKey =>
      render ss
        (handleKeyDown key ctrlKey metaKey (listener ss) (current ss))
  end.

Definition play (inputs : list Input) (ss : Session) : Session :=
  fold_left step inputs ss.

End MapEditor.

(** ** utils/SoundEngine.ts *)

Module SoundEngine.

Definition n_samples : Z := 44100.

(** The body of the loop of [makeDistortionCurve]: the value stored in
    [curve[i]] (the [Float32Array] holds it rounded to single precision;
    here it is exact). *)
Definition curve_at (amount : Q) (i : nat) : Q :=
  let k := amount in
  let x := (inject_Z (Z.of_nat i) * 2) / inject_Z n_samples - 1 in
  if JS.eqb k 0 then x
  else (JS.PI + k) * x / (JS.PI + k * JS.abs x).

Definition makeDistortionCurve (amount : Q) : list Q :=
  map (curve_at amount) (seq 0 (Z.to_nat n_samples)).

End SoundEngine.

(** * Vocabulary of the properties *)

(** ** DriftScoring *)

Section DriftScoringVocabulary.

Import DriftScoring.

(** The state invariant of the specification. *)
Definition idle_has_no_score (d : t) : Prop :=
  isDrifting (state d) = false -> currentScore (state d) == 0.

(** What holds of the scores of a machine whose configured point rate and
    combo bonus are not negative. *)
Record scores_ok (d : t) : Prop := mk_scores_ok {
  ok_base : 0 <= basePointsPerSecond (config d);
  ok_bonus : 0 <= comboBonus (config d);
  ok_current : 0 <= currentScore (state d);
  ok_total : 0 <= totalScore (state d);
  ok_combo : isDrifting (state d) = true -> 1 <= combo (state d)
}.

(** The calls of a run: every [update] has a non-negative [deltaTime] and
    a clipping multiplier of at least 1. *)
Definition valid_call (c : call) : Prop :=
  match c with
  | Update _ m dt => 0 <= dt /\ 1 <= m
  | EndDrift _ => True
  | ResetTotal => True
  end.

(** How one call may change [totalScore]: not at all, or by banking. *)
Definition total_step (d d' : t) : Prop :=
  totalScore (state d') = totalScore (state d)
  \/ (isDrifting (state d) = true
      /\ isDrifting (state d') = false
      /\ totalScore (state d')
         = totalScore (state d) + JS.floor (currentScore (state d))).

End DriftScoringVocabulary.

(** A car with the given speed and drift angle, everything else at rest. *)
Definition car_at (speed driftAngle : Q) : CarState :=
  mkCarState 0 0 0 0 speed driftAngle 0 0 false false 25 50.

(** One second of drifting at 20 degrees, then two seconds going straight:
    the second call lets the combo timer run out and banks the score. *)
Definition drift_then_straight : list DriftScoring.call :=
  [DriftScoring.Update (car_at 4 20) 1 1; DriftScoring.Update (car_at 4 0) 1 2].

(** ** ClippingZoneDetector *)

Section DetectorVocabulary.

Import ClippingZoneDetector.

(** A sample point falls on a pixel of the image. *)
Definition in_bounds (img : Image.t) (pt : Point) : bool :=
  (0 <=? Qfloor (x pt))%Z && (0 <=? Qfloor (y pt))%Z
  && (Qfloor (x pt) <? Image.width img)%Z
  && (Qfloor (y pt) <? Image.height img)%Z.






End DetectorVocabulary.

(** A detector with a loaded 2 x 2 image whose left column is white and
    whose right column is black, and a car over it. *)
Definition sample_detector : ClippingZoneDetector.t :=
  ClippingZoneDetector.loadTrack
    (ClippingZoneDetector.Loaded (Image.mk 2 2)
       (Some [255; 255; 255; 255; 0; 0; 0; 255;
              255; 255; 255; 255; 0; 0; 0; 255]%Z))
    (ClippingZoneDetector.new ClippingZoneDetector.empty_config).

(** A car in the middle of a 100 x 100 world, heading up. *)
Definition centred_car : CarState :=
  mkCarState 50 50 0 0 4 0 0 0 false false 25 50.

(** ** GameCanvas *)

(** The input [{up: true}], every other key released. *)
Definition throttle_only : InputState :=
  mkInputState true false false false false false.

(** The speed after [n] ticks of full throttle from rest with the default
    acceleration: each tick adds 0.1 and then applies the drag 0.98. *)
Fixpoint speed_from_rest (n : nat) : Q :=
  match n with
  | O => 0
  | S k => (speed_from_rest k + (1 # 10)) * (98 # 100)
  end.

(** Polynomial stand-ins for [Math.sin] and [Math.cos], to run the model on
    sample inputs. *)
Definition poly_sin (x : Q) : Q :=
  x - x * x * x / 6 + x * x * x * x * x / 120.
Definition poly_cos (x : Q) : Q :=
  1 - x * x / 2 + x * x * x * x / 24.

(** The default parameters on a 390 x 844 window without a tile map. *)
Definition sample_props (inputState : InputState) (isReplaying : bool)
    : GameCanvas.Props :=
  GameCanvas.mkProps DEFAULT_PARAMS inputState isReplaying None 390 844.

(** A car going straight ahead at speed [s], with no rotation and no
    drift. *)
Definition straight (s : Q) (car : CarState) : Prop :=
  speed car == s /\ driftAngle car == 0 /\ angularVelocity car == 0.

(** A live tick: a render while the component is not replaying. *)
Definition live_tick (e : GameCanvas.Event) : Prop :=
  match e with
  | GameCanvas.Tick p _ _ _ => GameCanvas.isReplaying p = false
  | _ => False
  end.

(** Refs in replay mode: three recorded cars, the playhead on the second
    one, at half speed. *)
Definition sample_replay (isPlaying : bool) : GameCanvas.Refs :=
  GameCanvas.mkRefs None [car_at 1 0; car_at 2 0; car_at 3 0]
    (Replay.mkState 1 isPlaying (1 # 2) 0) [] None GameCanvas.initial_car.

(** The ghost [handleClear] leaves behind, as the specification words it:
    the current run when it has frames and beats the stored one (or none
    is stored), the stored one otherwise. *)
Definition ghost_after_reset (g : GameCanvas.Refs) : option Ghost.GhostRun :=
  match GameCanvas.currentRunRef g, GameCanvas.ghostRunRef g with
  | [], stored => stored
  | frames, None =>
      Some (Ghost.mkGhostRun frames (GameCanvas.bankedScore g))
  | frames, Some stored =>
      if JS.gtb (GameCanvas.bankedScore g) (Ghost.totalScore stored)
      then Some (Ghost.mkGhostRun frames (GameCanvas.bankedScore g))
      else Some stored
  end.

(** The score of the stored ghost, when there is one. *)
Definition ghost_score (g : GameCanvas.Refs) : option Q :=
  option_map Ghost.totalScore (GameCanvas.ghostRunRef g).

(** Refs at the end of a run of one frame that banked [score], with
    [stored] as the ghost kept so far. *)
Definition run_end (score : Q) (stored : option Ghost.GhostRun)
    : GameCanvas.Refs :=
  let scoring := DriftScoring.new DriftScoring.empty_config in
  let scoring :=
    DriftScoring.with_state (DriftScoring.set_totalScore score) scoring in
  let sys :=
    DriftSystem.mk
      (ClippingZoneDetector.new ClippingZoneDetector.empty_config)
      scoring true in
  GameCanvas.mkRefs (Some sys) [GameCanvas.initial_car]
    GameCanvas.initial_replayState [Ghost.mkGhostFrame 0 0 0 0] stored
    GameCanvas.initial_car.

(** * Vocabulary of the further properties *)

(** ** DriftScoring *)

Section SessionVocabulary.

Import DriftScoring.

(** The shape of the session fields: an idle machine has no combo and no
    recorded direction, a drifting one has a combo of at least 1. *)
Definition session_shape (d : t) : Prop :=
  (isDrifting (state d) = false ->
   combo (state d) == 0 /\ lastDriftDir d == 0)
  /\ (isDrifting (state d) = true -> 1 <= combo (state d)).


(** A whole number. *)
Definition whole (q : Q) : Prop := exists z : Z, q == inject_Z z.





End SessionVocabulary.


(** ** ClippingZoneDetector and the drift system *)

(** Pixel data of the right size for an image: four bytes per pixel. *)
Definition well_sized (img : Image.t) (data : list Z) : Prop :=
  (0 <= Image.width img)%Z /\ (0 <= Image.height img)%Z
  /\ Z.of_nat (length data) = (4 * Image.width img * Image.height img)%Z.

(** The offset in the pixel data of the pixel under a point. *)
Definition pixel_offset (img : Image.t) (pt : ClippingZoneDetector.Point) : Z :=
  ((Qfloor (ClippingZoneDetector.y pt) * Image.width img
    + Qfloor (ClippingZoneDetector.x pt)) * 4)%Z.

(** A call on the object returned by [createDriftSystem]. *)
Inductive system_call :=
| SystemUpdate (carState : CarState) (trackWidth trackHeight deltaTime : Q)
| SystemResetScore.

Definition system_perform (Math_cos Math_sin : Q -> Q)
    (sys : DriftSystem.t) (c : system_call) : DriftSystem.t :=
  match c with
  | SystemUpdate car w h dt => DriftSystem.update Math_cos Math_sin car w h dt sys
  | SystemResetScore => DriftSystem.resetScore sys
  end.

Definition system_run (Math_cos Math_sin : Q -> Q)
    (cs : list system_call) (sys : DriftSystem.t) : DriftSystem.t :=
  fold_left (system_perform Math_cos Math_sin) cs sys.

(** The calls of a run take no negative time. *)
Definition system_call_ok (c : system_call) : Prop :=
  match c with
  | SystemUpdate _ _ _ dt => 0 <= dt
  | SystemResetScore => True
  end.

(** A drift system as [createDriftSystem] leaves it: the default detector
    and scoring configuration, and sane scores. *)
Definition system_ok (sys : DriftSystem.t) : Prop :=
  ClippingZoneDetector.pointMultiplier
    (ClippingZoneDetector.config (DriftSystem.detector sys)) = 25 # 10
  /\ scores_ok (DriftSystem.scoring sys).

(** The total shown on the score board: the scoring machine's total, or 0
    while there is no drift system. *)
Definition board_total (g : GameCanvas.Refs) : Q :=
  match GameCanvas.driftSystemRef g with
  | Some sys =>
      DriftScoring.totalScore (DriftScoring.state (DriftSystem.scoring sys))
  | None => 0
  end.

Definition refs_ok (g : GameCanvas.Refs) : Prop :=
  match GameCanvas.driftSystemRef g with
  | Some sys => system_ok sys
  | None => True
  end.

(** An event that neither resets the score nor replaces the drift
    system. *)
Definition keeps_score (e : GameCanvas.Event) : Prop :=
  match e with
  | GameCanvas.GameResetTracks _ => False
  | GameCanvas.DriftSystemCreated _ => False
  | _ => True
  end.

(** The track URL is empty, or its load left no pixel data: the image
    failed to load, or no 2d context was obtained. *)
Definition no_pixels (trackUrl : option ClippingZoneDetector.LoadOutcome)
    : Prop :=
  match trackUrl with
  | None => True
  | Some ClippingZoneDetector.Failed => True
  | Some (ClippingZoneDetector.Loaded _ None) => True
  | Some (ClippingZoneDetector.Loaded _ (Some _)) => False
  end.

(** ** GameCanvas: the physics of a live tick *)

(** Parameters under which the forward speed is capped by [cap]: the
    acceleration and deceleration steps are not negative, the e-brake decay
    is a factor between 0 and 1, and [maxSpeed + accelerationFactor] is at
    most [cap]. *)
Definition capped_params (cap : Q) (params : GameParams) : Prop :=
  0 <= accelerationFactor params
  /\ 0 <= decelerationFactor params
  /\ 0 <= eBrakeDecay params <= 1
  /\ maxSpeed params + accelerationFactor params <= cap.

(** Every tick of a run is played with parameters capped by [cap]. *)
Definition capped_event (cap : Q) (e : GameCanvas.Event) : Prop :=
  match e with
  | GameCanvas.Tick p _ _ _ => capped_params cap (GameCanvas.params p)
  | _ => True
  end.

(** The car of the refs and every recorded car are at most [cap] fast. *)
Definition speeds_below (cap : Q) (g : GameCanvas.Refs) : Prop :=
  speed (GameCanvas.carRef g) <= cap
  /\ Forall (fun c => speed c <= cap) (GameCanvas.replayDataRef g).

(** A live tick with the steering keys released. *)
Definition unsteered_tick (e : GameCanvas.Event) : Prop :=
  match e with
  | GameCanvas.Tick p _ _ _ =>
      GameCanvas.isReplaying p = false
      /\ left (GameCanvas.inputState p) = false
      /\ right (GameCanvas.inputState p) = false
  | _ => False
  end.

(** No key pressed. *)
Definition no_input : InputState :=
  mkInputState false false false false false false.

(** ** GameCanvas: recording, replay and ghost *)

(** The pose recorded for the ghost from a car. *)
Definition pose_of (car : CarState) : Ghost.GhostFrame :=
  Ghost.mkGhostFrame (xPos car) (yPos car) (angle car) (driftAngle car).

(** What can happen while the component is in replay mode: ticks of the
    replay, seeks, pauses, and playback speeds that are not negative. *)
Definition replay_event (e : GameCanvas.Event) : Prop :=
  match e with
  | GameCanvas.Tick p _ _ _ => GameCanvas.isReplaying p = true
  | GameCanvas.ReplayControl (Replay.setSpeed value) => 0 <= value
  | GameCanvas.ReplayControl _ => True
  | _ => False
  end.

(** The playhead points into the buffer and does not run backwards. *)
Definition playhead_ok (g : GameCanvas.Refs) : Prop :=
  let st := GameCanvas.replayStateRef g in
  0 <= Replay.index st
  /\ 0 <= Replay.speed st
  /\ (GameCanvas.replayDataRef g <> [] ->
      Replay.index st
      < inject_Z (Z.of_nat (length (GameCanvas.replayDataRef g)))).

(** The score of an optional ghost run is at least [s]. *)
Definition ghost_at_least (s : Q) (ghost : option Ghost.GhostRun) : Prop :=
  match ghost with
  | Some run => s <= Ghost.totalScore run
  | None => False
  end.

(** The frame a seek lands on in the model: the floor of the product,
    clamped to the buffer of length [len]. *)
Definition seek_frame (value : Q) (len : Z) : Z :=
  Z.max 0 (Z.min (Qfloor (value * (inject_Z len - 1))) (len - 1)).

(** ** GameCanvas: the animation loop *)

(** The animation frames requested at the times [nows], starting with
    [then_]: the final value of [then] and the number of renders. *)
Fixpoint frames_rendered (nows : list Q) (then_ : Q) : Q * nat :=
  match nows with
  | [] => (then_, 0%nat)
  | now :: nows =>
      let '(t, rendered) := GameCanvas.loop now then_ in
      let '(t', n) := frames_rendered nows t in
      (t', ((if rendered then 1 else 0) + n)%nat)
  end.

(** ** GameCanvas: racing a ghost *)

(** A stored ghost of three frames, and the refs at the start of a run
    against it. *)
Definition sample_ghost : Ghost.GhostRun :=
  Ghost.mkGhostRun
    [Ghost.mkGhostFrame 1 0 0 0; Ghost.mkGhostFrame 2 0 0 0;
     Ghost.mkGhostFrame 3 0 0 0] 100.

Definition run_against (ghost : Ghost.GhostRun) : GameCanvas.Refs :=
  GameCanvas.set_ghostRunRef (Some ghost) GameCanvas.initial_refs.

(** A car that is spinning when the reset comes. *)
Definition spinning_car : CarState :=
  mkCarState 100 100 0 0 4 10 45 3 true false 25 50.

(** ** MapEditor *)

(** The history has between 1 and 20 entries and the index points at one
    of them. *)
Definition history_ok (s : MapEditor.State) : Prop :=
  (1 <= length (MapEditor.history s) <= 20)%nat
  /\ (MapEditor.historyIndex s < length (MapEditor.history s))%nat.

(** Two tiles on the same grid cell, as [findIndex] compares them. *)
Definition same_cell (t u : MapEditor.MapTile) : bool :=
  JS.eqb (MapEditor.x t) (MapEditor.x u)
  && JS.eqb (MapEditor.y t) (MapEditor.y u).

Definition one_tile_per_cell (tiles : list MapEditor.MapTile) : Prop :=
  forall i j t u,
    nth_error tiles i = Some t -> nth_error tiles j = Some u ->
    same_cell t u = true -> i = j.

(** A tile on a cell of the 64 x 64 grid, rotated by a multiple of 90
    degrees. *)
Definition right_angle (r : Q) : Prop :=
  r == 0 \/ r == 90 \/ r == 180 \/ r == 270.

Definition on_grid (t : MapEditor.MapTile) : Prop :=
  exists i j : Z,
    (0 <= i < 64)%Z /\ (0 <= j < 64)%Z
    /\ MapEditor.x t == inject_Z i /\ MapEditor.y t == inject_Z j.

Definition tile_ok (t : MapEditor.MapTile) : Prop :=
  on_grid t /\ right_angle (MapEditor.rotation t).

Definition zoom_ok (s : MapEditor.State) : Prop :=
  1 # 10 <= MapEditor.scale s <= 2.

(** The tiles of the initial data. *)
Definition initial_tiles (initialData : option (list MapEditor.MapTile))
    : list MapEditor.MapTile :=
  match initialData with
  | Some tiles => tiles
  | None => []
  end.

(** The ways in which the handlers derive new tiles from the current
    ones: a tile removed, a tile given another part, a tile rotated, or a
    tile placed on a free cell under the pointer. *)
Inductive edits (tiles : list MapEditor.MapTile)
    : list MapEditor.MapTile -> Prop :=
| edit_remove (i : nat) : edits tiles (MapEditor.splice1 i tiles)
| edit_retype (i : nat) (t : MapEditor.MapTile) (id : String.string) :
    nth_error tiles i = Some t ->
    edits tiles
      (MapEditor.assign i
         (MapEditor.mkMapTile (MapEditor.x t) (MapEditor.y t) id 0) tiles)
| edit_rotate (i : nat) (t : MapEditor.MapTile) :
    nth_error tiles i = Some t ->
    edits tiles
      (MapEditor.assign i
         (MapEditor.mkMapTile (MapEditor.x t) (MapEditor.y t)
            (MapEditor.type t)
            (JS.rem (MapEditor.rotation t + 90) 360)) tiles)
| edit_place (gridPixelX gridPixelY : Q) (id : String.string) :
    0 <= gridPixelX < MapEditor.totalSize ->
    0 <= gridPixelY < MapEditor.totalSize ->
    MapEditor.findIndex
      (fun t =>
         JS.eqb (MapEditor.x t) (JS.floor (gridPixelX / MapEditor.TILE_SIZE))
         && JS.eqb (MapEditor.y t)
              (JS.floor (gridPixelY / MapEditor.TILE_SIZE))) tiles = None ->
    edits tiles
      (tiles
       ++ [MapEditor.mkMapTile (JS.floor (gridPixelX / MapEditor.TILE_SIZE))
             (JS.floor (gridPixelY / MapEditor.TILE_SIZE)) id 0]).

(** What a handler does to the history: nothing, or one [pushHistory] of
    tiles edited from the current ones. *)
Definition same_history (s s' : MapEditor.State) : Prop :=
  MapEditor.history s' = MapEditor.history s
  /\ MapEditor.historyIndex s' = MapEditor.historyIndex s.

Definition pushed (s s' : MapEditor.State) : Prop :=
  exists tiles newTiles,
    MapEditor.tiles s = Some tiles
    /\ edits tiles newTiles
    /\ same_history (MapEditor.pushHistory newTiles s) s'.

(** The handlers of the [keydown] listener and the current render agree
    on the dependencies of the effect. *)
Definition deps_agree (c s : MapEditor.State) : Prop :=
  MapEditor.historyIndex c = MapEditor.historyIndex s
  /\ MapEditor.selectedTool c = MapEditor.selectedTool s
  /\ MapEditor.selectedTileIndex c = MapEditor.selectedTileIndex s.

(** What holds of the editor between two events: the history of the
    current render is in order, and the listener's render has the same
    dependencies and a history of the same length (not always the same
    history). *)
Definition session_ok (ss : MapEditor.Session) : Prop :=
  history_ok (MapEditor.current ss)
  /\ deps_agree (MapEditor.listener ss) (MapEditor.current ss)
  /\ length (MapEditor.history (MapEditor.listener ss))
     = length (MapEditor.history (MapEditor.current ss)).

(** Every event but undo and redo. *)
Definition not_undo_redo (e : MapEditor.Event) : Prop :=
  match e with
  | MapEditor.Undo | MapEditor.Redo => False
  | _ => True
  end.

(** A map of two tiles and a click of the brush on a free cell of a
    1000 x 800 viewport. *)
Definition sample_tiles : list MapEditor.MapTile :=
  [MapEditor.mkMapTile 3 4 "straight"%string 0;
   MapEditor.mkMapTile 10 20 "curve"%string 90].

Definition sample_click : MapEditor.Event :=
  MapEditor.PointerDown (Some (MapEditor.Rect.mk 0 0 1000 800)) 0 500 400.

(** A full history with a stale keyboard listener: on a map with one tile
    in the middle of the grid, the tile is selected and rotated twenty
    times with the button of the selection menu.  The twentieth rotation
    leaves [historyIndex] at 19, so the listener keeps the handlers of the
    render before it. *)
Definition middle_tile : list MapEditor.MapTile :=
  [MapEditor.mkMapTile 32 32 "straight"%string 0].

Definition twenty_rotations : list MapEditor.Input :=
  MapEditor.UI (MapEditor.ToolButton MapEditor.select)
  :: MapEditor.UI sample_click
  :: repeat (MapEditor.UI MapEditor.RotateButton) 20.

(** * Properties *)

(** ** The comparison operators *)

#[global] Arguments JS.leb : simpl never.
#[global] Arguments JS.ltb : simpl never.
#[global] Arguments JS.geb : simpl never.
#[global] Arguments JS.gtb : simpl never.
#[global] Arguments JS.eqb : simpl never.
#[global] Arguments JS.neqb : simpl never.
#[global] Arguments JS.abs : simpl never.
#[global] Arguments JS.max : simpl never.
#[global] Arguments JS.min : simpl never.
#[global] Arguments JS.floor : simpl never.
#[global] Arguments JS.sign : simpl never.
#[global] Arguments Qplus : simpl never.
#[global] Arguments Qminus : simpl never.
#[global] Arguments Qmult : simpl never.
#[global] Arguments Qdiv : simpl never.
#[global] Arguments Qopp : simpl never.

Lemma leb_true (x y : Q) : JS.leb x y = true <-> x <= y.
Proof. apply Qle_bool_iff. Qed.

Lemma leb_false (x y : Q) : JS.leb x y = false <-> y < x.
Proof.
  unfold JS.leb. rewrite <- not_true_iff_false, Qle_bool_iff.
  split; [apply Qnot_le_lt | apply Qlt_not_le].
Qed.

Lemma ltb_true (x y : Q) : JS.ltb x y = true <-> x < y.
Proof. unfold JS.ltb. rewrite negb_true_iff. apply leb_false. Qed.

Lemma ltb_false (x y : Q) : JS.ltb x y = false <-> y <= x.
Proof. unfold JS.ltb. rewrite negb_false_iff. apply leb_true. Qed.

Lemma gtb_true (x y : Q) : JS.gtb x y = true <-> y < x.
Proof. apply ltb_true. Qed.

Lemma gtb_false (x y : Q) : JS.gtb x y = false <-> x <= y.
Proof. apply ltb_false. Qed.

Lemma geb_true (x y : Q) : JS.geb x y = true <-> y <= x.
Proof. apply leb_true. Qed.

Lemma geb_false (x y : Q) : JS.geb x y = false <-> x < y.
Proof. apply leb_false. Qed.

Lemma floor_nonneg (x : Q) : 0 <= x -> 0 <= JS.floor x.
Proof.
  intros H. unfold JS.floor.
  change 0 with (inject_Z 0). rewrite <- Zle_Qle.
  change 0%Z with (Qfloor 0). now apply Qfloor_resp_le.
Qed.

Lemma max_ge_1 (x : Q) : 1 <= JS.max 1 x.
Proof. apply Q.le_max_l. Qed.

(** ** DriftScoring *)

Section DriftScoringFacts.

Import DriftScoring.


Lemma endDrift_idle (bank : bool) (d : t) :
  isDrifting (state (endDrift bank d)) = false
  /\ currentScore (state (endDrift bank d)) = 0.
Proof. destruct bank; split; reflexivity. Qed.

Lemma resetTotal_idle (d : t) :
  isDrifting (state (resetTotal d)) = false
  /\ currentScore (state (resetTotal d)) = 0.
Proof. split; reflexivity. Qed.

(** On the branch where the drift angle condition holds, [update] leaves
    the machine drifting. *)
Lemma chain_isDrifting (dir : Q) (d : t) :
  isDrifting (state (chain dir d)) = isDrifting (state d).
Proof. unfold chain. now destruct (_ && _). Qed.

Lemma update_idle (car : CarState) (m dt : Q) (d : t) :
  idle_has_no_score d -> idle_has_no_score (update car m dt d).
Proof.
  unfold idle_has_no_score, update. intros Hd.
  destruct (JS.ltb _ _).
  - cbn. destruct (isDrifting (state d)) eqn:Hdr; cbn.
    + intros _. reflexivity.
    + destruct (JS.gtb _ _); cbn; [intros _; reflexivity |].
      rewrite Hdr. exact Hd.
  - destruct (JS.geb _ _).
    + cbn. rewrite chain_isDrifting.
      destruct (isDrifting (state d)) eqn:Hdr; cbn; [| discriminate].
      rewrite Hdr. discriminate.
    + cbn. destruct (isDrifting (state d)) eqn:Hdr; cbn.
      * destruct (JS.leb _ _); cbn; [reflexivity | congruence].
      * rewrite Hdr. exact Hd.
Qed.

Lemma perform_idle (c : call) (d : t) :
  idle_has_no_score d -> idle_has_no_score (perform d c).
Proof.
  destruct c as [car m dt | bank |]; cbn [perform]; intros Hd.
  - now apply update_idle.
  - intros _. now rewrite (proj2 (endDrift_idle bank d)).
  - intros _. reflexivity.
Qed.

Lemma run_idle (cs : list call) (d : t) :
  idle_has_no_score d -> idle_has_no_score (run cs d).
Proof.
  revert d. induction cs as [| c cs IH]; intros d Hd; [exact Hd |].
  apply IH, perform_idle, Hd.
Qed.

End DriftScoringFacts.

(** C3.  From a newly constructed scoring machine, after any sequence of
    calls to [update], [endDrift] and [resetTotal], [currentScore] is 0
    whenever [isDrifting] is false. *)
Theorem currentScore_zero_when_idle
    (c : DriftScoring.PartialConfig) (cs : list DriftScoring.call) :
  let d := DriftScoring.run cs (DriftScoring.new c) in
  DriftScoring.isDrifting (DriftScoring.state d) = false ->
  DriftScoring.currentScore (DriftScoring.state d) == 0.
Proof.
  cbv zeta. apply run_idle. intros _. reflexivity.
Qed.

Lemma currentScore_zero_when_idle_witness :
  let d := DriftScoring.run drift_then_straight
             (DriftScoring.new DriftScoring.empty_config) in
  DriftScoring.isDrifting (DriftScoring.state d) = false
  /\ DriftScoring.currentScore (DriftScoring.state d) == 0.
Proof.
  split.
  - reflexivity.
  - apply (currentScore_zero_when_idle DriftScoring.empty_config
             drift_then_straight).
    reflexivity.
Defined.

(** ** DriftScoring: the banked total *)

Section TotalScore.

Import DriftScoring.


Lemma new_scores_ok (c : PartialConfig) :
  0 <= basePointsPerSecond (config (new c)) ->
  0 <= comboBonus (config (new c)) ->
  scores_ok (new c).
Proof.
  intros Hb Hc. split; cbn; try assumption; try discriminate; lra.
Qed.

Lemma endDrift_scores_ok (bank : bool) (d : t) :
  scores_ok d -> scores_ok (endDrift bank d).
Proof.
  intros [Hb Hc Hcur Htot Hcombo].
  split; destruct bank; cbn; try assumption; try discriminate; try lra.
  pose proof (floor_nonneg _ Hcur). lra.
Qed.

Lemma resetTotal_scores_ok (d : t) : scores_ok d -> scores_ok (resetTotal d).
Proof.
  intros [Hb Hc Hcur Htot Hcombo].
  split; cbn; try assumption; try discriminate; lra.
Qed.

Lemma startDrift_scores_ok (dir : Q) (d : t) :
  scores_ok d -> scores_ok (set_lastDriftDir dir (startDrift d)).
Proof.
  intros [Hb Hc Hcur Htot Hcombo].
  split; cbn; try assumption; intros; lra.
Qed.

Lemma chain_scores_ok (dir : Q) (d : t) :
  isDrifting (state d) = true -> scores_ok d -> scores_ok (chain dir d).
Proof.
  intros Hdr [Hb Hc Hcur Htot Hcombo]. specialize (Hcombo Hdr).
  unfold chain. destruct (_ && _); [| now split].
  split; cbn; try assumption; intros; lra.
Qed.

Lemma chain_totalScore (dir : Q) (d : t) :
  totalScore (state (chain dir d)) = totalScore (state d).
Proof. unfold chain. now destruct (_ && _). Qed.

(** The points of one tick are not negative. *)
Lemma points_nonneg (base m comboV bonus bonusAngle dt : Q) :
  0 <= base -> 1 <= m -> 1 <= comboV -> 0 <= bonus -> 1 <= bonusAngle ->
  0 <= dt ->
  0 <= base * m * (1 + (comboV - 1) * bonus) * bonusAngle * dt.
Proof.
  intros Hbase Hm Hcombo Hbonus Hangle Hdt.
  assert (0 <= (comboV - 1) * bonus) by (apply Qmult_le_0_compat; lra).
  repeat apply Qmult_le_0_compat; lra.
Qed.

Lemma update_scores_ok (car : CarState) (m dt : Q) (d : t) :
  0 <= dt -> 1 <= m -> scores_ok d ->
  scores_ok (update car m dt d) /\ total_step d (update car m dt d).
Proof.
  intros Hdt Hm Hd. unfold update, total_step.
  set (d0 := with_state (set_isInClippingZone (JS.gtb m 1)) d).
  assert (Hd0 : scores_ok d0) by (destruct Hd; now split).
  change (totalScore (state d)) with (totalScore (state d0)).
  change (isDrifting (state d)) with (isDrifting (state d0)).
  change (currentScore (state d)) with (currentScore (state d0)).
  clearbody d0. clear d Hd.
  destruct (JS.ltb _ _).
  - destruct (isDrifting (state d0) || JS.gtb (currentScore (state d0)) 0).
    + split; [now apply endDrift_scores_ok | now left].
    + split; [assumption | now left].
  - destruct (JS.geb _ _).
    + set (d1 := if negb (isDrifting (state d0))
                 then set_lastDriftDir (JS.sign (driftAngle car))
                        (startDrift d0)
                 else d0).
      assert (H1 : scores_ok d1 /\ isDrifting (state d1) = true
                   /\ totalScore (state d1) = totalScore (state d0)).
      { subst d1. destruct (isDrifting (state d0)) eqn:Hdr; cbn [negb].
        - split; [assumption | split; [assumption | reflexivity]].
        - split; [now apply startDrift_scores_ok | split; reflexivity]. }
      clearbody d1. destruct H1 as (Hok1 & Hdr1 & Htot1).
      pose proof (chain_scores_ok (JS.sign (driftAngle car)) d1 Hdr1 Hok1)
        as Hok2.
      pose proof (chain_isDrifting (JS.sign (driftAngle car)) d1) as Hdr2.
      pose proof (chain_totalScore (JS.sign (driftAngle car)) d1) as Htot2.
      set (d2 := chain (JS.sign (driftAngle car)) d1) in *.
      clearbody d2. rewrite Hdr1 in Hdr2. rewrite Htot1 in Htot2.
      destruct Hok2 as [Hb Hc Hcur Htot Hcombo]. specialize (Hcombo Hdr2).
      split; [| left; exact Htot2].
      split; cbn; try assumption; [| intros _; exact Hcombo].
      pose proof (points_nonneg (basePointsPerSecond (config d2)) m
                    (combo (state d2)) (comboBonus (config d2))
                    (JS.max 1 (angleDeg (driftAngle car) / 30)) dt
                    Hb Hm Hcombo Hc (max_ge_1 _) Hdt).
      lra.
    + destruct (isDrifting (state d0)) eqn:Hdr;
        [| split; [assumption | now left]].
      set (d1 := set_comboTimer (comboTimer d0 - dt * 1000) d0).
      assert (Hd1 : scores_ok d1) by (destruct Hd0; now split).
      destruct (JS.leb _ _).
      * split; [now apply endDrift_scores_ok |].
        right. split; [reflexivity | split; reflexivity].
      * split; [assumption | now left].
Qed.

Lemma perform_scores_ok (c : call) (d : t) :
  valid_call c -> scores_ok d -> scores_ok (perform d c).
Proof.
  destruct c as [car m dt | bank |]; cbn [perform valid_call]; intros Hv Hd.
  - now apply update_scores_ok.
  - now apply endDrift_scores_ok.
  - now apply resetTotal_scores_ok.
Qed.

Lemma run_scores_ok (cs : list call) (d : t) :
  Forall valid_call cs -> scores_ok d -> scores_ok (run cs d).
Proof.
  intros Hcs. revert d.
  induction Hcs as [| c cs Hc _ IH]; intros d Hd; [exact Hd |].
  apply IH, perform_scores_ok; assumption.
Qed.

Lemma total_step_le (d d' : t) :
  scores_ok d -> total_step d d' ->
  totalScore (state d) <= totalScore (state d').
Proof.
  intros Hd [-> | (_ & _ & ->)]; [apply Qle_refl |].
  pose proof (floor_nonneg _ (ok_current _ Hd)). lra.
Qed.

End TotalScore.

(** C4.  For a scoring machine whose configured point rate and combo bonus
    are not negative (the defaults are 500 and 0.2), after any sequence of
    calls in which every [update] has [deltaTime >= 0] and a clipping
    multiplier [>= 1], a further such [update] does not decrease
    [totalScore]: it leaves it unchanged or, ending a drift with banking,
    adds [floor(currentScore)] to it; it makes it 0 only if it was 0, while
    [resetTotal] always makes it 0. *)
Theorem totalScore_non_decreasing
    (c : DriftScoring.PartialConfig) (cs : list DriftScoring.call)
    (carState : CarState) (clippingMultiplier deltaTime : Q) :
  let d0 := DriftScoring.new c in
  0 <= DriftScoring.basePointsPerSecond (DriftScoring.config d0) ->
  0 <= DriftScoring.comboBonus (DriftScoring.config d0) ->
  Forall valid_call cs ->
  0 <= deltaTime -> 1 <= clippingMultiplier ->
  let d := DriftScoring.run cs d0 in
  let d' := DriftScoring.update carState clippingMultiplier deltaTime d in
  let total x := DriftScoring.totalScore (DriftScoring.state x) in
  total d <= total d'
  /\ (total d' = total d
      \/ (DriftScoring.isDrifting (DriftScoring.state d) = true
          /\ DriftScoring.isDrifting (DriftScoring.state d') = false
          /\ total d'
             = total d
               + JS.floor (DriftScoring.currentScore (DriftScoring.state d))))
  /\ (total d' == 0 -> total d == 0)
  /\ total (DriftScoring.resetTotal d') = 0.
Proof.
  intros d0 Hb Hc Hcs Hdt Hm d d' total.
  assert (Hd : scores_ok d) by (apply run_scores_ok, new_scores_ok; assumption).
  destruct (update_scores_ok carState clippingMultiplier deltaTime d Hdt Hm Hd)
    as [Hd' Hstep].
  pose proof (total_step_le d d' Hd Hstep) as Hle.
  repeat split; try assumption.
  intros H0. pose proof (ok_total _ Hd). subst total. cbv beta in *. lra.
Qed.

Lemma totalScore_non_decreasing_witness :
  let d := DriftScoring.run [DriftScoring.Update (car_at 4 20) 1 1]
             (DriftScoring.new DriftScoring.empty_config) in
  let d' := DriftScoring.update (car_at 4 0) 1 2 d in
  let total x := DriftScoring.totalScore (DriftScoring.state x) in
  total d <= total d'
  /\ (total d' = total d
      \/ (DriftScoring.isDrifting (DriftScoring.state d) = true
          /\ DriftScoring.isDrifting (DriftScoring.state d') = false
          /\ total d'
             = total d
               + JS.floor (DriftScoring.currentScore (DriftScoring.state d))))
  /\ (total d' == 0 -> total d == 0)
  /\ total (DriftScoring.resetTotal d') = 0.
Proof.
  apply (totalScore_non_decreasing DriftScoring.empty_config
           [DriftScoring.Update (car_at 4 20) 1 1] (car_at 4 0) 1 2).
  - vm_compute. discriminate.
  - vm_compute. discriminate.
  - repeat constructor; vm_compute; discriminate.
  - vm_compute. discriminate.
  - vm_compute. discriminate.
Defined.

(** The claim without the condition on the configuration fails: the
    constructor keeps a negative [basePointsPerSecond], and then a drift of
    one second followed by two seconds going straight (both calls with
    [deltaTime >= 0] and clipping multiplier 1) banks a negative score, so
    that [totalScore] goes from 0 down to -3820. *)
Lemma totalScore_decreases_with_negative_rate :
  let c := DriftScoring.mkPartialConfig None None (Some (-100)) None None in
  let cs := [DriftScoring.Update (car_at 4 20) 1 1] in
  let d := DriftScoring.run cs (DriftScoring.new c) in
  let d' := DriftScoring.update (car_at 4 0) 1 2 d in
  let total x := DriftScoring.totalScore (DriftScoring.state x) in
  DriftScoring.basePointsPerSecond (DriftScoring.config (DriftScoring.new c))
  == -100
  /\ Forall valid_call cs
  /\ total d == 0
  /\ total d' == -3820
  /\ ~ total d <= total d'.
Proof.
  cbv zeta.
  split; [reflexivity |].
  split; [repeat constructor; discriminate |].
  split; [vm_compute; reflexivity |].
  split; [vm_compute; reflexivity |].
  vm_compute. intros H. apply H. reflexivity.
Qed.

(** ** DriftScoring: the fail path, the reset and the drift angle *)

(** The scenario of the specification: one tick of 1/60 s at speed 4 with
    a drift angle of 20 starts a drift and scores. *)
Example one_tick_of_drift :
  let d := DriftScoring.update (car_at 4 20) 1 (1 # 60)
             (DriftScoring.new DriftScoring.empty_config) in
  DriftScoring.isDrifting (DriftScoring.state d) = true
  /\ 0 < DriftScoring.currentScore (DriftScoring.state d)
  /\ DriftScoring.combo (DriftScoring.state d) == 1.
Proof. repeat split. Qed.

(** A change of drift direction while drifting raises the combo to 2 and
    adds the flat bonus of 1000. *)
Example direction_change_chains :
  let d := DriftScoring.update (car_at 4 20) 1 (1 # 60)
             (DriftScoring.new DriftScoring.empty_config) in
  let d' := DriftScoring.update (car_at 4 (-20)) 1 (1 # 60) d in
  DriftScoring.combo (DriftScoring.state d') == 2
  /\ DriftScoring.currentScore (DriftScoring.state d) + 1000
     < DriftScoring.currentScore (DriftScoring.state d').
Proof. split; vm_compute; reflexivity. Qed.

(** C5.  An [update] with [|speed| < minSpeed] on a machine that is drifting
    or holds a positive [currentScore] ends the drift without banking:
    afterwards [isDrifting] is false, [currentScore] and [combo] are 0, and
    [totalScore] is what it was. *)
Theorem slow_update_ends_drift_unbanked
    (carState : CarState) (clippingMultiplier deltaTime : Q)
    (d : DriftScoring.t) :
  JS.abs (speed carState) < DriftScoring.minSpeed (DriftScoring.config d) ->
  DriftScoring.isDrifting (DriftScoring.state d) = true
  \/ 0 < DriftScoring.currentScore (DriftScoring.state d) ->
  let d' := DriftScoring.update carState clippingMultiplier deltaTime d in
  DriftScoring.isDrifting (DriftScoring.state d') = false
  /\ DriftScoring.currentScore (DriftScoring.state d') == 0
  /\ DriftScoring.combo (DriftScoring.state d') == 0
  /\ DriftScoring.totalScore (DriftScoring.state d')
     = DriftScoring.totalScore (DriftScoring.state d).
Proof.
  intros Hslow Hactive. cbv zeta. unfold DriftScoring.update.
  apply ltb_true in Hslow. cbn. rewrite Hslow.
  assert (Hcond : DriftScoring.isDrifting (DriftScoring.state d)
                  || JS.gtb (DriftScoring.currentScore (DriftScoring.state d)) 0
                  = true).
  { destruct Hactive as [-> | Hpos]; [reflexivity |].
    apply gtb_true in Hpos. rewrite Hpos. apply orb_true_r. }
  rewrite Hcond. cbn. repeat split; reflexivity.
Qed.

Lemma slow_update_ends_drift_unbanked_witness :
  let d := DriftScoring.update (car_at 4 20) 1 1
             (DriftScoring.new DriftScoring.empty_config) in
  let d' := DriftScoring.update (car_at 2 20) 1 (1 # 60) d in
  0 < DriftScoring.currentScore (DriftScoring.state d)
  /\ DriftScoring.isDrifting (DriftScoring.state d') = false
  /\ DriftScoring.currentScore (DriftScoring.state d') == 0
  /\ DriftScoring.combo (DriftScoring.state d') == 0
  /\ DriftScoring.totalScore (DriftScoring.state d')
     = DriftScoring.totalScore (DriftScoring.state d).
Proof.
  split; [reflexivity |].
  apply (slow_update_ends_drift_unbanked (car_at 2 20) 1 (1 # 60)
           (DriftScoring.update (car_at 4 20) 1 1
              (DriftScoring.new DriftScoring.empty_config))).
  - reflexivity.
  - left. reflexivity.
Defined.

(** C10.  [resetTotal] zeroes [totalScore], [currentScore] and [combo] and
    clears the drifting flag; [multiplier], [duration], [isInClippingZone],
    the configuration and the private combo timer are left as they were. *)
Theorem resetTotal_frame (d : DriftScoring.t) :
  let d' := DriftScoring.resetTotal d in
  DriftScoring.multiplier (DriftScoring.state d')
  = DriftScoring.multiplier (DriftScoring.state d)
  /\ DriftScoring.duration (DriftScoring.state d')
     = DriftScoring.duration (DriftScoring.state d)
  /\ DriftScoring.isInClippingZone (DriftScoring.state d')
     = DriftScoring.isInClippingZone (DriftScoring.state d)
  /\ DriftScoring.comboTimer d' = DriftScoring.comboTimer d
  /\ DriftScoring.config d' = DriftScoring.config d
  /\ DriftScoring.totalScore (DriftScoring.state d') = 0
  /\ DriftScoring.currentScore (DriftScoring.state d') = 0
  /\ DriftScoring.combo (DriftScoring.state d') = 0
  /\ DriftScoring.isDrifting (DriftScoring.state d') = false.
Proof. repeat split; reflexivity. Qed.

(** The stale fields are really kept: after a drift in a clipping zone that
    went on for a second, a reset leaves the multiplier 2.5, the duration 1
    and the combo timer 2000. *)
Example resetTotal_keeps_session_fields :
  let d := DriftScoring.resetTotal
             (DriftScoring.update (car_at 4 20) (25 # 10) 1
                (DriftScoring.new DriftScoring.empty_config)) in
  DriftScoring.multiplier (DriftScoring.state d) == 25 # 10
  /\ DriftScoring.duration (DriftScoring.state d) == 1
  /\ DriftScoring.isInClippingZone (DriftScoring.state d) = true
  /\ DriftScoring.comboTimer d == 2000.
Proof. repeat split; reflexivity. Qed.

(** The angle compared with [minDriftAngle] is the drift angle multiplied by
    [180 / Math.PI], more than 57 times the drift angle. *)
Lemma angleDeg_scaled (driftAngle : Q) :
  DriftScoring.angleDeg driftAngle == JS.abs driftAngle * (180 / JS.PI)
  /\ 57 * JS.abs driftAngle <= DriftScoring.angleDeg driftAngle.
Proof.
  unfold DriftScoring.angleDeg, JS.abs.
  assert (Hpi : Qabs (180 / JS.PI) == 180 / JS.PI) by reflexivity.
  rewrite Qabs_Qmult, Hpi. split; [reflexivity |].
  assert (H57 : 57 <= 180 / JS.PI) by (vm_compute; discriminate).
  pose proof (Qabs_nonneg driftAngle) as Hn.
  nra.
Qed.

(** C2.  With the default configuration, a car at speed 4 whose drift angle
    is 1 degree, far below the threshold of 15, is scored as drifting by
    [update]: the angle it compares with the threshold is
    [|driftAngle * (180 / Math.PI)|], about 57.3 here, and the angle bonus
    is computed from that value as well. *)
Theorem update_rescales_drift_angle :
  let carState := car_at 4 1 in
  let d := DriftScoring.new DriftScoring.empty_config in
  let d' := DriftScoring.update carState 1 (1 # 60) d in
  JS.abs (driftAngle carState)
  < DriftScoring.minDriftAngle (DriftScoring.config d)
  /\ DriftScoring.minSpeed (DriftScoring.config d) <= JS.abs (speed carState)
  /\ ~ DriftScoring.angleDeg (driftAngle carState)
       == JS.abs (driftAngle carState)
  /\ DriftScoring.minDriftAngle (DriftScoring.config d)
     <= DriftScoring.angleDeg (driftAngle carState)
  /\ DriftScoring.isDrifting (DriftScoring.state d') = true
  /\ 0 < DriftScoring.currentScore (DriftScoring.state d').
Proof.
  repeat split; try reflexivity; vm_compute; discriminate.
Qed.

(** ** GameCanvas: what a live tick records *)

#[global] Arguments GameCanvas.liveCar : simpl never.
#[global] Arguments DriftSystem.update : simpl never.
#[global] Arguments DriftSystem.resetScore : simpl never.
#[global] Arguments GameCanvas.resetCarPosition : simpl never.
#[global] Arguments GameCanvas.push_capped : simpl never.

Section LiveTick.

Import GameCanvas.

Variables Math_cos Math_sin : Q -> Q.

Lemma updatePhysics_live (p : Props) (z w h : Q) (g : Refs) :
  isReplaying p = false ->
  updatePhysics Math_cos Math_sin p z w h g
  = liveTick Math_cos Math_sin p w h g.
Proof. intros H. unfold updatePhysics. now rewrite H. Qed.

Lemma liveTick_carRef (p : Props) (w h : Q) (g : Refs) :
  carRef (liveTick Math_cos Math_sin p w h g)
  = liveCar Math_cos Math_sin p w h (carRef g).
Proof.
  unfold liveTick. cbn [driftSystemRef set_carRef].
  now destruct (driftSystemRef g).
Qed.

Lemma liveTick_replayDataRef (p : Props) (w h : Q) (g : Refs) :
  replayDataRef (liveTick Math_cos Math_sin p w h g)
  = push_capped (liveCar Math_cos Math_sin p w h (carRef g))
      (replayDataRef g).
Proof.
  unfold liveTick. cbn [driftSystemRef set_carRef].
  now destruct (driftSystemRef g).
Qed.

Lemma liveTick_ghostRunRef (p : Props) (w h : Q) (g : Refs) :
  ghostRunRef (liveTick Math_cos Math_sin p w h g) = ghostRunRef g.
Proof.
  unfold liveTick. cbn [driftSystemRef set_carRef].
  now destruct (driftSystemRef g).
Qed.

Lemma replayTick_replayDataRef (g : Refs) :
  replayDataRef (replayTick g) = replayDataRef g.
Proof.
  unfold replayTick. destruct (_ =? _)%nat; [reflexivity |].
  now destruct (at_index _ _).
Qed.

Lemma replayTick_ghostRunRef (g : Refs) :
  ghostRunRef (replayTick g) = ghostRunRef g.
Proof.
  unfold replayTick. destruct (_ =? _)%nat; [reflexivity |].
  now destruct (at_index _ _).
Qed.

Lemma ticks_S (n : nat) (p : Props) (z w h : Q) (g : Refs) :
  ticks Math_cos Math_sin (S n) p z w h g
  = updatePhysics Math_cos Math_sin p z w h
      (ticks Math_cos Math_sin n p z w h g).
Proof. reflexivity. Qed.

End LiveTick.

(** The scenario of the specification: a car one unit beyond the right
    edge of the world is put back on the left edge. *)
Example bounds_wrap_right_edge :
  xPos (GameCanvas.boundsWrapping (sample_props throttle_only false) 100 100
          (mkCarState 101 50 0 0 4 0 0 0 false false 25 50)) = 0.
Proof. reflexivity. Qed.

(** ** GameCanvas: full throttle from rest *)

Section Throttle.

Import GameCanvas.

Variables Math_cos Math_sin : Q -> Q.

Lemma accelerate_throttle (p : Props) (car : CarState) :
  inputState p = throttle_only ->
  speed car < maxSpeed (params p) ->
  accelerate p car = set_speed (speed car + accelerationFactor (params p)) car.
Proof.
  intros Hin Hlt. apply ltb_true in Hlt.
  unfold accelerate. rewrite Hin. cbn. now rewrite Hlt.
Qed.

Lemma turn_no_steering (p : Props) (car : CarState) :
  left (inputState p) = false -> right (inputState p) = false ->
  turn p car = car.
Proof. intros Hl Hr. unfold turn. now rewrite Hl, Hr. Qed.

Lemma velocityVectors_frame (p : Props) (car : CarState) :
  let car' := velocityVectors Math_cos Math_sin p car in
  speed car' = speed car /\ driftAngle car' = driftAngle car
  /\ angularVelocity car' = angularVelocity car.
Proof. repeat split. Qed.

Lemma boundsWrapping_frame (p : Props) (w h : Q) (car : CarState) :
  let car' := boundsWrapping p w h car in
  speed car' = speed car /\ driftAngle car' = driftAngle car
  /\ angularVelocity car' = angularVelocity car.
Proof.
  unfold boundsWrapping.
  destruct (JS.gtb (xPos car) _), (JS.ltb (xPos car) 0); cbn;
    repeat match goal with |- context [if ?c then _ else _] => destruct c end;
    repeat split.
Qed.

Lemma liveCar_throttle (p : Props) (w h s : Q) (car : CarState) :
  inputState p = throttle_only ->
  accelerationFactor (params p) == 1 # 10 ->
  maxSpeed (params p) == 5 ->
  0 <= s < 49 # 10 ->
  straight s car ->
  straight ((s + (1 # 10)) * (98 # 100)) (liveCar Math_cos Math_sin p w h car).
Proof.
  intros Hin Hacc Hmax Hs (Hsp & Hda & Hav).
  unfold straight, liveCar. cbv zeta.
  destruct (boundsWrapping_frame p w h
              (velocityVectors Math_cos Math_sin p
                 (friction p (driftPhysics p (turn p (accelerate p car))))))
    as (-> & -> & ->).
  destruct (velocityVectors_frame p
              (friction p (driftPhysics p (turn p (accelerate p car)))))
    as (-> & -> & ->).
  rewrite turn_no_steering by (rewrite Hin; reflexivity).
  rewrite accelerate_throttle by (trivial; rewrite Hsp, Hmax; lra).
  unfold friction, driftPhysics. rewrite Hin. cbn.
  assert (Hrev : JS.ltb (speed car + accelerationFactor (params p)) 0 = false).
  { apply ltb_false. rewrite Hsp, Hacc. lra. }
  rewrite Hrev. cbn.
  assert (Hav' : angularVelocity car * (94 # 100) == 0)
    by (rewrite Hav; reflexivity).
  assert (Hda' : (driftAngle car
                  + driftFactor (params p)
                    * (angularVelocity car * (94 # 100))
                    * oversteer (params p)) * (94 # 100) == 0).
  { rewrite Hav', Hda. ring. }
  repeat split.
  - unfold JS.abs. rewrite Hda', Hsp, Hacc. change (Qabs 0) with 0. field.
  - exact Hda'.
  - exact Hav'.
Qed.

Lemma speed_from_rest_bounds (n : nat) : 0 <= speed_from_rest n < 49 # 10.
Proof.
  induction n as [| n IH]; cbn [speed_from_rest]; lra.
Qed.

Lemma ticks_throttle (p : Props) (z w h : Q) (g : Refs) (n : nat) :
  isReplaying p = false ->
  inputState p = throttle_only ->
  accelerationFactor (params p) == 1 # 10 ->
  maxSpeed (params p) == 5 ->
  straight 0 (carRef g) ->
  straight (speed_from_rest n) (carRef (ticks Math_cos Math_sin n p z w h g)).
Proof.
  intros Hlive Hin Hacc Hmax Hrest.
  induction n as [| n IH]; [exact Hrest |].
  cbn [speed_from_rest]. rewrite ticks_S.
  rewrite updatePhysics_live, liveTick_carRef by exact Hlive.
  apply liveCar_throttle; auto using speed_from_rest_bounds.
Qed.

Lemma speed_from_rest_50 :
  311 # 100 < speed_from_rest 50 /\ speed_from_rest 50 < 312 # 100.
Proof. split; vm_compute; reflexivity. Qed.

End Throttle.

(** C1, as the code has it.  From rest, with [accelerationFactor = 0.1] and
    [maxSpeed = 5], holding only the throttle for [n] live ticks gives the
    speed [speed_from_rest n]: every tick adds 0.1 and then applies the drag
    0.98.  The speed stays below 4.9 at every tick, so it is below 5.0 at
    every tick, and at tick 50 it is between 3.11 and 3.12. *)
Theorem throttle_from_rest_stays_below_cap
    (Math_cos Math_sin : Q -> Q) (p : GameCanvas.Props)
    (effectiveZoom effectiveWidth effectiveHeight : Q) (g : GameCanvas.Refs) :
  GameCanvas.isReplaying p = false ->
  GameCanvas.inputState p = throttle_only ->
  accelerationFactor (GameCanvas.params p) == 1 # 10 ->
  maxSpeed (GameCanvas.params p) == 5 ->
  speed (GameCanvas.carRef g) == 0 ->
  driftAngle (GameCanvas.carRef g) == 0 ->
  angularVelocity (GameCanvas.carRef g) == 0 ->
  let speed_at n :=
    speed (GameCanvas.carRef
             (GameCanvas.ticks Math_cos Math_sin n p effectiveZoom
                effectiveWidth effectiveHeight g)) in
  (forall n, speed_at n == speed_from_rest n)
  /\ (forall n, speed_at n < 49 # 10)
  /\ (forall n, speed_at n < 5)
  /\ 311 # 100 < speed_at 50%nat
  /\ speed_at 50%nat < 312 # 100.
Proof.
  intros Hlive Hin Hacc Hmax Hsp Hda Hav speed_at.
  assert (Heq : forall n, speed_at n == speed_from_rest n).
  { intros n. subst speed_at. cbv beta.
    now destruct (ticks_throttle Math_cos Math_sin p effectiveZoom
                    effectiveWidth effectiveHeight g n Hlive Hin Hacc Hmax)
      as (H & _); [repeat split |]. }
  split; [exact Heq |].
  split; [intros n; rewrite Heq; apply speed_from_rest_bounds |].
  split.
  - intros n. rewrite Heq. pose proof (speed_from_rest_bounds n). lra.
  - rewrite !Heq. apply speed_from_rest_50.
Qed.

Lemma throttle_from_rest_stays_below_cap_witness :
  let speed_at n :=
    speed (GameCanvas.carRef
             (GameCanvas.ticks poly_cos poly_sin n
                (sample_props throttle_only false) 1 390 844
                GameCanvas.initial_refs)) in
  (forall n, speed_at n == speed_from_rest n)
  /\ (forall n, speed_at n < 49 # 10)
  /\ (forall n, speed_at n < 5)
  /\ 311 # 100 < speed_at 50%nat
  /\ speed_at 50%nat < 312 # 100.
Proof.
  apply (throttle_from_rest_stays_below_cap poly_cos poly_sin
           (sample_props throttle_only false) 1 390 844
           GameCanvas.initial_refs); reflexivity.
Defined.

(** The scenario as the specification states it fails: after 50 ticks of
    throttle from rest with the default parameters the speed is not 5.0,
    whatever [Math.cos] and [Math.sin] return. *)
Lemma throttle_from_rest_not_capped_at_50 :
  ~ (exists Math_cos Math_sin : Q -> Q,
       speed (GameCanvas.carRef
                (GameCanvas.ticks Math_cos Math_sin 50
                   (sample_props throttle_only false) 1 390 844
                   GameCanvas.initial_refs)) == 5).
Proof.
  intros (Math_cos & Math_sin & H).
  destruct (ticks_throttle Math_cos Math_sin
              (sample_props throttle_only false) 1 390 844
              GameCanvas.initial_refs 50)
    as (Hs & _); try reflexivity; [repeat split |].
  rewrite Hs in H. pose proof (proj2 speed_from_rest_50). lra.
Qed.

(** ** GameCanvas: the replay buffer *)

Section ReplayBuffer.

Import GameCanvas.

Variables Math_cos Math_sin : Q -> Q.

Let handle := handle Math_cos Math_sin.
Let run := run Math_cos Math_sin.
Let history := history Math_cos Math_sin.

(** A capped push on a buffer within the cap drops what exceeds the cap
    from the front. *)
Lemma push_capped_skipn {A : Type} (v : A) (a : list A) :
  (length a <= REPLAY_MAX_FRAMES)%nat ->
  push_capped v a
  = skipn (length (a ++ [v]) - REPLAY_MAX_FRAMES) (a ++ [v]).
Proof.
  unfold push_capped. generalize REPLAY_MAX_FRAMES as cap. intros cap Hlen.
  rewrite length_app. cbn [length].
  destruct (Nat.ltb_spec cap (length a + 1)) as [Hgt | Hle].
  - replace (length a + 1 - cap)%nat with 1%nat by lia. reflexivity.
  - replace (length a + 1 - cap)%nat with 0%nat by lia. reflexivity.
Qed.

Lemma push_capped_length {A : Type} (v : A) (a : list A) :
  (length a <= REPLAY_MAX_FRAMES)%nat ->
  (length (push_capped v a) <= REPLAY_MAX_FRAMES)%nat.
Proof.
  intros Hlen. rewrite push_capped_skipn by exact Hlen.
  rewrite length_skipn. lia.
Qed.

(** Pushing a sequence of values into an empty buffer keeps the last
    [REPLAY_MAX_FRAMES] of them. *)
Lemma push_capped_all {A : Type} (vs : list A) :
  fold_left (fun a v => push_capped v a) vs []
  = skipn (length vs - REPLAY_MAX_FRAMES) vs.
Proof.
  induction vs as [| v vs IH] using rev_ind; [reflexivity |].
  rewrite fold_left_app. cbn [fold_left]. rewrite IH.
  rewrite push_capped_skipn by (rewrite length_skipn; lia).
  rewrite length_app, length_skipn, length_app. cbn [length].
  generalize REPLAY_MAX_FRAMES as cap. intros cap.
  destruct (Nat.le_gt_cases (length vs) cap) as [Hle | Hgt].
  - replace (length vs - cap)%nat with 0%nat by lia. cbn [skipn].
    f_equal. lia.
  - replace (length vs - (length vs - cap) + 1 - cap)%nat with 1%nat by lia.
    replace (length vs + 1 - cap)%nat with (1 + (length vs - cap))%nat by lia.
    rewrite <- skipn_skipn. f_equal.
    rewrite skipn_app.
    replace (length vs - cap - length vs)%nat with 0%nat by lia.
    reflexivity.
Qed.

(** Every handler keeps the buffer within the cap. *)
Lemma handle_replay_length (g : Refs) (e : Event) :
  (length (replayDataRef g) <= REPLAY_MAX_FRAMES)%nat ->
  (length (replayDataRef (handle g e)) <= REPLAY_MAX_FRAMES)%nat.
Proof.
  intros Hlen. subst handle.
  destruct e as [p z w h | p | c | p | url]; cbn [GameCanvas.handle].
  - unfold updatePhysics. destruct (isReplaying p).
    + now rewrite replayTick_replayDataRef.
    + rewrite liveTick_replayDataRef. now apply push_capped_length.
  - unfold handleClear. cbn. destruct (driftSystemRef _); cbn; lia.
  - destruct c; exact Hlen.
  - unfold onReplayingChange. destruct (isReplaying p); [exact Hlen |].
    destruct (_ <? _)%nat; [| exact Hlen]. now destruct (at_index _ _).
  - exact Hlen.
Qed.

Lemma run_replay_length (es : list Event) (g : Refs) :
  (length (replayDataRef g) <= REPLAY_MAX_FRAMES)%nat ->
  (length (replayDataRef (run es g)) <= REPLAY_MAX_FRAMES)%nat.
Proof.
  revert g. induction es as [| e es IH]; intros g Hlen; [exact Hlen |].
  change (run (e :: es) g) with (run es (handle g e)).
  apply IH, handle_replay_length, Hlen.
Qed.

(** A live tick records the car it has just computed. *)
Lemma live_tick_records (g : Refs) (e : Event) :
  live_tick e ->
  replayDataRef (handle g e)
  = push_capped (carRef (handle g e)) (replayDataRef g).
Proof.
  subst handle.
  destruct e as [p z w h | | | |]; cbn [live_tick]; try contradiction.
  intros Hlive. cbn [GameCanvas.handle].
  rewrite updatePhysics_live by exact Hlive.
  now rewrite liveTick_replayDataRef, liveTick_carRef.
Qed.

Lemma run_live_records (es : list Event) (g : Refs) :
  Forall live_tick es ->
  replayDataRef (run es g)
  = fold_left (fun a v => push_capped v a) (map carRef (history es g))
      (replayDataRef g).
Proof.
  intros Hes. revert g.
  induction Hes as [| e es He _ IH]; intros g; [reflexivity |].
  change (run (e :: es) g) with (run es (handle g e)).
  change (history (e :: es) g)
    with (handle g e :: history es (handle g e)).
  cbn [fold_left map]. now rewrite IH, live_tick_records.
Qed.

Lemma history_length (es : list Event) (g : Refs) :
  length (history es g) = length es.
Proof.
  subst history. revert g.
  induction es as [| e es IH]; intros g; cbn [GameCanvas.history length];
    [| rewrite IH]; reflexivity.
Qed.

(** The [k]-th entry of the history is the state after the first [k + 1]
    events. *)
Lemma history_nth (es : list Event) (g : Refs) (k : nat) :
  (k < length es)%nat ->
  nth_error (history es g) k = Some (run (firstn (S k) es) g).
Proof.
  subst history run. revert g k.
  induction es as [| e es IH]; intros g k Hk; [cbn in Hk; lia |].
  destruct k as [| k]; cbn [GameCanvas.history nth_error].
  - destruct es; reflexivity.
  - cbn [length] in Hk. rewrite IH by lia. reflexivity.
Qed.

End ReplayBuffer.

(** C6.  From the initial refs, whatever happens (ticks, resets, replay
    controls), the replay buffer never holds more than 1800 states.  After
    exactly 1801 live ticks from an empty buffer it holds 1800 states and
    its first element is the car recorded by the second tick: the first
    one was dropped from the front. *)
Theorem replay_buffer_capped
    (Math_cos Math_sin : Q -> Q) (es : list GameCanvas.Event)
    (g : GameCanvas.Refs) :
  (length (GameCanvas.replayDataRef
             (GameCanvas.run Math_cos Math_sin es GameCanvas.initial_refs))
   <= 1800)%nat
  /\ (GameCanvas.replayDataRef g = [] ->
      Forall live_tick es ->
      length es = 1801%nat ->
      let g' := GameCanvas.run Math_cos Math_sin es g in
      length (GameCanvas.replayDataRef g') = 1800%nat
      /\ nth_error (GameCanvas.replayDataRef g') 0
         = Some (GameCanvas.carRef
                   (GameCanvas.run Math_cos Math_sin (firstn 2 es) g))).
Proof.
  split.
  - apply run_replay_length. cbn. lia.
  - intros Hempty Hlive Hlen g'. subst g'.
    rewrite (run_live_records Math_cos Math_sin es g Hlive), Hempty.
    rewrite push_capped_all, length_map, history_length, Hlen.
    change GameCanvas.REPLAY_MAX_FRAMES with 1800%nat.
    replace (1801 - 1800)%nat with 1%nat by lia.
    split.
    + rewrite length_skipn, length_map, history_length, Hlen. lia.
    + rewrite nth_error_skipn. cbn [Nat.add].
      rewrite nth_error_map, (history_nth Math_cos Math_sin es g 1) by lia.
      reflexivity.
Qed.

Lemma replay_buffer_capped_witness :
  let es :=
    repeat (GameCanvas.Tick (sample_props throttle_only false) 1 390 844)
      1801 in
  let g' := GameCanvas.run poly_cos poly_sin es GameCanvas.initial_refs in
  length (GameCanvas.replayDataRef g') = 1800%nat
  /\ nth_error (GameCanvas.replayDataRef g') 0
     = Some (GameCanvas.carRef
               (GameCanvas.run poly_cos poly_sin (firstn 2 es)
                  GameCanvas.initial_refs)).
Proof.
  intros es.
  apply (proj2 (replay_buffer_capped poly_cos poly_sin es
                  GameCanvas.initial_refs)).
  - reflexivity.
  - apply Forall_forall. intros e He. apply repeat_spec in He. subst e.
    reflexivity.
  - apply repeat_length.
Defined.

(** ** GameCanvas: replay playback *)

Section ReplayPlayback.

Import GameCanvas.

(** The playhead after a replay tick. *)
Lemma replayTick_index (g : Refs) :
  replayDataRef g <> [] ->
  let st := replayStateRef g in
  let total := inject_Z (Z.of_nat (length (replayDataRef g))) in
  Replay.index (replayStateRef (replayTick g))
  = if Replay.isPlaying st
    then if JS.geb (Replay.index st + Replay.speed st) total
         then 0
         else Replay.index st + Replay.speed st
    else Replay.index st.
Proof.
  intros Hne. unfold replayTick.
  destruct (replayDataRef g) as [| c0 buf] eqn:Hbuf; [contradiction |].
  cbn [length Nat.eqb].
  destruct (Replay.isPlaying (replayStateRef g)); cbn;
    repeat match goal with
           | |- context [if ?c then _ else _] => destruct c; cbn
           | |- context [match ?c with Some _ => _ | None => _ end] =>
               destruct c; cbn
           end; reflexivity.
Qed.

(** The car shown after a replay tick is the buffer entry under the
    playhead, when there is one. *)
Lemma replayTick_shows (g : Refs) (c : CarState) :
  replayDataRef g <> [] ->
  at_index (replayDataRef g)
    (Qfloor (Replay.index (replayStateRef (replayTick g)))) = Some c ->
  carRef (replayTick g) = c.
Proof.
  intros Hne. unfold replayTick.
  destruct (replayDataRef g) as [| c0 buf] eqn:Hbuf; [contradiction |].
  cbn [length Nat.eqb].
  destruct (Replay.isPlaying (replayStateRef g)); cbn;
    repeat match goal with
           | |- context [if JS.geb ?a ?b then _ else _] =>
               destruct (JS.geb a b); cbn
           | |- context [if JS.gtb ?a ?b then _ else _] =>
               destruct (JS.gtb a b); cbn
           end;
    rewrite ?Hbuf; intros Hat; rewrite ?Hat; cbn; congruence.
Qed.

Lemma at_index_in_range {A : Type} (a : list A) (i : Q) :
  0 <= i -> i < inject_Z (Z.of_nat (length a)) ->
  exists v, at_index a (Qfloor i) = Some v.
Proof.
  intros H0 Hlt. unfold at_index.
  assert (H0' : (0 <= Qfloor i)%Z).
  { change 0%Z with (Qfloor 0). now apply Qfloor_resp_le. }
  assert (Hlt' : (Qfloor i < Z.of_nat (length a))%Z).
  { apply Z.lt_nge. intros Hge. rewrite Zle_Qle in Hge.
    pose proof (Qfloor_le i). lra. }
  destruct (Z.ltb_spec (Qfloor i) 0); [lia |].
  destruct (nth_error a (Z.to_nat (Qfloor i))) as [v |] eqn:Hnth;
    [now exists v |].
  apply nth_error_None in Hnth. lia.
Qed.

End ReplayPlayback.

(** C7.  A tick in replay mode leaves the buffer as it is.  On a
    non-empty buffer, while playing it moves the playhead to
    [index + speed], or to 0 when that reaches or exceeds the buffer length;
    while paused it leaves the playhead where it is.  In both cases the car
    shown afterwards is the buffer entry at [floor(index)] of the playhead
    after the tick, whenever that entry exists, which it does when the
    playhead is not negative and below the length.  (On an empty buffer
    there is nothing to show and the tick changes nothing.) *)
Theorem replay_tick_playhead
    (Math_cos Math_sin : Q -> Q) (p : GameCanvas.Props)
    (effectiveZoom effectiveWidth effectiveHeight : Q) (g : GameCanvas.Refs) :
  GameCanvas.isReplaying p = true ->
  let st := GameCanvas.replayStateRef g in
  let buf := GameCanvas.replayDataRef g in
  let total := inject_Z (Z.of_nat (length buf)) in
  let g' := GameCanvas.updatePhysics Math_cos Math_sin p effectiveZoom
              effectiveWidth effectiveHeight g in
  let index' := Replay.index (GameCanvas.replayStateRef g') in
  GameCanvas.replayDataRef g' = buf
  /\ (buf = [] -> g' = g)
  /\ (buf <> [] ->
      (Replay.isPlaying st = true ->
       (Replay.index st + Replay.speed st < total ->
        index' = Replay.index st + Replay.speed st)
       /\ (total <= Replay.index st + Replay.speed st -> index' = 0)
       /\ (0 <= Replay.index st + Replay.speed st ->
           GameCanvas.at_index buf (Qfloor index')
           = Some (GameCanvas.carRef g')))
      /\ (Replay.isPlaying st = false ->
          index' = Replay.index st
          /\ (0 <= Replay.index st -> Replay.index st < total ->
              GameCanvas.at_index buf (Qfloor (Replay.index st))
              = Some (GameCanvas.carRef g')))
      /\ (forall c,
            GameCanvas.at_index buf (Qfloor index') = Some c ->
            GameCanvas.carRef g' = c)).
Proof.
  intros Hreplay st buf total g' index'.
  assert (Hg' : g' = GameCanvas.replayTick g).
  { subst g'. unfold GameCanvas.updatePhysics. now rewrite Hreplay. }
  split; [rewrite Hg'; apply replayTick_replayDataRef |].
  split.
  { intros Hempty. rewrite Hg'. unfold GameCanvas.replayTick.
    fold buf. now rewrite Hempty. }
  intros Hne.
  assert (Hshow : forall c,
             GameCanvas.at_index buf (Qfloor index') = Some c ->
             GameCanvas.carRef g' = c).
  { intros c. subst index'. rewrite Hg'. now apply replayTick_shows. }
  assert (Hin : 0 <= index' -> index' < total ->
                GameCanvas.at_index buf (Qfloor index')
                = Some (GameCanvas.carRef g')).
  { intros H0 Hlt.
    destruct (at_index_in_range buf index' H0 Hlt) as [c Hc].
    now rewrite (Hshow c Hc). }
  assert (Htotal : 0 < total).
  { subst total buf. destruct (GameCanvas.replayDataRef g); [contradiction |].
    cbn [length]. rewrite Nat2Z.inj_succ.
    change 0 with (inject_Z 0). rewrite <- Zlt_Qlt. lia. }
  pose proof (replayTick_index g Hne) as Hidx. cbv zeta in Hidx.
  fold st buf total in Hidx. rewrite <- Hg' in Hidx. fold index' in Hidx.
  split; [| split; [| exact Hshow]].
  - intros Hplay. rewrite Hplay in Hidx.
    destruct (JS.geb _ _) eqn:Hge.
    + apply geb_true in Hge. split; [intros Hlt; lra |].
      split; [intros _; exact Hidx |].
      intros _. apply Hin; rewrite Hidx; [apply Qle_refl | exact Htotal].
    + apply geb_false in Hge. split; [intros _; exact Hidx |].
      split; [intros Hle; lra |].
      intros H0. apply Hin; rewrite Hidx; assumption.
  - intros Hpause. rewrite Hpause in Hidx. split; [exact Hidx |].
    intros H0 Hlt. rewrite <- Hidx. apply Hin; rewrite Hidx; assumption.
Qed.

Lemma replay_tick_playhead_witness :
  let g := sample_replay true in
  let g' := GameCanvas.updatePhysics poly_cos poly_sin
              (sample_props throttle_only true) 1 390 844 g in
  Replay.index (GameCanvas.replayStateRef g') == 3 # 2
  /\ GameCanvas.carRef g' = car_at 2 0
  /\ (forall c,
        GameCanvas.at_index (GameCanvas.replayDataRef g)
          (Qfloor (Replay.index (GameCanvas.replayStateRef g'))) = Some c ->
        GameCanvas.carRef g' = c).
Proof.
  intros g g'. split; [reflexivity |]. split; [reflexivity |].
  refine (proj2 (proj2 (proj2 (proj2
            (replay_tick_playhead poly_cos poly_sin
               (sample_props throttle_only true) 1 390 844 g _)) _))).
  - reflexivity.
  - discriminate.
Defined.

(** ** GameCanvas: the ghost run *)

Section GhostRun.

Import GameCanvas.

Variables Math_cos Math_sin : Q -> Q.

Lemma handleClear_ghostRunRef (p : Props) (g : Refs) :
  ghostRunRef (handleClear p g) = ghost_after_reset g.
Proof.
  unfold handleClear, ghost_after_reset.
  destruct (currentRunRef g) as [| f fs] eqn:Hrun; cbn [length Nat.ltb Nat.leb].
  - cbn. now destruct (driftSystemRef g).
  - destruct (ghostRunRef g) as [stored |] eqn:Hghost.
    + destruct (JS.gtb _ _); cbn; rewrite ?Hrun, ?Hghost;
        now destruct (driftSystemRef g).
    + cbn. rewrite ?Hrun. now destruct (driftSystemRef g).
Qed.

(** Only a reset changes the stored ghost. *)
Lemma handle_ghostRunRef (g : Refs) (e : Event) :
  (forall p, e <> GameResetTracks p) ->
  ghostRunRef (handle Math_cos Math_sin g e) = ghostRunRef g.
Proof.
  intros Hno. destruct e as [p z w h | p | c | p | url]; cbn [handle].
  - unfold updatePhysics. destruct (isReplaying p).
    + apply replayTick_ghostRunRef.
    + apply liveTick_ghostRunRef.
  - now contradiction (Hno p).
  - now destruct c.
  - unfold onReplayingChange. destruct (isReplaying p); [reflexivity |].
    destruct (_ <? _)%nat; [| reflexivity]. now destruct (at_index _ _).
  - reflexivity.
Qed.

(** The banked score read at reset time is the total of the scoring
    machine at that time. *)
Lemma bankedScore_totalScore (g : Refs) (sys : DriftSystem.t) :
  driftSystemRef g = Some sys ->
  DriftSystem.lastState_set sys = true ->
  bankedScore g
  = DriftScoring.totalScore (DriftScoring.state (DriftSystem.scoring sys)).
Proof.
  intros Hsys Hset. unfold bankedScore, DriftSystem.lastState.
  now rewrite Hsys, Hset.
Qed.

(** Two resets in a row, the second on refs that still hold the ghost
    left by the first. *)
Lemma two_resets (p1 p2 : Props) (g1 g2 : Refs) (a b : Q) :
  currentRunRef g1 <> [] -> currentRunRef g2 <> [] ->
  ghostRunRef g1 = None ->
  ghostRunRef g2 = ghostRunRef (handleClear p1 g1) ->
  bankedScore g1 == a -> bankedScore g2 == b ->
  exists s, ghost_score (handleClear p2 g2) = Some s /\ s == Qmax a b.
Proof.
  intros Hrun1 Hrun2 Hnone Hkeep Ha Hb.
  unfold ghost_score. rewrite handleClear_ghostRunRef in *.
  unfold ghost_after_reset in *.
  destruct (currentRunRef g1) as [| f1 fs1]; [contradiction |].
  destruct (currentRunRef g2) as [| f2 fs2]; [contradiction |].
  rewrite Hnone in Hkeep. rewrite Hkeep. cbn [Ghost.totalScore].
  destruct (JS.gtb _ _) eqn:Hgt; cbn [option_map Ghost.totalScore];
    eexists; (split; [reflexivity |]).
  - apply gtb_true in Hgt. rewrite Hb. rewrite Ha, Hb in Hgt.
    symmetry. apply Q.max_r. lra.
  - apply gtb_false in Hgt. rewrite Ha. rewrite Ha, Hb in Hgt.
    symmetry. apply Q.max_l. lra.
Qed.

End GhostRun.

(** C8.  On a reset the stored ghost becomes the current run, with the
    score banked by the scoring machine at that time, exactly when the
    current run has a frame and either no ghost is stored or the banked
    score is strictly greater than the stored ghost's; otherwise it stays.
    Hence after a run banking 100 and then one banking 150 the stored score
    is 150, and after 150 then 100 it is still 150. *)
Theorem ghost_replaced_by_strictly_better_run
    (p : GameCanvas.Props) (g : GameCanvas.Refs) :
  GameCanvas.currentRunRef g <> [] ->
  let score := GameCanvas.bankedScore g in
  let current := Ghost.mkGhostRun (GameCanvas.currentRunRef g) score in
  let g' := GameCanvas.handleClear p g in
  (forall sys,
     GameCanvas.driftSystemRef g = Some sys ->
     DriftSystem.lastState_set sys = true ->
     score = DriftScoring.totalScore
               (DriftScoring.state (DriftSystem.scoring sys)))
  /\ (GameCanvas.ghostRunRef g = None ->
      GameCanvas.ghostRunRef g' = Some current)
  /\ (forall stored,
        GameCanvas.ghostRunRef g = Some stored ->
        (Ghost.totalScore stored < score ->
         GameCanvas.ghostRunRef g' = Some current)
        /\ (score <= Ghost.totalScore stored ->
            GameCanvas.ghostRunRef g' = Some stored))
  /\ GameCanvas.currentRunRef g' = []
  /\ (forall p2 g2,
        GameCanvas.ghostRunRef g = None ->
        GameCanvas.currentRunRef g2 <> [] ->
        GameCanvas.ghostRunRef g2 = GameCanvas.ghostRunRef g' ->
        (score == 100 -> GameCanvas.bankedScore g2 == 150 ->
         exists s,
           ghost_score (GameCanvas.handleClear p2 g2) = Some s /\ s == 150)
        /\ (score == 150 -> GameCanvas.bankedScore g2 == 100 ->
            exists s,
              ghost_score (GameCanvas.handleClear p2 g2) = Some s
              /\ s == 150)).
Proof.
  intros Hrun score current g'.
  assert (Hg' : GameCanvas.ghostRunRef g' = ghost_after_reset g)
    by apply handleClear_ghostRunRef.
  split; [intros sys; apply bankedScore_totalScore |].
  split; [| split; [| split]].
  - intros Hnone. rewrite Hg'. unfold ghost_after_reset. rewrite Hnone.
    now destruct (GameCanvas.currentRunRef g).
  - intros stored Hstored. rewrite Hg'. unfold ghost_after_reset.
    rewrite Hstored. fold score.
    destruct (GameCanvas.currentRunRef g) eqn:Hfr; [contradiction |].
    split; intros Hcmp.
    + apply gtb_true in Hcmp. now rewrite Hcmp.
    + apply gtb_false in Hcmp. now rewrite Hcmp.
  - subst g'. unfold GameCanvas.handleClear. cbn.
    now destruct (GameCanvas.driftSystemRef _).
  - intros p2 g2 Hnone Hrun2 Hkeep. split; intros Ha Hb.
    + destruct (two_resets p p2 g g2 100 150 Hrun Hrun2 Hnone Hkeep Ha Hb)
        as (s & Hs & Hmax).
      exists s. split; [exact Hs |]. rewrite Hmax. reflexivity.
    + destruct (two_resets p p2 g g2 150 100 Hrun Hrun2 Hnone Hkeep Ha Hb)
        as (s & Hs & Hmax).
      exists s. split; [exact Hs |]. rewrite Hmax. reflexivity.
Qed.

Lemma ghost_replaced_by_strictly_better_run_witness :
  let p := sample_props throttle_only false in
  let g1 := run_end 100 None in
  let g2 :=
    run_end 150 (GameCanvas.ghostRunRef (GameCanvas.handleClear p g1)) in
  let g3 :=
    run_end 100 (GameCanvas.ghostRunRef (GameCanvas.handleClear p g2)) in
  ghost_score (GameCanvas.handleClear p g1) = Some 100
  /\ ghost_score (GameCanvas.handleClear p g2) = Some 150
  /\ ghost_score (GameCanvas.handleClear p g3) = Some 150
  /\ exists s, ghost_score (GameCanvas.handleClear p g2) = Some s /\ s == 150.
Proof.
  intros p g1 g2 g3.
  split; [reflexivity |]. split; [reflexivity |]. split; [reflexivity |].
  refine (proj1 (proj2 (proj2 (proj2 (proj2
            (ghost_replaced_by_strictly_better_run p g1 _)))) p g2 _ _ _) _ _);
    try reflexivity; discriminate.
Defined.

(** ** ClippingZoneDetector *)

Section Detector.

Import ClippingZoneDetector.

Variables Math_cos Math_sin : Q -> Q.

Lemma getPixel_loaded (d : t) (img : Image.t) (data : list Z) (pt : Point) :
  trackImage d = Some img -> imageData d = Some data ->
  getPixel d (x pt) (y pt)
  = if in_bounds img pt
    then
      let i := ((Qfloor (y pt) * Image.width img + Qfloor (x pt)) * 4)%Z in
      Some (mkRGB (byte_at data i) (byte_at data (i + 1))
              (byte_at data (i + 2)))
    else None.
Proof.
  intros Himg Hdata. unfold getPixel, in_bounds. rewrite Himg, Hdata.
  destruct (Z.ltb_spec (Qfloor (x pt)) 0), (Z.ltb_spec (Qfloor (y pt)) 0),
    (Z.leb_spec (Image.width img) (Qfloor (x pt))),
    (Z.leb_spec (Image.height img) (Qfloor (y pt))),
    (Z.leb_spec 0 (Qfloor (x pt))), (Z.leb_spec 0 (Qfloor (y pt))),
    (Z.ltb_spec (Qfloor (x pt)) (Image.width img)),
    (Z.ltb_spec (Qfloor (y pt)) (Image.height img));
    try lia; reflexivity.
Qed.








End Detector.



(** * Further properties *)

(** ** DriftScoring: the session fields *)

Section SessionFacts.

Import DriftScoring.

Lemma chain_combo_ge (dir : Q) (d : t) :
  1 <= combo (state d) -> 1 <= combo (state (chain dir d)).
Proof.
  intros H. unfold chain. destruct (_ && _); [cbn; lra | exact H].
Qed.

Lemma endDrift_shape (bank : bool) (d : t) : session_shape (endDrift bank d).
Proof.
  split; intros H.
  - destruct bank; split; reflexivity.
  - destruct bank; discriminate H.
Qed.

Lemma update_shape (car : CarState) (m dt : Q) (d : t) :
  session_shape d -> session_shape (update car m dt d).
Proof.
  intros Hd. unfold update.
  set (d0 := with_state (set_isInClippingZone (JS.gtb m 1)) d).
  assert (Hd0 : session_shape d0) by exact Hd.
  clearbody d0. clear d Hd.
  destruct (JS.ltb _ _).
  - destruct (isDrifting (state d0) || JS.gtb (currentScore (state d0)) 0);
      [apply endDrift_shape | exact Hd0].
  - destruct (JS.geb _ _).
    + split; cbn; rewrite chain_isDrifting.
      * destruct (isDrifting (state d0)) eqn:Hdr; cbn; rewrite ?Hdr;
          intros H; discriminate H.
      * intros _. apply chain_combo_ge.
        destruct (isDrifting (state d0)) eqn:Hdr; cbn.
        -- now apply (proj2 Hd0).
        -- lra.
    + destruct (isDrifting (state d0)) eqn:Hdr; [| exact Hd0].
      destruct (JS.leb _ _); [apply endDrift_shape |].
      split; cbn; rewrite Hdr; [discriminate |].
      intros _. now apply (proj2 Hd0).
Qed.

Lemma run_shape (cs : list call) (d : t) :
  session_shape d -> session_shape (run cs d).
Proof.
  revert d. induction cs as [| c cs IH]; intros d Hd; [exact Hd |].
  apply IH. destruct c as [car m dt | bank |]; cbn [perform].
  - now apply update_shape.
  - apply endDrift_shape.
  - split; intros H; [split; reflexivity | discriminate H].
Qed.

Lemma whole_plus_floor (q x : Q) : whole q -> whole (q + JS.floor x).
Proof.
  intros [z Hz]. exists (z + Qfloor x)%Z.
  unfold JS.floor. now rewrite Hz, inject_Z_plus.
Qed.

Lemma endDrift_whole (bank : bool) (d : t) :
  whole (totalScore (state d)) ->
  whole (totalScore (state (endDrift bank d))).
Proof.
  intros H. destruct bank; cbn; [now apply whole_plus_floor | exact H].
Qed.

Lemma update_whole (car : CarState) (m dt : Q) (d : t) :
  whole (totalScore (state d)) ->
  whole (totalScore (state (update car m dt d))).
Proof.
  intros H. unfold update.
  set (d0 := with_state (set_isInClippingZone (JS.gtb m 1)) d).
  assert (H0 : whole (totalScore (state d0))) by exact H.
  clearbody d0. clear d H.
  destruct (JS.ltb _ _).
  - destruct (_ || _); [now apply endDrift_whole | exact H0].
  - destruct (JS.geb _ _).
    + cbn. rewrite chain_totalScore.
      now destruct (isDrifting (state d0)).
    + destruct (isDrifting (state d0)); [| exact H0].
      destruct (JS.leb _ _); [now apply endDrift_whole | exact H0].
Qed.

Lemma run_whole (cs : list call) (d : t) :
  whole (totalScore (state d)) -> whole (totalScore (state (run cs d))).
Proof.
  revert d. induction cs as [| c cs IH]; intros d Hd; [exact Hd |].
  apply IH. destruct c as [car m dt | bank |]; cbn [perform].
  - now apply update_whole.
  - now apply endDrift_whole.
  - exists 0%Z. reflexivity.
Qed.

End SessionFacts.

(** X1.  In every state reached from a new machine by calls to [update],
    [endDrift] and [resetTotal], an idle machine has combo 0 and no
    recorded drift direction, and a drifting machine has a combo of at
    least 1. *)
Theorem session_fields_shape
    (c : DriftScoring.PartialConfig) (cs : list DriftScoring.call) :
  let d := DriftScoring.run cs (DriftScoring.new c) in
  (DriftScoring.isDrifting (DriftScoring.state d) = false ->
   DriftScoring.combo (DriftScoring.state d) == 0
   /\ DriftScoring.lastDriftDir d == 0)
  /\ (DriftScoring.isDrifting (DriftScoring.state d) = true ->
      1 <= DriftScoring.combo (DriftScoring.state d)).
Proof.
  cbv zeta. apply run_shape.
  split; intros H; [split; reflexivity | discriminate H].
Qed.

(** X2.  [totalScore] is a whole number in every state reached from a new
    machine, whatever the configuration and the arguments of the calls:
    only floored scores are ever added to it. *)
Theorem totalScore_whole
    (c : DriftScoring.PartialConfig) (cs : list DriftScoring.call) :
  exists z : Z,
    DriftScoring.totalScore
      (DriftScoring.state (DriftScoring.run cs (DriftScoring.new c)))
    == inject_Z z.
Proof. apply run_whole. exists 0%Z. reflexivity. Qed.

(** ** DriftScoring: the combo timer *)

Section ComboTimer.

Import DriftScoring.





End ComboTimer.



(** ** DriftScoring: the score of a session *)

Section SessionScore.

Import DriftScoring.

Lemma chain_config (dir : Q) (d : t) : config (chain dir d) = config d.
Proof. unfold chain. now destruct (_ && _). Qed.

Lemma chain_currentScore_ge (dir : Q) (d : t) :
  1 <= combo (state d) ->
  currentScore (state d) <= currentScore (state (chain dir d)).
Proof.
  intros H. unfold chain. destruct (_ && _); cbn; lra.
Qed.

(** With multipliers of at least 1 the points of a tick are at least the
    base rate times the duration of the tick. *)
Lemma points_at_least_base (base m comboV bonus bonusAngle dt : Q) :
  0 <= base -> 1 <= m -> 1 <= comboV -> 0 <= bonus -> 1 <= bonusAngle ->
  0 <= dt ->
  base * dt <= base * m * (1 + (comboV - 1) * bonus) * bonusAngle * dt.
Proof.
  intros Hbase Hm Hcombo Hbonus Hangle Hdt.
  assert (H0 : 0 <= (comboV - 1) * bonus) by (apply Qmult_le_0_compat; lra).
  assert (H1 : base <= base * m) by nra.
  assert (H2 : base * m <= base * m * (1 + (comboV - 1) * bonus)) by nra.
  assert (H3 : base * m * (1 + (comboV - 1) * bonus)
               <= base * m * (1 + (comboV - 1) * bonus) * bonusAngle) by nra.
  assert (H4 : base <= base * m * (1 + (comboV - 1) * bonus) * bonusAngle)
    by lra.
  nra.
Qed.

Lemma update_session_score (car : CarState) (m dt : Q) (d : t) :
  0 <= dt -> 1 <= m -> scores_ok d ->
  isDrifting (state d) = true ->
  let d' := update car m dt d in
  (isDrifting (state d') = true ->
   currentScore (state d) <= currentScore (state d'))
  /\ (minSpeed (config d) <= JS.abs (speed car) ->
      minDriftAngle (config d) <= angleDeg (driftAngle car) ->
      currentScore (state d) + basePointsPerSecond (config d) * dt
      <= currentScore (state d')).
Proof.
  intros Hdt Hm [Hb Hc Hcur Htot Hcombo] Hdr. specialize (Hcombo Hdr).
  cbv zeta. unfold update. cbn [with_state state config set_isInClippingZone
    isDrifting currentScore minSpeed minDriftAngle].
  rewrite Hdr. cbn [negb orb].
  set (d0 := with_state (set_isInClippingZone (JS.gtb m 1)) d).
  assert (Hdrift :
    let d2 := chain (JS.sign (driftAngle car)) d0 in
    currentScore (state d) + basePointsPerSecond (config d) * dt
    <= currentScore (state d2)
       + basePointsPerSecond (config d2) * m
         * (1 + (combo (state d2) - 1) * comboBonus (config d2))
         * JS.max 1 (angleDeg (driftAngle car) / 30) * dt).
  { cbv zeta.
    pose proof (chain_currentScore_ge (JS.sign (driftAngle car)) d0 Hcombo)
      as Hge.
    pose proof (chain_combo_ge (JS.sign (driftAngle car)) d0 Hcombo) as Hcg.
    rewrite chain_config in *.
    pose proof (points_at_least_base (basePointsPerSecond (config d0)) m
                  (combo (state (chain (JS.sign (driftAngle car)) d0)))
                  (comboBonus (config d0))
                  (JS.max 1 (angleDeg (driftAngle car) / 30)) dt
                  Hb Hm Hcg Hc (max_ge_1 _) Hdt) as Hpts.
    change (currentScore (state d0)) with (currentScore (state d)) in Hge.
    change (config d0) with (config d) in *. lra. }
  destruct (JS.ltb _ _) eqn:Hslow.
  - split; [intros H; discriminate H |].
    intros Hfast _. apply ltb_true in Hslow. lra.
  - destruct (JS.geb _ _) eqn:Hangle.
    + cbn. cbv zeta in Hdrift.
      assert (0 <= basePointsPerSecond (config d) * dt)
        by (apply Qmult_le_0_compat; assumption).
      split; intros; lra.
    + apply geb_false in Hangle.
      split; [| intros _ Hge; lra].
      destruct (JS.leb _ _); cbn; [intros H; discriminate H |].
      intros _. apply Qle_refl.
Qed.

End SessionScore.

(** X4.  For a machine with a non-negative point rate and combo bonus, and
    calls with [deltaTime >= 0] and clipping multiplier [>= 1]: an [update]
    of a drifting machine that leaves it drifting never lowers
    [currentScore], and one whose car satisfies the speed and drift angle
    conditions adds at least [basePointsPerSecond * deltaTime] to it. *)
Theorem session_score_grows
    (c : DriftScoring.PartialConfig) (cs : list DriftScoring.call)
    (carState : CarState) (clippingMultiplier deltaTime : Q) :
  let d0 := DriftScoring.new c in
  0 <= DriftScoring.basePointsPerSecond (DriftScoring.config d0) ->
  0 <= DriftScoring.comboBonus (DriftScoring.config d0) ->
  Forall valid_call cs ->
  0 <= deltaTime -> 1 <= clippingMultiplier ->
  let d := DriftScoring.run cs d0 in
  let d' := DriftScoring.update carState clippingMultiplier deltaTime d in
  let score x := DriftScoring.currentScore (DriftScoring.state x) in
  DriftScoring.isDrifting (DriftScoring.state d) = true ->
  (DriftScoring.isDrifting (DriftScoring.state d') = true ->
   score d <= score d')
  /\ (DriftScoring.minSpeed (DriftScoring.config d) <= JS.abs (speed carState) ->
      DriftScoring.minDriftAngle (DriftScoring.config d)
      <= DriftScoring.angleDeg (driftAngle carState) ->
      score d
      + DriftScoring.basePointsPerSecond (DriftScoring.config d) * deltaTime
      <= score d').
Proof.
  intros d0 Hb Hc Hcs Hdt Hm d d' score Hdr.
  apply update_session_score; try assumption.
  apply run_scores_ok, new_scores_ok; assumption.
Qed.

Lemma session_score_grows_witness :
  let d := DriftScoring.run [DriftScoring.Update (car_at 4 20) 1 1]
             (DriftScoring.new DriftScoring.empty_config) in
  let d' := DriftScoring.update (car_at 4 (-20)) 1 (1 # 60) d in
  let score x := DriftScoring.currentScore (DriftScoring.state x) in
  (DriftScoring.isDrifting (DriftScoring.state d') = true ->
   score d <= score d')
  /\ (DriftScoring.minSpeed (DriftScoring.config d)
      <= JS.abs (speed (car_at 4 (-20))) ->
      DriftScoring.minDriftAngle (DriftScoring.config d)
      <= DriftScoring.angleDeg (driftAngle (car_at 4 (-20))) ->
      score d
      + DriftScoring.basePointsPerSecond (DriftScoring.config d) * (1 # 60)
      <= score d').
Proof.
  apply (session_score_grows DriftScoring.empty_config
           [DriftScoring.Update (car_at 4 20) 1 1] (car_at 4 (-20)) 1
           (1 # 60)).
  - vm_compute. discriminate.
  - vm_compute. discriminate.
  - repeat constructor; vm_compute; discriminate.
  - vm_compute. discriminate.
  - vm_compute. discriminate.
  - reflexivity.
Defined.

(** ** ClippingZoneDetector: reading pixels *)

Section PixelFacts.

Import ClippingZoneDetector.

Lemma byte_at_defined (data : list Z) (i : Z) :
  (0 <= i < Z.of_nat (length data))%Z ->
  exists v, nth_error data (Z.to_nat i) = Some v
            /\ byte_at data i = Some (inject_Z v).
Proof.
  intros Hi. unfold byte_at.
  destruct (Z.ltb_spec i 0); [lia |].
  destruct (nth_error data (Z.to_nat i)) as [v |] eqn:Hnth.
  - exists v. split; reflexivity.
  - apply nth_error_None in Hnth. lia.
Qed.

Lemma in_bounds_offset (img : Image.t) (data : list Z) (pt : Point) :
  well_sized img data -> in_bounds img pt = true ->
  (0 <= pixel_offset img pt)%Z
  /\ (pixel_offset img pt + 2 < Z.of_nat (length data))%Z.
Proof.
  intros (Hw & Hh & Hlen) Hin. unfold in_bounds in Hin.
  repeat rewrite andb_true_iff in Hin.
  destruct Hin as (((Hx0 & Hy0) & Hx1) & Hy1).
  apply Z.leb_le in Hx0, Hy0. apply Z.ltb_lt in Hx1, Hy1.
  unfold pixel_offset. rewrite Hlen. nia.
Qed.

End PixelFacts.

(** X5.  With a loaded image whose pixel data has four bytes per pixel,
    [getPixel] returns [null] exactly for the points outside the image, and
    for a point inside it returns the three bytes stored at the pixel's
    offset: the reads never fall outside the data, so no channel is
    undefined. *)
Theorem getPixel_reads_inside
    (d : ClippingZoneDetector.t) (img : Image.t) (data : list Z)
    (pt : ClippingZoneDetector.Point) :
  ClippingZoneDetector.trackImage d = Some img ->
  ClippingZoneDetector.imageData d = Some data ->
  well_sized img data ->
  let pixel :=
    ClippingZoneDetector.getPixel d (ClippingZoneDetector.x pt)
      (ClippingZoneDetector.y pt) in
  (in_bounds img pt = false -> pixel = None)
  /\ (in_bounds img pt = true ->
      exists r g b,
        nth_error data (Z.to_nat (pixel_offset img pt)) = Some r
        /\ nth_error data (Z.to_nat (pixel_offset img pt + 1)) = Some g
        /\ nth_error data (Z.to_nat (pixel_offset img pt + 2)) = Some b
        /\ pixel
           = Some (ClippingZoneDetector.mkRGB (Some (inject_Z r))
                     (Some (inject_Z g)) (Some (inject_Z b)))).
Proof.
  intros Himg Hdata Hsize pixel. subst pixel.
  rewrite (getPixel_loaded d img data pt Himg Hdata).
  split; intros Hin; rewrite Hin; [reflexivity |].
  destruct (in_bounds_offset img data pt Hsize Hin) as [H0 H2].
  cbv zeta. fold (pixel_offset img pt).
  destruct (byte_at_defined data (pixel_offset img pt)) as (r & Hr & Hbr);
    [lia |].
  destruct (byte_at_defined data (pixel_offset img pt + 1)) as (g & Hg & Hbg);
    [lia |].
  destruct (byte_at_defined data (pixel_offset img pt + 2)) as (b & Hb & Hbb);
    [lia |].
  exists r, g, b. rewrite Hbr, Hbg, Hbb. now repeat split.
Qed.

Lemma getPixel_reads_inside_witness :
  let pt := ClippingZoneDetector.mkPoint (3 # 2) (1 # 2) in
  let pixel := ClippingZoneDetector.getPixel sample_detector (3 # 2) (1 # 2) in
  (in_bounds (Image.mk 2 2) pt = false -> pixel = None)
  /\ (in_bounds (Image.mk 2 2) pt = true ->
      exists r g b,
        nth_error
          [255; 255; 255; 255; 0; 0; 0; 255;
           255; 255; 255; 255; 0; 0; 0; 255]%Z
          (Z.to_nat (pixel_offset (Image.mk 2 2) pt)) = Some r
        /\ nth_error
             [255; 255; 255; 255; 0; 0; 0; 255;
              255; 255; 255; 255; 0; 0; 0; 255]%Z
             (Z.to_nat (pixel_offset (Image.mk 2 2) pt + 1)) = Some g
        /\ nth_error
             [255; 255; 255; 255; 0; 0; 0; 255;
              255; 255; 255; 255; 0; 0; 0; 255]%Z
             (Z.to_nat (pixel_offset (Image.mk 2 2) pt + 2)) = Some b
        /\ pixel
           = Some (ClippingZoneDetector.mkRGB (Some (inject_Z r))
                     (Some (inject_Z g)) (Some (inject_Z b)))).
Proof.
  apply (getPixel_reads_inside sample_detector (Image.mk 2 2)
           [255; 255; 255; 255; 0; 0; 0; 255;
            255; 255; 255; 255; 0; 0; 0; 255]%Z
           (ClippingZoneDetector.mkPoint (3 # 2) (1 # 2))).
  - reflexivity.
  - reflexivity.
  - repeat split; vm_compute; discriminate.
Defined.

(** ** ClippingZoneDetector: the default target colour *)

Section ColourFacts.

Import ClippingZoneDetector.

(** A byte is within 50 of 255 exactly from 205 on. *)
Lemma channel_close_white (v : Z) :
  (0 <= v <= 255)%Z ->
  channel_close (Some (inject_Z v)) 255 50 = (205 <=? v)%Z.
Proof.
  intros Hv. unfold channel_close.
  assert (Hq : inject_Z v - 255 == inject_Z (v - 255)).
  { unfold Z.sub. rewrite inject_Z_plus, inject_Z_opp. reflexivity. }
  destruct (Z.leb_spec 205 v) as [Hge | Hlt].
  - apply leb_true. unfold JS.abs. rewrite Hq.
    apply Qabs_Qle_condition. split.
    + change (- (50)) with (inject_Z (-50)). rewrite <- Zle_Qle. lia.
    + change 50 with (inject_Z 50). rewrite <- Zle_Qle. lia.
  - apply leb_false. unfold JS.abs. rewrite Hq.
    rewrite Qabs_neg.
    + rewrite <- inject_Z_opp. change 50 with (inject_Z 50).
      rewrite <- Zlt_Qlt. lia.
    + change 0 with (inject_Z 0). rewrite <- Zle_Qle. lia.
Qed.

End ColourFacts.

(** X6.  A detector built without options takes a pixel for the clipping
    colour exactly when each of its red, green and blue bytes is at least
    205 (white within the tolerance 50). *)
Theorem default_clipping_colour (r g b : Z) :
  (0 <= r <= 255)%Z -> (0 <= g <= 255)%Z -> (0 <= b <= 255)%Z ->
  ClippingZoneDetector.isClippingZoneColor
    (ClippingZoneDetector.new ClippingZoneDetector.empty_config)
    (Some (inject_Z r)) (Some (inject_Z g)) (Some (inject_Z b))
  = (205 <=? r)%Z && (205 <=? g)%Z && (205 <=? b)%Z.
Proof.
  intros Hr Hg Hb. unfold ClippingZoneDetector.isClippingZoneColor.
  cbn [ClippingZoneDetector.new ClippingZoneDetector.config
       ClippingZoneDetector.clippingColor ClippingZoneDetector.colorTolerance
       ClippingZoneDetector.empty_config
       ClippingZoneDetector.p_clippingColor
       ClippingZoneDetector.p_colorTolerance JS.or_default
       ClippingZoneDetector.r ClippingZoneDetector.g ClippingZoneDetector.b].
  now rewrite !channel_close_white.
Qed.

Lemma default_clipping_colour_witness :
  ClippingZoneDetector.isClippingZoneColor
    (ClippingZoneDetector.new ClippingZoneDetector.empty_config)
    (Some (inject_Z 230)) (Some (inject_Z 205)) (Some (inject_Z 255))
  = (205 <=? 230)%Z && (205 <=? 205)%Z && (205 <=? 255)%Z.
Proof.
  apply (default_clipping_colour 230 205 255); lia.
Defined.

(** ** The drift system: detector and scoring together *)

Section SystemFacts.

Variables Math_cos Math_sin : Q -> Q.

(** The detector answers 1.0 or its configured multiplier. *)
Lemma checkClippingZone_range (d : ClippingZoneDetector.t)
    (car : CarState) (w h : Q) :
  let m := ClippingZoneDetector.checkClippingZone Math_cos Math_sin d car w h in
  m = 1
  \/ m = ClippingZoneDetector.pointMultiplier (ClippingZoneDetector.config d).
Proof.
  cbv zeta. unfold ClippingZoneDetector.checkClippingZone.
  destruct (ClippingZoneDetector.trackImage d); [| now left].
  destruct (ClippingZoneDetector.imageData d); [| now left].
  destruct (_ || _); [now left |].
  destruct (fold_left _ _ _) as [hits total].
  destruct (_ && _); [now right | now left].
Qed.

Lemma created_system_ok
    (trackUrl : option ClippingZoneDetector.LoadOutcome) :
  system_ok (DriftSystem.createDriftSystem trackUrl).
Proof.
  split.
  - destruct trackUrl as [[img [data |] |] |]; reflexivity.
  - apply new_scores_ok; vm_compute; discriminate.
Qed.

Lemma system_update_ok (car : CarState) (w h dt : Q) (sys : DriftSystem.t) :
  0 <= dt -> system_ok sys ->
  let sys' := DriftSystem.update Math_cos Math_sin car w h dt sys in
  system_ok sys'
  /\ total_step (DriftSystem.scoring sys) (DriftSystem.scoring sys').
Proof.
  intros Hdt [Hpm Hok]. cbv zeta. unfold DriftSystem.update.
  cbn [DriftSystem.detector DriftSystem.scoring].
  assert (Hm : 1 <= ClippingZoneDetector.checkClippingZone Math_cos Math_sin
                      (DriftSystem.detector sys) car w h).
  { destruct (checkClippingZone_range (DriftSystem.detector sys) car w h)
      as [-> | ->]; [apply Qle_refl |].
    rewrite Hpm. vm_compute. discriminate. }
  destruct (update_scores_ok car _ dt (DriftSystem.scoring sys) Hdt Hm Hok)
    as [Hok' Hstep].
  split; [split; assumption | exact Hstep].
Qed.

Lemma liveTick_driftSystemRef (p : GameCanvas.Props) (w h : Q)
    (g : GameCanvas.Refs) :
  GameCanvas.driftSystemRef (GameCanvas.liveTick Math_cos Math_sin p w h g)
  = option_map
      (fun sys =>
         DriftSystem.set_lastState
           (DriftSystem.update Math_cos Math_sin
              (GameCanvas.liveCar Math_cos Math_sin p w h (GameCanvas.carRef g))
              (GameCanvas.mapW p w) (GameCanvas.mapH p h)
              (1 / GameCanvas.PHYSICS_FPS) sys))
      (GameCanvas.driftSystemRef g).
Proof.
  unfold GameCanvas.liveTick.
  destruct g as [[sys |] replayData replayState currentRun ghost car];
    reflexivity.
Qed.

Lemma replayTick_driftSystemRef (g : GameCanvas.Refs) :
  GameCanvas.driftSystemRef (GameCanvas.replayTick g)
  = GameCanvas.driftSystemRef g.
Proof.
  unfold GameCanvas.replayTick. destruct (_ =? _)%nat; [reflexivity |].
  now destruct (GameCanvas.at_index _ _).
Qed.

Lemma handleClear_driftSystemRef (p : GameCanvas.Props) (g : GameCanvas.Refs) :
  GameCanvas.driftSystemRef (GameCanvas.handleClear p g)
  = option_map DriftSystem.resetScore (GameCanvas.driftSystemRef g).
Proof.
  unfold GameCanvas.handleClear.
  destruct g as [[sys |] replayData replayState currentRun ghost car];
    cbn [GameCanvas.currentRunRef GameCanvas.ghostRunRef];
    (destruct (_ <? _)%nat;
     [destruct (match ghost with Some _ => _ | None => _ end) |]);
    reflexivity.
Qed.

Lemma onReplayingChange_driftSystemRef (p : GameCanvas.Props)
    (g : GameCanvas.Refs) :
  GameCanvas.driftSystemRef (GameCanvas.onReplayingChange p g)
  = GameCanvas.driftSystemRef g.
Proof.
  unfold GameCanvas.onReplayingChange.
  destruct (GameCanvas.isReplaying p); [reflexivity |].
  destruct (_ <? _)%nat; [| reflexivity].
  now destruct (GameCanvas.at_index _ _).
Qed.

Lemma handle_refs_ok (g : GameCanvas.Refs) (e : GameCanvas.Event) :
  refs_ok g -> refs_ok (GameCanvas.handle Math_cos Math_sin g e).
Proof.
  intros Hg. unfold refs_ok in *.
  destruct e as [p z w h | p | c | p | url]; cbn [GameCanvas.handle].
  - unfold GameCanvas.updatePhysics. destruct (GameCanvas.isReplaying p).
    + now rewrite replayTick_driftSystemRef.
    + rewrite liveTick_driftSystemRef.
      destruct (GameCanvas.driftSystemRef g) as [sys |]; [| exact I].
      cbn [option_map].
      apply (system_update_ok _ _ _ _ sys); [vm_compute; discriminate | exact Hg].
  - rewrite handleClear_driftSystemRef.
    destruct (GameCanvas.driftSystemRef g) as [sys |]; [| exact I].
    destruct Hg as [Hpm Hok]. split; [exact Hpm |].
    now apply resetTotal_scores_ok.
  - now destruct c.
  - now rewrite onReplayingChange_driftSystemRef.
  - apply created_system_ok.
Qed.

Lemma run_refs_ok (es : list GameCanvas.Event) (g : GameCanvas.Refs) :
  refs_ok g -> refs_ok (GameCanvas.run Math_cos Math_sin es g).
Proof.
  revert g. induction es as [| e es IH]; intros g Hg; [exact Hg |].
  apply IH, handle_refs_ok, Hg.
Qed.

Lemma handle_board_total (g : GameCanvas.Refs) (e : GameCanvas.Event) :
  refs_ok g -> keeps_score e ->
  board_total g <= board_total (GameCanvas.handle Math_cos Math_sin g e).
Proof.
  intros Hg He. unfold board_total, refs_ok in *.
  destruct e as [p z w h | p | c | p | url]; cbn [keeps_score] in He;
    try contradiction; cbn [GameCanvas.handle].
  - unfold GameCanvas.updatePhysics. destruct (GameCanvas.isReplaying p).
    + rewrite replayTick_driftSystemRef. apply Qle_refl.
    + rewrite liveTick_driftSystemRef.
      destruct (GameCanvas.driftSystemRef g) as [sys |]; [| apply Qle_refl].
      cbn [option_map].
      destruct (system_update_ok
                  (GameCanvas.liveCar Math_cos Math_sin p w h
                     (GameCanvas.carRef g))
                  (GameCanvas.mapW p w) (GameCanvas.mapH p h)
                  (1 / GameCanvas.PHYSICS_FPS) sys)
        as [_ Hstep]; [vm_compute; discriminate | exact Hg |].
      apply (total_step_le (DriftSystem.scoring sys)); [apply Hg | exact Hstep].
  - destruct c; apply Qle_refl.
  - rewrite onReplayingChange_driftSystemRef. apply Qle_refl.
Qed.

End SystemFacts.

(** X7.  In the game the banked total never goes down except by a reset or
    a change of track: from the initial refs, after any sequence of events,
    a further tick, replay control or change of the replay mode leaves the
    total of the score board where it was or raises it.  (The detector of
    [createDriftSystem] returns 1.0 or 2.5 and the tick lasts 1/60 s, which
    is what the scoring machine needs.) *)
Theorem board_total_non_decreasing
    (Math_cos Math_sin : Q -> Q) (es : list GameCanvas.Event)
    (e : GameCanvas.Event) :
  keeps_score e ->
  let g := GameCanvas.run Math_cos Math_sin es GameCanvas.initial_refs in
  board_total g <= board_total (GameCanvas.handle Math_cos Math_sin g e).
Proof.
  intros He g. apply handle_board_total; [| exact He].
  apply run_refs_ok. exact I.
Qed.

Lemma board_total_non_decreasing_witness :
  let e := GameCanvas.Tick (sample_props throttle_only false) 1 390 844 in
  let g :=
    GameCanvas.run poly_cos poly_sin
      [GameCanvas.DriftSystemCreated None; e] GameCanvas.initial_refs in
  board_total g <= board_total (GameCanvas.handle poly_cos poly_sin g e).
Proof.
  apply (board_total_non_decreasing poly_cos poly_sin
           [GameCanvas.DriftSystemCreated None;
            GameCanvas.Tick (sample_props throttle_only false) 1 390 844]
           (GameCanvas.Tick (sample_props throttle_only false) 1 390 844)).
  exact I.
Defined.

Section NoPixels.

Variables Math_cos Math_sin : Q -> Q.

Lemma checkClippingZone_no_data (d : ClippingZoneDetector.t)
    (car : CarState) (w h : Q) :
  ClippingZoneDetector.imageData d = None ->
  ClippingZoneDetector.checkClippingZone Math_cos Math_sin d car w h = 1.
Proof.
  intros H. unfold ClippingZoneDetector.checkClippingZone. rewrite H.
  now destruct (ClippingZoneDetector.trackImage d).
Qed.

Lemma update_neutral (car : CarState) (dt : Q) (d : DriftScoring.t) :
  DriftScoring.multiplier (DriftScoring.state d) = 1 ->
  let d' := DriftScoring.update car 1 dt d in
  DriftScoring.multiplier (DriftScoring.state d') = 1
  /\ DriftScoring.isInClippingZone (DriftScoring.state d') = false.
Proof.
  intros Hm. cbv zeta. unfold DriftScoring.update.
  set (d0 := DriftScoring.with_state _ d).
  assert (H0 : DriftScoring.multiplier (DriftScoring.state d0) = 1
               /\ DriftScoring.isInClippingZone (DriftScoring.state d0)
                  = false) by (split; [exact Hm | reflexivity]).
  clearbody d0. clear d Hm.
  destruct (JS.ltb _ _).
  - destruct (_ || _); [| exact H0]. destruct H0 as [_ H0].
    split; [reflexivity | exact H0].
  - destruct (JS.geb _ _).
    + split; [reflexivity |]. cbn. unfold DriftScoring.chain.
      destruct (DriftScoring.isDrifting (DriftScoring.state d0)); cbn;
        destruct (_ && _); cbn; apply H0.
    + destruct (DriftScoring.isDrifting (DriftScoring.state d0));
        [| exact H0].
      destruct (JS.leb _ _); [| exact H0].
      split; [reflexivity | apply H0].
Qed.

Lemma system_perform_no_pixels (sys : DriftSystem.t) (c : system_call) :
  ClippingZoneDetector.imageData (DriftSystem.detector sys) = None
  /\ DriftScoring.multiplier (DriftScoring.state (DriftSystem.scoring sys)) = 1
  /\ DriftScoring.isInClippingZone
       (DriftScoring.state (DriftSystem.scoring sys)) = false ->
  let sys' := system_perform Math_cos Math_sin sys c in
  ClippingZoneDetector.imageData (DriftSystem.detector sys') = None
  /\ DriftScoring.multiplier (DriftScoring.state (DriftSystem.scoring sys')) = 1
  /\ DriftScoring.isInClippingZone
       (DriftScoring.state (DriftSystem.scoring sys')) = false.
Proof.
  intros (Hdata & Hm & Hz). destruct c as [car w h dt |]; cbn.
  - unfold DriftSystem.update. cbn [DriftSystem.detector DriftSystem.scoring].
    rewrite checkClippingZone_no_data by exact Hdata.
    split; [exact Hdata |]. now apply update_neutral.
  - unfold DriftSystem.resetScore. cbn. now repeat split.
Qed.

End NoPixels.

(** X8.  When the track URL is empty (tile maps) or the load of the track
    image leaves no pixel data, the drift system never awards the clipping
    bonus: after any sequence of updates and score resets the detector
    still answers 1.0 for every car, the multiplier of the drift state is
    1 and [isInClippingZone] is false. *)
Theorem no_pixels_no_bonus
    (Math_cos Math_sin : Q -> Q)
    (trackUrl : option ClippingZoneDetector.LoadOutcome)
    (cs : list system_call) :
  no_pixels trackUrl ->
  let sys :=
    system_run Math_cos Math_sin cs (DriftSystem.createDriftSystem trackUrl) in
  (forall carState trackWidth trackHeight,
     ClippingZoneDetector.checkClippingZone Math_cos Math_sin
       (DriftSystem.detector sys) carState trackWidth trackHeight = 1)
  /\ DriftScoring.multiplier (DriftScoring.state (DriftSystem.scoring sys)) = 1
  /\ DriftScoring.isInClippingZone
       (DriftScoring.state (DriftSystem.scoring sys)) = false.
Proof.
  intros Hurl sys.
  assert (H : ClippingZoneDetector.imageData (DriftSystem.detector sys) = None
              /\ DriftScoring.multiplier
                   (DriftScoring.state (DriftSystem.scoring sys)) = 1
              /\ DriftScoring.isInClippingZone
                   (DriftScoring.state (DriftSystem.scoring sys)) = false).
  { subst sys. unfold system_run.
    assert (H0 : ClippingZoneDetector.imageData
                   (DriftSystem.detector
                      (DriftSystem.createDriftSystem trackUrl)) = None
                 /\ DriftScoring.multiplier
                      (DriftScoring.state
                         (DriftSystem.scoring
                            (DriftSystem.createDriftSystem trackUrl))) = 1
                 /\ DriftScoring.isInClippingZone
                      (DriftScoring.state
                         (DriftSystem.scoring
                            (DriftSystem.createDriftSystem trackUrl)))
                    = false).
    { destruct trackUrl as [[img [data |] |] |];
        try contradiction; repeat split. }
    revert H0. generalize (DriftSystem.createDriftSystem trackUrl).
    induction cs as [| c cs' IH]; intros s0 H0; [exact H0 |].
    cbn [fold_left]. apply IH.
    now apply system_perform_no_pixels. }
  destruct H as (Hdata & Hm & Hz).
  split; [| split; assumption].
  intros. now apply checkClippingZone_no_data.
Qed.

Lemma no_pixels_no_bonus_witness :
  let sys :=
    system_run poly_cos poly_sin
      [SystemUpdate centred_car 100 100 (1 # 60); SystemResetScore]
      (DriftSystem.createDriftSystem (Some ClippingZoneDetector.Failed)) in
  (forall carState trackWidth trackHeight,
     ClippingZoneDetector.checkClippingZone poly_cos poly_sin
       (DriftSystem.detector sys) carState trackWidth trackHeight = 1)
  /\ DriftScoring.multiplier (DriftScoring.state (DriftSystem.scoring sys)) = 1
  /\ DriftScoring.isInClippingZone
       (DriftScoring.state (DriftSystem.scoring sys)) = false.
Proof.
  apply (no_pixels_no_bonus poly_cos poly_sin
           (Some ClippingZoneDetector.Failed)
           [SystemUpdate centred_car 100 100 (1 # 60); SystemResetScore]).
  exact I.
Defined.

(** ** GameCanvas: bounds on the physics of a live tick *)

Section PhysicsFacts.

Import GameCanvas.

Variables Math_cos Math_sin : Q -> Q.

Lemma accelerate_speed_le (cap : Q) (p : Props) (car : CarState) :
  capped_params cap (params p) ->
  speed car <= cap -> speed (accelerate p car) <= cap.
Proof.
  intros (Hacc & Hdec & _ & Hcap) Hs. unfold accelerate.
  destruct (up (inputState p) && negb (eBrake (inputState p))).
  - destruct (JS.ltb (speed car) (maxSpeed (params p))) eqn:Hlt.
    + apply ltb_true in Hlt.
      destruct (down (inputState p)); [| cbn; lra].
      destruct (JS.gtb _ _); cbn; lra.
    + destruct (down (inputState p)); [| exact Hs].
      destruct (JS.gtb _ _); cbn; lra.
  - destruct (down (inputState p)); [| exact Hs].
    destruct (JS.gtb _ _); cbn; lra.
Qed.

Lemma turn_speed (p : Props) (car : CarState) :
  speed (turn p car) = speed car.
Proof.
  unfold turn.
  destruct (left (inputState p) && _), (right (inputState p) && _);
    reflexivity.
Qed.

(** The friction never pushes the speed above a non-negative cap. *)
Lemma friction_speed_le (cap : Q) (p : Props) (car : CarState) :
  0 <= cap -> 0 <= eBrakeDecay (params p) <= 1 ->
  speed car <= cap ->
  speed (friction p (driftPhysics p car)) <= cap.
Proof.
  intros Hcap Hdecay Hs. unfold friction, driftPhysics.
  cbn [speed isReversing driftAngle set_speed set_angle set_driftAngle
       set_angularVelocity set_isReversing].
  set (a := JS.abs _).
  assert (Ha : 0 <= a) by apply Qabs_nonneg.
  clearbody a.
  set (drag := if eBrake (inputState p) then eBrakeDecay (params p)
               else 98 # 100).
  assert (Hdrag : 0 <= drag <= 1)
    by (subst drag; destruct (eBrake (inputState p)); lra).
  clearbody drag.
  set (lf := if eBrake (inputState p) then 15 # 100 else 1).
  assert (Hlf : 0 <= lf) by (subst lf; destruct (eBrake (inputState p)); lra).
  clearbody lf.
  destruct (JS.ltb (speed car) 0) eqn:Hrev.
  - apply ltb_true in Hrev.
    assert (H1 : speed car * drag <= 0) by nra.
    assert (H2 : 0 <= a * - speed car) by (apply Qmult_le_0_compat; lra).
    assert (H3 : 0 <= a * - speed car * lf)
      by (apply Qmult_le_0_compat; assumption).
    assert (Heq : speed car * drag - -1 * (a * speed car / 1000) * lf
                  == speed car * drag - (a * - speed car * lf) * (1 # 1000))
      by field.
    rewrite Heq. set (x := a * - speed car * lf) in *.
    set (y := speed car * drag) in *. clearbody x y. lra.
  - apply ltb_false in Hrev.
    assert (H1 : speed car * drag <= speed car) by nra.
    assert (H2 : 0 <= a * speed car) by (apply Qmult_le_0_compat; lra).
    assert (H3 : 0 <= a * speed car * lf)
      by (apply Qmult_le_0_compat; assumption).
    assert (Heq : speed car * drag - 1 * (a * speed car / 1000) * lf
                  == speed car * drag - (a * speed car * lf) * (1 # 1000))
      by field.
    rewrite Heq. set (x := a * speed car * lf) in *.
    set (y := speed car * drag) in *. clearbody x y. lra.
Qed.

Lemma liveCar_speed_le (cap : Q) (p : Props) (w h : Q) (car : CarState) :
  0 <= cap -> capped_params cap (params p) ->
  speed car <= cap ->
  speed (liveCar Math_cos Math_sin p w h car) <= cap.
Proof.
  intros Hcap Hp Hs. unfold liveCar. cbv zeta.
  destruct (boundsWrapping_frame p w h
              (velocityVectors Math_cos Math_sin p
                 (friction p (driftPhysics p (turn p (accelerate p car))))))
    as (-> & _).
  destruct (velocityVectors_frame Math_cos Math_sin p
              (friction p (driftPhysics p (turn p (accelerate p car)))))
    as (-> & _).
  apply friction_speed_le; [exact Hcap | apply Hp |].
  rewrite turn_speed. now apply accelerate_speed_le.
Qed.

Lemma push_capped_Forall {A : Type} (P : A -> Prop) (v : A) (a : list A) :
  P v -> Forall P a -> Forall P (push_capped v a).
Proof.
  intros Hv Ha. unfold push_capped.
  assert (Hall : Forall P (a ++ [v])) by (apply Forall_app; auto).
  destruct (_ <? _)%nat; [| exact Hall].
  destruct (a ++ [v]); [constructor | now inversion Hall].
Qed.

Lemma at_index_In {A : Type} (a : list A) (i : Z) (v : A) :
  at_index a i = Some v -> In v a.
Proof.
  unfold at_index. destruct (i <? 0)%Z; [discriminate |].
  apply nth_error_In.
Qed.

Lemma handle_speeds_below (cap : Q) (g : Refs) (e : Event) :
  0 <= cap -> capped_event cap e ->
  speeds_below cap g -> speeds_below cap (handle Math_cos Math_sin g e).
Proof.
  intros Hcap He [Hcar Hbuf]. unfold speeds_below.
  destruct e as [p z w h | p | c | p | url]; cbn [handle capped_event] in *.
  - unfold updatePhysics. destruct (isReplaying p).
    + rewrite replayTick_replayDataRef. split; [| exact Hbuf].
      unfold replayTick. destruct (_ =? _)%nat; [exact Hcar |].
      match goal with
      | |- context [at_index ?a ?i] => destruct (at_index a i) eqn:Hat
      end; [| exact Hcar].
      cbn. apply at_index_In in Hat.
      now apply (proj1 (Forall_forall _ _) Hbuf).
    + rewrite liveTick_carRef, liveTick_replayDataRef.
      assert (Hnew : speed (liveCar Math_cos Math_sin p w h (carRef g)) <= cap)
        by now apply liveCar_speed_le.
      split; [exact Hnew | now apply push_capped_Forall].
  - unfold handleClear.
    destruct g as [sys replayData replayState currentRun ghost car].
    cbn [currentRunRef ghostRunRef].
    destruct (_ <? _)%nat;
      [destruct (match ghost with Some _ => _ | None => _ end) |];
      destruct sys; cbn; split; (exact Hcap || constructor).
  - destruct c; split; assumption.
  - unfold onReplayingChange. destruct (isReplaying p); [now split |].
    destruct (_ <? _)%nat; [| now split].
    destruct (at_index _ _) eqn:Hat; [| now split].
    cbn. split; [| exact Hbuf].
    apply at_index_In in Hat. now apply (proj1 (Forall_forall _ _) Hbuf).
  - now split.
Qed.

End PhysicsFacts.

(** X9.  The car never goes faster forward than
    [maxSpeed + accelerationFactor]: if that sum is at most a non-negative
    [cap] for the parameters of every tick (with non-negative acceleration
    and deceleration steps and an e-brake decay between 0 and 1), then from
    refs whose cars are at most [cap] fast, after any sequence of ticks
    (live or replay), resets and replay controls, whatever the keys, the
    speed of the car and of every recorded car is at most [cap]. *)
Theorem forward_speed_capped
    (Math_cos Math_sin : Q -> Q) (cap : Q) (es : list GameCanvas.Event)
    (g : GameCanvas.Refs) :
  0 <= cap ->
  Forall (capped_event cap) es ->
  speeds_below cap g ->
  let g' := GameCanvas.run Math_cos Math_sin es g in
  speed (GameCanvas.carRef g') <= cap
  /\ Forall (fun c => speed c <= cap) (GameCanvas.replayDataRef g').
Proof.
  intros Hcap Hes. revert g.
  induction Hes as [| e es He _ IH]; intros g Hg; [exact Hg |].
  apply IH. now apply handle_speeds_below.
Qed.

Lemma forward_speed_capped_witness :
  let tick := GameCanvas.Tick (sample_props throttle_only false) 1 390 844 in
  let g' :=
    GameCanvas.run poly_cos poly_sin [tick; tick] GameCanvas.initial_refs in
  speed (GameCanvas.carRef g') <= 51 # 10
  /\ Forall (fun c => speed c <= 51 # 10) (GameCanvas.replayDataRef g').
Proof.
  apply (forward_speed_capped poly_cos poly_sin (51 # 10)
           [GameCanvas.Tick (sample_props throttle_only false) 1 390 844;
            GameCanvas.Tick (sample_props throttle_only false) 1 390 844]
           GameCanvas.initial_refs).
  - vm_compute. discriminate.
  - repeat constructor; vm_compute; discriminate.
  - split; [vm_compute; discriminate | constructor].
Defined.

(** ** GameCanvas: rotation without steering *)

Section Unsteered.

Import GameCanvas.

Variables Math_cos Math_sin : Q -> Q.

Lemma accelerate_rotation (p : Props) (car : CarState) :
  angularVelocity (accelerate p car) = angularVelocity car
  /\ isTurning (accelerate p car) = isTurning car.
Proof.
  unfold accelerate.
  repeat match goal with
         | |- context [if ?c then _ else _] => destruct c
         end; split; reflexivity.
Qed.

Lemma liveCar_unsteered (p : Props) (w h : Q) (car : CarState) :
  left (inputState p) = false -> right (inputState p) = false ->
  angularVelocity (liveCar Math_cos Math_sin p w h car)
  = angularVelocity car * (94 # 100).
Proof.
  intros Hl Hr. unfold liveCar. cbv zeta.
  destruct (boundsWrapping_frame p w h
              (velocityVectors Math_cos Math_sin p
                 (friction p (driftPhysics p (turn p (accelerate p car))))))
    as (_ & _ & ->).
  destruct (velocityVectors_frame Math_cos Math_sin p
              (friction p (driftPhysics p (turn p (accelerate p car)))))
    as (_ & _ & ->).
  rewrite turn_no_steering by assumption.
  unfold friction, driftPhysics. cbn [angularVelocity set_speed set_angle].
  destruct (negb _);
    cbn [angularVelocity set_driftAngle set_angularVelocity set_isReversing];
    now rewrite (proj1 (accelerate_rotation p car)).
Qed.

Lemma pow_94_succ (n : nat) :
  (94 # 100) ^ Z.of_nat (S n) == (94 # 100) ^ Z.of_nat n * (94 # 100).
Proof.
  rewrite Nat2Z.inj_succ. unfold Z.succ.
  rewrite Qpower_plus by discriminate. reflexivity.
Qed.

Lemma pow_94_bounds (n : nat) :
  0 < (94 # 100) ^ Z.of_nat n /\ (94 # 100) ^ Z.of_nat n <= 1.
Proof.
  induction n as [| n [IH0 IH1]]; [split; [reflexivity | discriminate] |].
  rewrite pow_94_succ. split; nra.
Qed.

Lemma run_unsteered (es : list Event) (g : Refs) :
  Forall unsteered_tick es ->
  angularVelocity (carRef (run Math_cos Math_sin es g))
  == angularVelocity (carRef g) * (94 # 100) ^ Z.of_nat (length es).
Proof.
  intros Hes. revert g.
  induction Hes as [| e es He _ IH]; intros g.
  - cbn. ring.
  - change (run Math_cos Math_sin (e :: es) g)
      with (run Math_cos Math_sin es (handle Math_cos Math_sin g e)).
    rewrite IH. cbn [length]. rewrite pow_94_succ.
    destruct e as [p z w h | | | |]; cbn [unsteered_tick] in He;
      try contradiction.
    destruct He as (Hlive & Hl & Hr). cbn [handle].
    rewrite updatePhysics_live, liveTick_carRef by exact Hlive.
    rewrite liveCar_unsteered by assumption. ring.
Qed.

End Unsteered.

(** X10.  With the steering keys released, a live tick multiplies the
    angular velocity by 0.94, whatever the other keys and the speed: after
    [n] such ticks it is the initial one times 0.94 to the power [n].  So
    the rotation never changes direction and never grows. *)
Theorem rotation_decays_without_steering
    (Math_cos Math_sin : Q -> Q) (es : list GameCanvas.Event)
    (g : GameCanvas.Refs) :
  Forall unsteered_tick es ->
  let before := angularVelocity (GameCanvas.carRef g) in
  let after :=
    angularVelocity
      (GameCanvas.carRef (GameCanvas.run Math_cos Math_sin es g)) in
  after == before * (94 # 100) ^ Z.of_nat (length es)
  /\ (0 <= before -> 0 <= after <= before)
  /\ (before <= 0 -> before <= after <= 0).
Proof.
  intros Hes before after.
  assert (Heq : after == before * (94 # 100) ^ Z.of_nat (length es))
    by (apply run_unsteered; exact Hes).
  destruct (pow_94_bounds (length es)) as [H0 H1].
  split; [exact Heq |].
  split; intros Hsign; rewrite Heq; split; nra.
Qed.

Lemma rotation_decays_without_steering_witness :
  let tick := GameCanvas.Tick (sample_props throttle_only false) 1 390 844 in
  let g :=
    GameCanvas.set_carRef
      (GameCanvas.set_angularVelocity 3 GameCanvas.initial_car)
      GameCanvas.initial_refs in
  let before := angularVelocity (GameCanvas.carRef g) in
  let after :=
    angularVelocity
      (GameCanvas.carRef (GameCanvas.run poly_cos poly_sin [tick; tick] g)) in
  after == before * (94 # 100) ^ Z.of_nat (length [tick; tick])
  /\ (0 <= before -> 0 <= after <= before)
  /\ (before <= 0 -> before <= after <= 0).
Proof.
  intros tick g.
  apply (rotation_decays_without_steering poly_cos poly_sin [tick; tick] g).
  repeat constructor.
Defined.

(** ** GameCanvas: the world bounds and the turning flag *)

Section WorldAndTurning.

Import GameCanvas.

Variables Math_cos Math_sin : Q -> Q.

Lemma boundsWrapping_inside (p : Props) (w h : Q) (car : CarState) :
  0 <= mapW p w -> 0 <= mapH p h ->
  let car' := boundsWrapping p w h car in
  0 <= xPos car' <= mapW p w /\ 0 <= yPos car' <= mapH p h.
Proof.
  intros Hw Hh. unfold boundsWrapping. cbv zeta.
  destruct (JS.gtb (xPos car) (mapW p w)) eqn:Hx1;
    [| destruct (JS.ltb (xPos car) 0) eqn:Hx2];
    cbn [yPos xPos set_xPos];
    (destruct (JS.gtb (yPos car) (mapH p h)) eqn:Hy1;
     [| destruct (JS.ltb (yPos car) 0) eqn:Hy2]);
    cbn [yPos xPos set_xPos set_yPos];
    rewrite ?gtb_false, ?ltb_false in *; lra.
Qed.

Lemma turn_isTurning (p : Props) (car : CarState) :
  isTurning car = true -> isTurning (turn p car) = true.
Proof.
  intros H. unfold turn.
  destruct (left (inputState p) && _), (right (inputState p) && _);
    cbn; auto.
Qed.

Lemma boundsWrapping_keeps (p : Props) (w h : Q) (car : CarState) :
  let car' := boundsWrapping p w h car in
  xSpeed car' = xSpeed car /\ ySpeed car' = ySpeed car
  /\ angle car' = angle car /\ isTurning car' = isTurning car.
Proof.
  destruct car. unfold boundsWrapping. cbv zeta.
  cbn [xPos yPos set_xPos set_yPos].
  repeat match goal with
         | |- context [if JS.gtb ?a ?b then _ else _] => destruct (JS.gtb a b)
         | |- context [if JS.ltb ?a ?b then _ else _] => destruct (JS.ltb a b)
         end; repeat split.
Qed.

Lemma velocityVectors_sets (p : Props) (car : CarState) :
  let car' := velocityVectors Math_cos Math_sin p car in
  let turnDrag :=
    if isTurning car && negb (eBrake (inputState p)) then 94 # 100 else 1 in
  xSpeed car'
  = Math_sin ((JS.PI / 180) * (angle car - driftAngle car))
    * speed car * turnDrag
  /\ ySpeed car'
     = Math_cos ((JS.PI / 180) * (angle car - driftAngle car))
       * speed car * turnDrag
  /\ angle car' = angle car /\ isTurning car' = isTurning car.
Proof. destruct car. repeat split. Qed.

Lemma liveCar_velocity (p : Props) (w h : Q) (car : CarState) :
  let car' := liveCar Math_cos Math_sin p w h car in
  let turnDrag :=
    if isTurning car' && negb (eBrake (inputState p)) then 94 # 100 else 1 in
  xSpeed car'
  = Math_sin ((JS.PI / 180) * (angle car' - driftAngle car'))
    * speed car' * turnDrag
  /\ ySpeed car'
     = Math_cos ((JS.PI / 180) * (angle car' - driftAngle car'))
       * speed car' * turnDrag.
Proof.
  cbv zeta. unfold liveCar.
  set (c := friction p (driftPhysics p (turn p (accelerate p car)))).
  clearbody c.
  destruct (boundsWrapping_keeps p w h (velocityVectors Math_cos Math_sin p c))
    as (-> & -> & -> & ->).
  destruct (boundsWrapping_frame p w h (velocityVectors Math_cos Math_sin p c))
    as (-> & -> & _).
  destruct (velocityVectors_sets p c) as (-> & -> & -> & ->).
  destruct (velocityVectors_frame Math_cos Math_sin p c) as (-> & -> & _).
  split; reflexivity.
Qed.

Lemma later_blocks_isTurning (p : Props) (car : CarState) :
  isTurning (friction p (driftPhysics p car)) = isTurning car.
Proof.
  destruct car. unfold friction, driftPhysics.
  cbn [isTurning isReversing set_speed set_angle set_driftAngle
       set_angularVelocity set_isReversing].
  now destruct (negb _).
Qed.

Lemma liveCar_isTurning (p : Props) (w h : Q) (car : CarState) :
  isTurning car = true ->
  isTurning (liveCar Math_cos Math_sin p w h car) = true.
Proof.
  intros H. unfold liveCar.
  destruct (boundsWrapping_keeps p w h
              (velocityVectors Math_cos Math_sin p
                 (friction p (driftPhysics p (turn p (accelerate p car))))))
    as (_ & _ & _ & ->).
  destruct (velocityVectors_sets p
              (friction p (driftPhysics p (turn p (accelerate p car)))))
    as (_ & _ & _ & ->).
  rewrite later_blocks_isTurning.
  apply turn_isTurning. now rewrite (proj2 (accelerate_rotation p car)).
Qed.

Lemma push_capped_last {A : Type} (v d : A) (a : list A) :
  last (push_capped v a) d = v /\ push_capped v a <> [].
Proof.
  unfold push_capped.
  destruct (Nat.ltb_spec REPLAY_MAX_FRAMES (length (a ++ [v]))) as [Hgt | Hle].
  - destruct a as [| b a'].
    + cbn in Hgt. unfold REPLAY_MAX_FRAMES in Hgt. lia.
    + cbn [app tl]. split; [apply last_last | now destruct a'].
  - split; [apply last_last | now destruct a].
Qed.

Lemma run_live_isTurning (es : list Event) (g : Refs) :
  Forall live_tick es ->
  isTurning (carRef g) = true ->
  isTurning (carRef (run Math_cos Math_sin es g)) = true.
Proof.
  intros Hes. revert g.
  induction Hes as [| e es He _ IH]; intros g Hg; [exact Hg |].
  change (run Math_cos Math_sin (e :: es) g)
    with (run Math_cos Math_sin es (handle Math_cos Math_sin g e)).
  apply IH. destruct e as [p z w h | | | |]; cbn [live_tick] in He;
    try contradiction.
  cbn [handle]. rewrite updatePhysics_live, liveTick_carRef by exact He.
  now apply liveCar_isTurning.
Qed.

End WorldAndTurning.

(** X11.  After every live tick the car is inside the world: with world
    sizes that are not negative, [0 <= xPos <= mapW] and
    [0 <= yPos <= mapH], whatever the car was before and whatever the keys;
    the state recorded for the replay is that car. *)
Theorem live_tick_inside_world
    (Math_cos Math_sin : Q -> Q) (p : GameCanvas.Props)
    (effectiveZoom effectiveWidth effectiveHeight : Q) (g : GameCanvas.Refs) :
  GameCanvas.isReplaying p = false ->
  0 <= GameCanvas.mapW p effectiveWidth ->
  0 <= GameCanvas.mapH p effectiveHeight ->
  let g' :=
    GameCanvas.updatePhysics Math_cos Math_sin p effectiveZoom effectiveWidth
      effectiveHeight g in
  let car := GameCanvas.carRef g' in
  0 <= xPos car <= GameCanvas.mapW p effectiveWidth
  /\ 0 <= yPos car <= GameCanvas.mapH p effectiveHeight
  /\ last (GameCanvas.replayDataRef g') car = car
  /\ GameCanvas.replayDataRef g' <> [].
Proof.
  intros Hlive Hw Hh g' car. subst car g'.
  rewrite updatePhysics_live by exact Hlive.
  rewrite liveTick_carRef, liveTick_replayDataRef.
  unfold GameCanvas.liveCar at 1 2 3 4. cbv zeta.
  destruct (boundsWrapping_inside p effectiveWidth effectiveHeight
              (GameCanvas.velocityVectors Math_cos Math_sin p
                 (GameCanvas.friction p
                    (GameCanvas.driftPhysics p
                       (GameCanvas.turn p
                          (GameCanvas.accelerate p (GameCanvas.carRef g))))))
              Hw Hh) as [Hx Hy].
  split; [exact Hx |]. split; [exact Hy |].
  fold (GameCanvas.liveCar Math_cos Math_sin p effectiveWidth effectiveHeight
          (GameCanvas.carRef g)).
  apply push_capped_last.
Qed.

Lemma live_tick_inside_world_witness :
  let g :=
    GameCanvas.set_carRef
      (mkCarState 391 (-5) 0 0 4 0 0 0 false false 25 50)
      GameCanvas.initial_refs in
  let g' :=
    GameCanvas.updatePhysics poly_cos poly_sin
      (sample_props throttle_only false) 1 390 844 g in
  let car := GameCanvas.carRef g' in
  0 <= xPos car <= 390 /\ 0 <= yPos car <= 844
  /\ last (GameCanvas.replayDataRef g') car = car
  /\ GameCanvas.replayDataRef g' <> [].
Proof.
  intros g.
  apply (live_tick_inside_world poly_cos poly_sin
           (sample_props throttle_only false) 1 390 844 g).
  - reflexivity.
  - vm_compute. discriminate.
  - vm_compute. discriminate.
Defined.

(** X12.  A live tick never clears [isTurning]: once the flag is set it
    stays set through every later live tick, straight driving included, and
    on each of them without e-brake the velocity is the speed along the
    direction of travel scaled by the turn drag 0.94. *)
Theorem isTurning_latches
    (Math_cos Math_sin : Q -> Q) (es : list GameCanvas.Event)
    (p : GameCanvas.Props)
    (effectiveZoom effectiveWidth effectiveHeight : Q) (g : GameCanvas.Refs) :
  isTurning (GameCanvas.carRef g) = true ->
  Forall live_tick es ->
  GameCanvas.isReplaying p = false ->
  eBrake (GameCanvas.inputState p) = false ->
  let car :=
    GameCanvas.carRef
      (GameCanvas.updatePhysics Math_cos Math_sin p effectiveZoom
         effectiveWidth effectiveHeight
         (GameCanvas.run Math_cos Math_sin es g)) in
  isTurning car = true
  /\ xSpeed car
     = Math_sin ((JS.PI / 180) * (angle car - driftAngle car))
       * speed car * (94 # 100)
  /\ ySpeed car
     = Math_cos ((JS.PI / 180) * (angle car - driftAngle car))
       * speed car * (94 # 100).
Proof.
  intros Hturn Hes Hlive Hbrake car. subst car.
  rewrite updatePhysics_live, liveTick_carRef by exact Hlive.
  pose proof (run_live_isTurning Math_cos Math_sin es g Hes Hturn) as Hrun.
  pose proof (liveCar_isTurning Math_cos Math_sin p effectiveWidth
                effectiveHeight _ Hrun) as Hafter.
  destruct (liveCar_velocity Math_cos Math_sin p effectiveWidth
              effectiveHeight
              (GameCanvas.carRef (GameCanvas.run Math_cos Math_sin es g)))
    as [Hx Hy].
  rewrite Hafter, Hbrake in Hx, Hy. cbn [andb negb] in Hx, Hy.
  split; [exact Hafter |]. split; assumption.
Qed.

Lemma isTurning_latches_witness :
  let p := sample_props no_input false in
  let g :=
    GameCanvas.set_carRef
      (mkCarState 100 100 0 0 4 0 0 0 true false 25 50)
      GameCanvas.initial_refs in
  let car :=
    GameCanvas.carRef
      (GameCanvas.updatePhysics poly_cos poly_sin p 1 390 844
         (GameCanvas.run poly_cos poly_sin [GameCanvas.Tick p 1 390 844] g)) in
  isTurning car = true
  /\ xSpeed car
     = poly_sin ((JS.PI / 180) * (angle car - driftAngle car))
       * speed car * (94 # 100)
  /\ ySpeed car
     = poly_cos ((JS.PI / 180) * (angle car - driftAngle car))
       * speed car * (94 # 100).
Proof.
  intros p g.
  apply (isTurning_latches poly_cos poly_sin [GameCanvas.Tick p 1 390 844]
           p 1 390 844 g).
  - reflexivity.
  - repeat constructor.
  - reflexivity.
  - reflexivity.
Defined.

(** ** GameCanvas: the two recordings of a run *)

Section Recordings.

Import GameCanvas.

Variables Math_cos Math_sin : Q -> Q.

Lemma push_capped_map {A B : Type} (f : A -> B) (v : A) (a : list A) :
  map f (push_capped v a) = push_capped (f v) (map f a).
Proof.
  unfold push_capped. cbv zeta.
  replace (map f a ++ [f v]) with (map f (a ++ [v])) by apply map_app.
  rewrite length_map. destruct (_ <? _)%nat; [| reflexivity].
  now destruct (a ++ [v]).
Qed.

Lemma liveTick_currentRunRef (p : Props) (w h : Q) (g : Refs) :
  currentRunRef (liveTick Math_cos Math_sin p w h g)
  = push_capped (pose_of (liveCar Math_cos Math_sin p w h (carRef g)))
      (currentRunRef g).
Proof.
  unfold liveTick.
  destruct g as [[sys |] replayData replayState currentRun ghost car];
    reflexivity.
Qed.

Lemma replayTick_currentRunRef (g : Refs) :
  currentRunRef (replayTick g) = currentRunRef g.
Proof.
  unfold replayTick. destruct (_ =? _)%nat; [reflexivity |].
  now destruct (at_index _ _).
Qed.

Lemma handleClear_buffers (p : Props) (g : Refs) :
  replayDataRef (handleClear p g) = []
  /\ currentRunRef (handleClear p g) = [].
Proof.
  unfold handleClear.
  destruct g as [[sys |] replayData replayState currentRun ghost car];
    cbn [currentRunRef ghostRunRef];
    (destruct (_ <? _)%nat;
     [destruct (match ghost with Some _ => _ | None => _ end) |]);
    split; reflexivity.
Qed.

Lemma handle_lockstep (g : Refs) (e : Event) :
  currentRunRef g = map pose_of (replayDataRef g) ->
  currentRunRef (handle Math_cos Math_sin g e)
  = map pose_of (replayDataRef (handle Math_cos Math_sin g e)).
Proof.
  intros Hg. destruct e as [p z w h | p | c | p | url]; cbn [handle].
  - unfold updatePhysics. destruct (isReplaying p).
    + now rewrite replayTick_currentRunRef, replayTick_replayDataRef.
    + rewrite liveTick_currentRunRef, liveTick_replayDataRef.
      now rewrite push_capped_map, Hg.
  - destruct (handleClear_buffers p g) as [-> ->]. reflexivity.
  - now destruct c.
  - unfold onReplayingChange. destruct (isReplaying p); [exact Hg |].
    destruct (_ <? _)%nat; [| exact Hg]. now destruct (at_index _ _).
  - exact Hg.
Qed.

Lemma run_lockstep (es : list Event) (g : Refs) :
  currentRunRef g = map pose_of (replayDataRef g) ->
  currentRunRef (run Math_cos Math_sin es g)
  = map pose_of (replayDataRef (run Math_cos Math_sin es g)).
Proof.
  revert g. induction es as [| e es IH]; intros g Hg; [exact Hg |].
  apply IH, handle_lockstep, Hg.
Qed.

(** A reset stores a ghost that scores at least what the stored one did. *)
Lemma handle_ghost_at_least (s : Q) (g : Refs) (e : Event) :
  ghost_at_least s (ghostRunRef g) ->
  ghost_at_least s (ghostRunRef (handle Math_cos Math_sin g e)).
Proof.
  intros Hg. destruct e as [p z w h | p | c | p | url];
    try (rewrite handle_ghostRunRef; [exact Hg | discriminate]).
  cbn [handle]. rewrite handleClear_ghostRunRef. unfold ghost_after_reset.
  destruct (ghostRunRef g) as [stored |]; [| contradiction].
  cbn [ghost_at_least] in Hg.
  destruct (currentRunRef g); [exact Hg |].
  destruct (JS.gtb _ _) eqn:Hgt; [| exact Hg].
  apply gtb_true in Hgt. cbn. lra.
Qed.

End Recordings.

(** X13.  The ghost recording of the current run and the replay buffer move
    in lockstep: in every state reached from the initial refs, the frames
    of the current run are exactly the poses (position, angle, drift angle)
    of the cars in the replay buffer, in the same order; so both have the
    same length, at most 1800. *)
Theorem recordings_in_lockstep
    (Math_cos Math_sin : Q -> Q) (es : list GameCanvas.Event) :
  let g := GameCanvas.run Math_cos Math_sin es GameCanvas.initial_refs in
  GameCanvas.currentRunRef g = map pose_of (GameCanvas.replayDataRef g)
  /\ length (GameCanvas.currentRunRef g)
     = length (GameCanvas.replayDataRef g)
  /\ (length (GameCanvas.currentRunRef g) <= 1800)%nat.
Proof.
  intros g.
  assert (H : GameCanvas.currentRunRef g
              = map pose_of (GameCanvas.replayDataRef g))
    by (apply run_lockstep; reflexivity).
  split; [exact H |].
  rewrite H, length_map. split; [reflexivity |].
  apply run_replay_length. cbn. lia.
Qed.

(** X14.  The stored ghost only gets better: once a ghost run with score
    [s] is stored, after any sequence of events (ticks, resets, replay
    controls, track changes) a ghost run is still stored and its score is
    at least [s]. *)
Theorem ghost_score_never_drops
    (Math_cos Math_sin : Q -> Q) (es : list GameCanvas.Event)
    (g : GameCanvas.Refs) (stored : Ghost.GhostRun) :
  GameCanvas.ghostRunRef g = Some stored ->
  exists later,
    GameCanvas.ghostRunRef (GameCanvas.run Math_cos Math_sin es g) = Some later
    /\ Ghost.totalScore stored <= Ghost.totalScore later.
Proof.
  intros Hstored.
  assert (H : ghost_at_least (Ghost.totalScore stored)
                (GameCanvas.ghostRunRef
                   (GameCanvas.run Math_cos Math_sin es g))).
  { assert (H0 : ghost_at_least (Ghost.totalScore stored)
                   (GameCanvas.ghostRunRef g))
      by (rewrite Hstored; apply Qle_refl).
    clear Hstored. revert g H0.
    induction es as [| e es IH]; intros g H0; [exact H0 |].
    apply (IH (GameCanvas.handle Math_cos Math_sin g e)).
    now apply handle_ghost_at_least. }
  revert H.
  destruct (GameCanvas.ghostRunRef (GameCanvas.run Math_cos Math_sin es g))
    as [later |]; intros H; [| contradiction].
  exists later. split; [reflexivity | exact H].
Qed.

Lemma ghost_score_never_drops_witness :
  let p := sample_props throttle_only false in
  let g := run_end 100 (Some (Ghost.mkGhostRun [] 150)) in
  exists later,
    GameCanvas.ghostRunRef
      (GameCanvas.run poly_cos poly_sin [GameCanvas.GameResetTracks p] g)
    = Some later
    /\ Ghost.totalScore (Ghost.mkGhostRun [] 150) <= Ghost.totalScore later.
Proof.
  intros p g.
  apply (ghost_score_never_drops poly_cos poly_sin
           [GameCanvas.GameResetTracks p] g (Ghost.mkGhostRun [] 150)).
  reflexivity.
Defined.

(** ** GameCanvas: the playhead of the replay *)

Section Playhead.

Import GameCanvas.

Variables Math_cos Math_sin : Q -> Q.

Lemma buffer_length_pos {A : Type} (a : list A) :
  a <> [] -> 1 <= inject_Z (Z.of_nat (length a)).
Proof.
  intros Hne. destruct a; [contradiction |].
  cbn [length]. rewrite Nat2Z.inj_succ.
  change 1 with (inject_Z 1). rewrite <- Zle_Qle. lia.
Qed.

Lemma replayTick_speed (g : Refs) :
  Replay.speed (replayStateRef (replayTick g))
  = Replay.speed (replayStateRef g).
Proof.
  unfold replayTick. destruct (_ =? _)%nat; [reflexivity |].
  destruct (Replay.isPlaying (replayStateRef g)); cbn;
    repeat match goal with
           | |- context [if ?c then _ else _] => destruct c; cbn
           | |- context [match ?c with Some _ => _ | None => _ end] =>
               destruct c; cbn
           end; reflexivity.
Qed.

Lemma replayTick_playhead_ok (g : Refs) :
  playhead_ok g -> playhead_ok (replayTick g).
Proof.
  intros (H0 & Hs & Hlt). unfold playhead_ok.
  rewrite replayTick_speed, replayTick_replayDataRef.
  destruct (replayDataRef g) as [| c buf] eqn:Hbuf.
  - assert (Hsame : replayTick g = g)
      by (unfold replayTick; now rewrite Hbuf).
    rewrite Hsame.
    split; [exact H0 |]. split; [exact Hs |]. intros H. now contradiction H.
  - assert (Hne : replayDataRef g <> []) by (rewrite Hbuf; discriminate).
    pose proof (replayTick_index g Hne) as Hidx. cbv zeta in Hidx.
    rewrite Hbuf in Hidx. specialize (Hlt ltac:(discriminate)).
    pose proof (buffer_length_pos (c :: buf) ltac:(discriminate)) as Hlen.
    rewrite Hidx.
    destruct (Replay.isPlaying (replayStateRef g)).
    + destruct (JS.geb _ _) eqn:Hge.
      * split; [apply Qle_refl |]. split; [exact Hs |]. intros _. lra.
      * apply geb_false in Hge.
        split; [lra |]. split; [exact Hs |]. intros _. exact Hge.
    + split; [exact H0 |]. split; [exact Hs |]. intros _. exact Hlt.
Qed.

Lemma seek_playhead_ok (value : Q) (g : Refs) :
  0 <= Replay.speed (replayStateRef g) ->
  playhead_ok (handleReplayControl (Replay.seek value) g).
Proof.
  intros Hs. unfold playhead_ok, handleReplayControl.
  cbn [replayStateRef set_replayStateRef replayDataRef Replay.index
       Replay.speed Replay.set_index].
  split; [apply Q.le_max_l |]. split; [exact Hs |].
  intros Hne. pose proof (buffer_length_pos _ Hne) as Hlen.
  set (len := inject_Z (Z.of_nat (length (replayDataRef g)))) in *.
  assert (Hle : JS.max 0 (JS.min (JS.floor (value * (len - 1))) (len - 1))
                <= len - 1).
  { apply Q.max_lub; [lra | apply Q.le_min_r]. }
  lra.
Qed.

Lemma handle_playhead_ok (g : Refs) (e : Event) :
  replay_event e -> playhead_ok g ->
  playhead_ok (handle Math_cos Math_sin g e)
  /\ replayDataRef (handle Math_cos Math_sin g e) = replayDataRef g.
Proof.
  intros He Hg.
  destruct e as [p z w h | p | [value | | value] | p | url];
    cbn [replay_event] in He; try contradiction; cbn [handle].
  - unfold updatePhysics. rewrite He.
    split; [now apply replayTick_playhead_ok | apply replayTick_replayDataRef].
  - split; [apply seek_playhead_ok, Hg | reflexivity].
  - split; [exact Hg | reflexivity].
  - split; [| reflexivity]. destruct Hg as (H0 & _ & Hlt).
    split; [exact H0 |]. split; [exact He | exact Hlt].
Qed.

Lemma run_playhead_ok (es : list Event) (g : Refs) :
  Forall replay_event es -> playhead_ok g ->
  playhead_ok (run Math_cos Math_sin es g)
  /\ replayDataRef (run Math_cos Math_sin es g) = replayDataRef g.
Proof.
  intros Hes. revert g.
  induction Hes as [| e es He _ IH]; intros g Hg; [now split |].
  change (run Math_cos Math_sin (e :: es) g)
    with (run Math_cos Math_sin es (handle Math_cos Math_sin g e)).
  destruct (handle_playhead_ok g e He Hg) as [Hok Hbuf].
  destruct (IH _ Hok) as [Hok' Hbuf']. split; [exact Hok' | congruence].
Qed.

Lemma enter_replay_playhead_ok (p : Props) (g : Refs) :
  isReplaying p = true ->
  playhead_ok (onReplayingChange p g)
  /\ replayDataRef (onReplayingChange p g) = replayDataRef g.
Proof.
  intros Hp. unfold onReplayingChange. rewrite Hp.
  split; [| reflexivity]. unfold playhead_ok.
  cbn [replayStateRef set_replayStateRef replayDataRef Replay.index
       Replay.speed Replay.set_index Replay.set_speed Replay.set_isPlaying].
  split; [apply Qle_refl |]. split; [discriminate |].
  intros Hne. pose proof (buffer_length_pos _ Hne). lra.
Qed.

Lemma replayTick_shows_recorded (g : Refs) :
  playhead_ok g -> replayDataRef g <> [] ->
  In (carRef (replayTick g)) (replayDataRef g).
Proof.
  intros Hg Hne.
  destruct (replayTick_playhead_ok g Hg) as (H0 & _ & Hlt).
  rewrite replayTick_replayDataRef in Hlt. specialize (Hlt Hne).
  destruct (at_index_in_range (replayDataRef g) _ H0 Hlt) as [c Hc].
  rewrite (replayTick_shows g c Hne Hc).
  now apply at_index_In in Hc.
Qed.

Lemma at_index_last {A : Type} (a : list A) (d : A) :
  a <> [] -> at_index a (Z.of_nat (length a) - 1) = Some (last a d).
Proof.
  intros Hne. unfold at_index.
  destruct a as [| x a'] using rev_ind; [contradiction |].
  rewrite length_app. cbn [length].
  destruct (Z.ltb_spec (Z.of_nat (length a' + 1) - 1) 0); [lia |].
  replace (Z.to_nat (Z.of_nat (length a' + 1) - 1)) with (length a') by lia.
  rewrite nth_error_app2, Nat.sub_diag, last_last by lia. reflexivity.
Qed.

Lemma exit_replay_car (p : Props) (g : Refs) :
  isReplaying p = false -> replayDataRef g <> [] ->
  carRef (onReplayingChange p g) = last (replayDataRef g) (carRef g).
Proof.
  intros Hp Hne. unfold onReplayingChange. rewrite Hp.
  assert (Hlen : (0 <? length (replayDataRef g))%nat = true).
  { apply Nat.ltb_lt. destruct (replayDataRef g); [contradiction | cbn; lia]. }
  now rewrite Hlen, (at_index_last (replayDataRef g) (carRef g) Hne).
Qed.

End Playhead.

(** X15.  In replay mode the car shown is always one that was recorded:
    after entering the replay, whatever sequence of replay ticks, seeks,
    pauses and non-negative speed changes follows, the buffer is untouched,
    the playhead stays at or above 0 and below the buffer length, and
    every replay tick on a non-empty buffer shows a car of the buffer. *)
Theorem replay_shows_recorded_cars
    (Math_cos Math_sin : Q -> Q) (enter p : GameCanvas.Props)
    (effectiveZoom effectiveWidth effectiveHeight : Q)
    (es : list GameCanvas.Event) (g0 : GameCanvas.Refs) :
  GameCanvas.isReplaying enter = true ->
  Forall replay_event es ->
  GameCanvas.isReplaying p = true ->
  let g :=
    GameCanvas.run Math_cos Math_sin es
      (GameCanvas.onReplayingChange enter g0) in
  let buf := GameCanvas.replayDataRef g0 in
  GameCanvas.replayDataRef g = buf
  /\ 0 <= Replay.index (GameCanvas.replayStateRef g)
  /\ (buf <> [] ->
      Replay.index (GameCanvas.replayStateRef g)
      < inject_Z (Z.of_nat (length buf))
      /\ In (GameCanvas.carRef
               (GameCanvas.updatePhysics Math_cos Math_sin p effectiveZoom
                  effectiveWidth effectiveHeight g))
            buf).
Proof.
  intros Henter Hes Hp g buf.
  destruct (enter_replay_playhead_ok enter g0 Henter) as [Hok0 Hbuf0].
  destruct (run_playhead_ok Math_cos Math_sin es _ Hes Hok0) as [Hok Hbuf].
  fold g in Hok, Hbuf. rewrite Hbuf0 in Hbuf. fold buf in Hbuf.
  split; [exact Hbuf |]. split; [apply Hok |].
  intros Hne. split.
  - destruct Hok as (_ & _ & Hlt). rewrite Hbuf in Hlt. now apply Hlt.
  - unfold GameCanvas.updatePhysics. rewrite Hp. rewrite <- Hbuf.
    apply replayTick_shows_recorded; [exact Hok | now rewrite Hbuf].
Qed.

Lemma replay_shows_recorded_cars_witness :
  let p := sample_props no_input true in
  let g :=
    GameCanvas.run poly_cos poly_sin
      [GameCanvas.ReplayControl (Replay.setSpeed 2);
       GameCanvas.Tick p 1 390 844; GameCanvas.Tick p 1 390 844]
      (GameCanvas.onReplayingChange p (sample_replay false)) in
  let buf := GameCanvas.replayDataRef (sample_replay false) in
  GameCanvas.replayDataRef g = buf
  /\ 0 <= Replay.index (GameCanvas.replayStateRef g)
  /\ (buf <> [] ->
      Replay.index (GameCanvas.replayStateRef g)
      < inject_Z (Z.of_nat (length buf))
      /\ In (GameCanvas.carRef
               (GameCanvas.updatePhysics poly_cos poly_sin p 1 390 844 g))
            buf).
Proof.
  intros p.
  apply (replay_shows_recorded_cars poly_cos poly_sin p p 1 390 844
           [GameCanvas.ReplayControl (Replay.setSpeed 2);
            GameCanvas.Tick p 1 390 844; GameCanvas.Tick p 1 390 844]
           (sample_replay false)).
  - reflexivity.
  - repeat constructor. vm_compute. discriminate.
  - reflexivity.
Defined.

(** X16.  Leaving the replay gives the car back as the last live tick left
    it: after a live tick, entering the replay, any sequence of replay
    ticks, seeks, pauses and speed changes, and leaving the replay, the
    car is the one the live tick had computed. *)
Theorem replay_round_trip
    (Math_cos Math_sin : Q -> Q) (live enter leave : GameCanvas.Props)
    (effectiveZoom effectiveWidth effectiveHeight : Q)
    (es : list GameCanvas.Event) (g : GameCanvas.Refs) :
  GameCanvas.isReplaying live = false ->
  GameCanvas.isReplaying enter = true ->
  Forall replay_event es ->
  GameCanvas.isReplaying leave = false ->
  let g1 :=
    GameCanvas.updatePhysics Math_cos Math_sin live effectiveZoom
      effectiveWidth effectiveHeight g in
  let g2 :=
    GameCanvas.onReplayingChange leave
      (GameCanvas.run Math_cos Math_sin es
         (GameCanvas.onReplayingChange enter g1)) in
  GameCanvas.carRef g2 = GameCanvas.carRef g1
  /\ GameCanvas.replayDataRef g2 = GameCanvas.replayDataRef g1.
Proof.
  intros Hlive Henter Hes Hleave g1 g2.
  destruct (enter_replay_playhead_ok enter g1 Henter) as [Hok0 Hbuf0].
  destruct (run_playhead_ok Math_cos Math_sin es _ Hes Hok0) as [_ Hbuf].
  rewrite Hbuf0 in Hbuf.
  assert (Hrec : last (GameCanvas.replayDataRef g1) (GameCanvas.carRef g1)
                 = GameCanvas.carRef g1
                 /\ GameCanvas.replayDataRef g1 <> []).
  { subst g1. rewrite updatePhysics_live by exact Hlive.
    rewrite liveTick_carRef, liveTick_replayDataRef.
    apply push_capped_last. }
  destruct Hrec as [Hlast Hne].
  assert (Hexit : forall d,
             last (GameCanvas.replayDataRef g1) d = GameCanvas.carRef g1).
  { intros d. destruct (GameCanvas.replayDataRef g1) as [| c buf] using rev_ind;
      [contradiction |].
    rewrite last_last in *. exact Hlast. }
  subst g2. split.
  - rewrite exit_replay_car by (rewrite ?Hbuf; assumption).
    rewrite Hbuf. apply Hexit.
  - unfold GameCanvas.onReplayingChange at 1. rewrite Hleave.
    destruct (_ <? _)%nat; [| exact Hbuf].
    now destruct (GameCanvas.at_index _ _).
Qed.

Lemma replay_round_trip_witness :
  let live := sample_props throttle_only false in
  let p := sample_props no_input true in
  let g1 :=
    GameCanvas.updatePhysics poly_cos poly_sin live 1 390 844
      GameCanvas.initial_refs in
  let g2 :=
    GameCanvas.onReplayingChange live
      (GameCanvas.run poly_cos poly_sin [GameCanvas.Tick p 1 390 844]
         (GameCanvas.onReplayingChange p g1)) in
  GameCanvas.carRef g2 = GameCanvas.carRef g1
  /\ GameCanvas.replayDataRef g2 = GameCanvas.replayDataRef g1.
Proof.
  intros live p.
  apply (replay_round_trip poly_cos poly_sin live p live 1 390 844
           [GameCanvas.Tick p 1 390 844] GameCanvas.initial_refs).
  - reflexivity.
  - reflexivity.
  - repeat constructor.
  - reflexivity.
Defined.

Section Seek.

Import GameCanvas.

Lemma length_minus_1 {A : Type} (a : list A) :
  inject_Z (Z.of_nat (length a)) - 1 == inject_Z (Z.of_nat (length a) - 1).
Proof.
  unfold Z.sub. rewrite inject_Z_plus, inject_Z_opp. reflexivity.
Qed.

Lemma seek_index (value : Q) (g : Refs) :
  let len := Z.of_nat (length (replayDataRef g)) in
  Replay.index (replayStateRef (handleReplayControl (Replay.seek value) g))
  == inject_Z (seek_frame value len).
Proof.
  intros len. unfold handleReplayControl, seek_frame.
  cbn [replayStateRef set_replayStateRef Replay.index Replay.set_index].
  fold len. unfold JS.floor.
  set (f := Qfloor (value * (inject_Z len - 1))).
  assert (Hlen : inject_Z len - 1 == inject_Z (len - 1))
    by apply length_minus_1.
  unfold JS.max, JS.min.
  destruct (Z.min_spec f (len - 1)) as [[Hlt ->] | [Hle ->]].
  - rewrite Q.min_l by (rewrite Hlen, <- Zle_Qle; lia).
    destruct (Z.max_spec 0 f) as [[H0 ->] | [H0 ->]].
    + apply Q.max_r. change 0 with (inject_Z 0). rewrite <- Zle_Qle. lia.
    + apply Q.max_l. change 0 with (inject_Z 0). rewrite <- Zle_Qle. lia.
  - rewrite Q.min_r by (rewrite Hlen, <- Zle_Qle; lia).
    rewrite Hlen.
    destruct (Z.max_spec 0 (len - 1)) as [[H0 ->] | [H0 ->]].
    + apply Q.max_r. change 0 with (inject_Z 0). rewrite <- Zle_Qle. lia.
    + apply Q.max_l. change 0 with (inject_Z 0). rewrite <- Zle_Qle. lia.
Qed.

Lemma seek_frame_range (value : Q) (len : Z) :
  (1 <= len)%Z -> (0 <= seek_frame value len <= len - 1)%Z.
Proof. unfold seek_frame. lia. Qed.

Lemma seek_frame_mono (value value' : Q) (len : Z) :
  (1 <= len)%Z -> value <= value' ->
  (seek_frame value len <= seek_frame value' len)%Z.
Proof.
  intros Hlen Hv. unfold seek_frame.
  assert (Hf : (Qfloor (value * (inject_Z len - 1))
                <= Qfloor (value' * (inject_Z len - 1)))%Z).
  { apply Qfloor_resp_le.
    assert (H0 : 0 <= inject_Z len - 1).
    { unfold Z.sub. change 1 with (inject_Z 1).
      unfold Qminus. rewrite <- inject_Z_opp, <- inject_Z_plus.
      change 0 with (inject_Z 0). rewrite <- Zle_Qle. lia. }
    nra. }
  lia.
Qed.

Lemma seek_frame_0 (value : Q) (len : Z) :
  (1 <= len)%Z -> value == 0 -> seek_frame value len = 0%Z.
Proof.
  intros Hlen Hv. unfold seek_frame.
  assert (Hz : value * (inject_Z len - 1) == 0) by (rewrite Hv; ring).
  rewrite (Qfloor_comp _ _ Hz). change (Qfloor 0) with 0%Z. lia.
Qed.

Lemma seek_frame_1 (value : Q) (len : Z) :
  (1 <= len)%Z -> value == 1 -> seek_frame value len = (len - 1)%Z.
Proof.
  intros Hlen Hv. unfold seek_frame.
  assert (Hz : value * (inject_Z len - 1) == inject_Z (len - 1)).
  { rewrite Hv. unfold Z.sub. rewrite inject_Z_plus, inject_Z_opp. ring. }
  rewrite (Qfloor_comp _ _ Hz), Qfloor_Z. lia.
Qed.

End Seek.

(** X17.  A seek on a non-empty buffer, whatever its value, puts the
    playhead on a whole frame number between 0 and the last index, and the
    next replay tick while paused shows the recorded car of that frame.
    Seeking to 0 shows the first recorded car and seeking to 1 the last
    one, and a larger value never lands on an earlier frame.  (Which frame
    a value strictly between 0 and 1 lands on is left open: the code floors
    the product rounded to a double.) *)
Theorem seek_shows_a_recorded_frame
    (Math_cos Math_sin : Q -> Q) (p : GameCanvas.Props)
    (effectiveZoom effectiveWidth effectiveHeight value : Q)
    (g : GameCanvas.Refs) :
  GameCanvas.replayDataRef g <> [] ->
  GameCanvas.isReplaying p = true ->
  Replay.isPlaying (GameCanvas.replayStateRef g) = false ->
  let buf := GameCanvas.replayDataRef g in
  let len := Z.of_nat (length buf) in
  let playhead v :=
    Replay.index
      (GameCanvas.replayStateRef
         (GameCanvas.handleReplayControl (Replay.seek v) g)) in
  let g1 := GameCanvas.handleReplayControl (Replay.seek value) g in
  let g2 :=
    GameCanvas.updatePhysics Math_cos Math_sin p effectiveZoom effectiveWidth
      effectiveHeight g1 in
  (exists frame : Z,
     (0 <= frame <= len - 1)%Z
     /\ playhead value == inject_Z frame
     /\ nth_error buf (Z.to_nat frame) = Some (GameCanvas.carRef g2))
  /\ (value == 0 -> nth_error buf 0 = Some (GameCanvas.carRef g2))
  /\ (value == 1 ->
      last buf (GameCanvas.carRef g) = GameCanvas.carRef g2)
  /\ (forall value', value <= value' -> playhead value <= playhead value').
Proof.
  intros Hne Hp Hpaused buf len playhead g1 g2.
  pose proof (buffer_length_pos _ Hne) as Hlen. fold buf len in Hlen.
  assert (Hlen1 : (1 <= len)%Z).
  { rewrite Zle_Qle. exact Hlen. }
  set (frame := seek_frame value len).
  pose proof (seek_frame_range value len Hlen1) as Hframe. fold frame in Hframe.
  assert (Hidx : Replay.index (GameCanvas.replayStateRef g1)
                 == inject_Z frame) by apply seek_index.
  assert (Hshown : nth_error buf (Z.to_nat frame)
                   = Some (GameCanvas.carRef g2)).
  { assert (Hne1 : GameCanvas.replayDataRef g1 <> []) by exact Hne.
    pose proof (replayTick_index g1 Hne1) as Htick. cbv zeta in Htick.
    change (Replay.isPlaying (GameCanvas.replayStateRef g1))
      with (Replay.isPlaying (GameCanvas.replayStateRef g)) in Htick.
    rewrite Hpaused in Htick.
    assert (Hg2 : g2 = GameCanvas.replayTick g1)
      by (subst g2; unfold GameCanvas.updatePhysics; now rewrite Hp).
    assert (Hat : GameCanvas.at_index buf frame
                  = nth_error buf (Z.to_nat frame)).
    { unfold GameCanvas.at_index.
      destruct (Z.ltb_spec frame 0); [lia | reflexivity]. }
    destruct (nth_error buf (Z.to_nat frame)) as [c |] eqn:Hnth.
    - f_equal. symmetry. rewrite Hg2.
      apply (replayTick_shows g1 c Hne1).
      rewrite Htick, Hidx, Qfloor_Z. exact Hat.
    - apply nth_error_None in Hnth. subst len. lia. }
  split; [exists frame; split; [exact Hframe | split; assumption] |].
  split; [| split].
  - intros Hval.
    assert (Hf : frame = 0%Z) by now apply seek_frame_0.
    rewrite Hf in Hshown. exact Hshown.
  - intros Hval.
    assert (Hf : frame = (len - 1)%Z) by now apply seek_frame_1.
    rewrite Hf in Hshown.
    pose proof (at_index_last buf (GameCanvas.carRef g) Hne) as Hlast.
    unfold GameCanvas.at_index in Hlast. fold len in Hlast.
    destruct (Z.ltb_spec (len - 1) 0); [lia |].
    congruence.
  - intros value' Hv. subst playhead. cbv beta.
    rewrite !seek_index. fold buf len. rewrite <- Zle_Qle.
    now apply seek_frame_mono.
Qed.

Lemma seek_shows_a_recorded_frame_witness :
  let p := sample_props no_input true in
  let g := sample_replay false in
  let buf := GameCanvas.replayDataRef g in
  let len := Z.of_nat (length buf) in
  let playhead v :=
    Replay.index
      (GameCanvas.replayStateRef
         (GameCanvas.handleReplayControl (Replay.seek v) g)) in
  let g1 := GameCanvas.handleReplayControl (Replay.seek (1 # 2)) g in
  let g2 := GameCanvas.updatePhysics poly_cos poly_sin p 1 390 844 g1 in
  (exists frame : Z,
     (0 <= frame <= len - 1)%Z
     /\ playhead (1 # 2) == inject_Z frame
     /\ nth_error buf (Z.to_nat frame) = Some (GameCanvas.carRef g2))
  /\ ((1 # 2) == 0 -> nth_error buf 0 = Some (GameCanvas.carRef g2))
  /\ ((1 # 2) == 1 ->
      last buf (GameCanvas.carRef g) = GameCanvas.carRef g2)
  /\ (forall value', (1 # 2) <= value' -> playhead (1 # 2) <= playhead value').
Proof.
  intros p g.
  apply (seek_shows_a_recorded_frame poly_cos poly_sin p 1 390 844 (1 # 2) g).
  - discriminate.
  - reflexivity.
  - reflexivity.
Defined.

(** * The ghost that is drawn, the animation loop, and resets *)

Section GhostDrawn.

Import GameCanvas.

Variables Math_cos Math_sin : Q -> Q.

Lemma push_capped_grows {A : Type} (v : A) (a : list A) :
  (length a < REPLAY_MAX_FRAMES)%nat ->
  length (push_capped v a) = S (length a).
Proof.
  intros Hlt. unfold push_capped. cbv zeta. rewrite length_app. cbn [length].
  destruct (Nat.ltb_spec REPLAY_MAX_FRAMES (length a + 1));
    [lia | rewrite length_app; cbn [length]; lia].
Qed.

Lemma ticks_live_ghostRunRef (n : nat) (p : Props) (z w h : Q) (g : Refs) :
  isReplaying p = false ->
  ghostRunRef (ticks Math_cos Math_sin n p z w h g) = ghostRunRef g.
Proof.
  intros Hp. induction n as [| n IH]; [reflexivity |].
  rewrite ticks_S, updatePhysics_live by exact Hp.
  now rewrite liveTick_ghostRunRef.
Qed.

(** In a fresh run the replay buffer holds one car per tick. *)
Lemma ticks_live_length (n : nat) (p : Props) (z w h : Q) (g : Refs) :
  isReplaying p = false -> replayDataRef g = [] ->
  (n <= REPLAY_MAX_FRAMES)%nat ->
  length (replayDataRef (ticks Math_cos Math_sin n p z w h g)) = n.
Proof.
  intros Hp Hg. induction n as [| n IH]; intros Hn.
  - cbn. now rewrite Hg.
  - rewrite ticks_S, updatePhysics_live, liveTick_replayDataRef by exact Hp.
    rewrite push_capped_grows; rewrite IH; lia.
Qed.

Lemma ticks_live_lockstep (n : nat) (p : Props) (z w h : Q) (g : Refs) :
  isReplaying p = false ->
  currentRunRef g = map pose_of (replayDataRef g) ->
  currentRunRef (ticks Math_cos Math_sin n p z w h g)
  = map pose_of (replayDataRef (ticks Math_cos Math_sin n p z w h g)).
Proof.
  intros Hp Hg. induction n as [| n IH]; [exact Hg |].
  rewrite ticks_S, updatePhysics_live by exact Hp.
  rewrite liveTick_currentRunRef, liveTick_replayDataRef.
  now rewrite push_capped_map, IH.
Qed.

Lemma ticks_live_last (n : nat) (p : Props) (z w h : Q) (g : Refs) :
  isReplaying p = false ->
  let gn := ticks Math_cos Math_sin (S n) p z w h g in
  last (replayDataRef gn) (carRef g) = carRef gn.
Proof.
  intros Hp gn. subst gn.
  rewrite ticks_S, updatePhysics_live by exact Hp.
  rewrite liveTick_replayDataRef, liveTick_carRef.
  apply push_capped_last.
Qed.

Lemma nth_error_last {A : Type} (a : list A) (d : A) :
  a <> [] -> nth_error a (length a - 1) = Some (last a d).
Proof.
  intros Ha. destruct (exists_last Ha) as (a' & v & ->).
  rewrite last_last, length_app. cbn [length].
  replace (length a' + 1 - 1)%nat with (length a') by lia.
  now rewrite nth_error_app2, Nat.sub_diag by lia.
Qed.

Lemma ghostFrame_index (p : Props) (g : Refs) (ghost : Ghost.GhostRun) :
  isReplaying p = false -> ghostRunRef g = Some ghost ->
  ghostFrame p true g
  = nth_error (Ghost.frames ghost) (length (replayDataRef g)).
Proof.
  intros Hp Hghost. unfold ghostFrame. rewrite Hp, Hghost. cbn [negb].
  unfold JS.floor. rewrite !Qfloor_Z.
  destruct (JS.ltb _ _) eqn:Hlt.
  - unfold at_index. rewrite Nat2Z.id.
    destruct (Z.ltb_spec (Z.of_nat (length (replayDataRef g))) 0);
      [lia | reflexivity].
  - symmetry. apply nth_error_None. apply ltb_false in Hlt.
    rewrite <- Zle_Qle in Hlt. lia.
Qed.

End GhostDrawn.

(** X18.  After the [n]-th live tick of a fresh run ([n <= 1800], both
    recordings empty at the start) the ghost that [render] draws is the
    frame of index [n] of the stored run, and none once [n] reaches its
    length; the car's own pose of that tick is recorded at index [n - 1].
    So a ghost is drawn one tick ahead of the tick its pose was recorded at,
    and its first frame is never drawn after a live tick. *)
Theorem ghost_drawn_one_tick_ahead
    (Math_cos Math_sin : Q -> Q) (p : GameCanvas.Props) (z w h : Q)
    (g : GameCanvas.Refs) (ghost : Ghost.GhostRun) (n : nat) :
  GameCanvas.isReplaying p = false ->
  GameCanvas.replayDataRef g = [] ->
  GameCanvas.currentRunRef g = [] ->
  GameCanvas.ghostRunRef g = Some ghost ->
  (1 <= n <= GameCanvas.REPLAY_MAX_FRAMES)%nat ->
  let gn := GameCanvas.ticks Math_cos Math_sin n p z w h g in
  GameCanvas.ghostFrame p true gn = nth_error (Ghost.frames ghost) n
  /\ nth_error (GameCanvas.currentRunRef gn) (n - 1)
     = Some (pose_of (GameCanvas.carRef gn))
  /\ ((length (Ghost.frames ghost) <= n)%nat ->
      GameCanvas.ghostFrame p true gn = None).
Proof.
  intros Hp Hdata Hrun Hghost Hn gn.
  assert (Hlen : length (GameCanvas.replayDataRef gn) = n)
    by (apply ticks_live_length; [assumption | assumption | lia]).
  assert (Hdrawn : GameCanvas.ghostFrame p true gn
                   = nth_error (Ghost.frames ghost) n).
  { rewrite (ghostFrame_index p gn ghost Hp), Hlen; [reflexivity |].
    subst gn. now rewrite ticks_live_ghostRunRef. }
  split; [exact Hdrawn |]. split.
  - assert (Hlock : GameCanvas.currentRunRef gn
                   = map pose_of (GameCanvas.replayDataRef gn))
      by (apply ticks_live_lockstep; [assumption | now rewrite Hrun, Hdata]).
    assert (Hlast : last (GameCanvas.replayDataRef gn) (GameCanvas.carRef g)
                    = GameCanvas.carRef gn).
    { subst gn. destruct n as [| n]; [lia |]. now apply ticks_live_last. }
    assert (Hne : GameCanvas.replayDataRef gn <> []).
    { intros Hnil. rewrite Hnil in Hlen. cbn in Hlen. lia. }
    clearbody gn. rewrite Hlock, nth_error_map, <- Hlen.
    rewrite (nth_error_last _ (GameCanvas.carRef g) Hne), Hlast.
    reflexivity.
  - intros Hshort. rewrite Hdrawn. now apply nth_error_None.
Qed.

Lemma ghost_drawn_one_tick_ahead_witness :
  let p := sample_props throttle_only false in
  let g := run_against sample_ghost in
  let gn := GameCanvas.ticks poly_cos poly_sin 2 p 1 390 844 g in
  GameCanvas.ghostFrame p true gn = nth_error (Ghost.frames sample_ghost) 2
  /\ nth_error (GameCanvas.currentRunRef gn) (2 - 1)
     = Some (pose_of (GameCanvas.carRef gn))
  /\ ((length (Ghost.frames sample_ghost) <= 2)%nat ->
      GameCanvas.ghostFrame p true gn = None).
Proof.
  intros p g.
  apply (ghost_drawn_one_tick_ahead poly_cos poly_sin p 1 390 844 g
           sample_ghost 2); try reflexivity.
  unfold GameCanvas.REPLAY_MAX_FRAMES. lia.
Defined.

Section Loop.

Import GameCanvas.

Lemma interval_value : interval == 50 # 3.
Proof. reflexivity. Qed.

(** A render moves [then] forward by a whole number of intervals, to
    less than one interval before [now]. *)
Lemma loop_render (now then_ : Q) :
  interval < now - then_ ->
  exists k : Z,
    (1 <= k)%Z
    /\ loop now then_ = (now - JS.rem (now - then_) interval, true)
    /\ now - JS.rem (now - then_) interval == then_ + inject_Z k * interval
    /\ now - interval < now - JS.rem (now - then_) interval <= now.
Proof.
  intros Hgt. pose proof interval_value as Hi.
  set (q := (now - then_) / interval).
  assert (Hq : now - then_ == q * interval).
  { subst q. field. rewrite Hi. discriminate. }
  assert (Hq1 : 1 < q).
  { apply Qnot_le_lt. intros Hle. rewrite Hi in Hq, Hgt.
    clearbody q. nra. }
  assert (Htrunc : JS.trunc q = inject_Z (Qfloor q)).
  { unfold JS.trunc.
    assert (H0 : JS.leb 0 q = true) by (apply leb_true; lra).
    now rewrite H0. }
  exists (Qfloor q).
  pose proof (Qfloor_le q) as Hlo. pose proof (Qlt_floor q) as Hhi.
  rewrite inject_Z_plus in Hhi. change (inject_Z 1) with 1 in Hhi.
  split; [| split; [| split]].
  - assert (H1 : (Qfloor 1 <= Qfloor q)%Z) by (apply Qfloor_resp_le; lra).
    exact H1.
  - unfold loop. cbv zeta.
    assert (Hb : JS.gtb (now - then_) interval = true) by now apply gtb_true.
    now rewrite Hb.
  - unfold JS.rem. fold q. rewrite Htrunc.
    set (k := inject_Z (Qfloor q)) in *. clearbody k q.
    assert (now == then_ + q * interval) by lra. rewrite Hi in *. lra.
  - unfold JS.rem. fold q. rewrite Htrunc.
    set (k := inject_Z (Qfloor q)) in *. clearbody k q.
    rewrite Hi in *. lra.
Qed.

Lemma loop_skip (now then_ : Q) :
  now - then_ <= interval -> loop now then_ = (then_, false).
Proof.
  intros Hle. unfold loop. cbv zeta.
  assert (Hb : JS.gtb (now - then_) interval = false) by now apply gtb_false.
  now rewrite Hb.
Qed.

Lemma frames_rendered_grid (nows : list Q) (T : Q) :
  Forall (fun now => now <= T) nows ->
  forall then_, then_ <= T ->
  exists k : Z,
    (Z.of_nat (snd (frames_rendered nows then_)) <= k)%Z
    /\ fst (frames_rendered nows then_) == then_ + inject_Z k * interval
    /\ fst (frames_rendered nows then_) <= T.
Proof.
  induction 1 as [| now nows Hnow _ IH]; intros then_ Hthen.
  - exists 0%Z. cbn. split; [lia | split; [ring | exact Hthen]].
  - cbn [frames_rendered].
    destruct (Qlt_le_dec interval (now - then_)) as [Hgt | Hle].
    + destruct (loop_render now then_ Hgt) as (k & Hk & -> & Hgrid & Hin).
      set (t := now - JS.rem (now - then_) interval) in *.
      assert (Ht : t <= T) by lra.
      destruct (IH t Ht) as (k' & Hk' & Hgrid' & HT).
      destruct (frames_rendered nows t) as [t' n]. cbn [fst snd] in *.
      exists (k + k')%Z. split; [lia |]. split; [| exact HT].
      rewrite Hgrid', Hgrid, inject_Z_plus. ring.
    + rewrite (loop_skip now then_ Hle).
      destruct (IH then_ Hthen) as (k' & Hk' & Hgrid' & HT).
      destruct (frames_rendered nows then_) as [t' n]. cbn [fst snd] in *.
      exists k'. split; [lia |]. split; assumption.
Qed.

End Loop.

(** X19.  The animation loop renders (and so steps the physics) at most
    once per interval of 1000/60 ms of the clock, whatever the rate at
    which the browser requests frames: between the start time [then_] and
    any time [T] that bounds the timestamps, the number of renders times
    the interval is at most [T - then_].  [then] only moves by whole
    numbers of intervals and never passes the clock. *)
Theorem loop_renders_at_most_60_per_second
    (nows : list Q) (then_ T : Q) :
  then_ <= T ->
  Forall (fun now => now <= T) nows ->
  let t' := fst (frames_rendered nows then_) in
  let renders := snd (frames_rendered nows then_) in
  inject_Z (Z.of_nat renders) * GameCanvas.interval <= T - then_
  /\ t' <= T
  /\ exists k : Z,
       (Z.of_nat renders <= k)%Z
       /\ t' == then_ + inject_Z k * GameCanvas.interval.
Proof.
  intros Hthen Hnows t' renders.
  destruct (frames_rendered_grid nows T Hnows then_ Hthen)
    as (k & Hk & Hgrid & HT).
  fold t' in Hgrid, HT. fold renders in Hk.
  split; [| split; [exact HT | now exists k]].
  pose proof interval_value as Hi.
  assert (Hkq : inject_Z (Z.of_nat renders) <= inject_Z k)
    by now rewrite <- Zle_Qle.
  set (r := inject_Z (Z.of_nat renders)) in *.
  set (kq := inject_Z k) in *. clearbody r kq t'.
  rewrite Hi in *. nra.
Qed.

Lemma loop_renders_at_most_60_per_second_witness :
  let nows := [10; 20; 30; 40; 50] in
  let t' := fst (frames_rendered nows 0) in
  let renders := snd (frames_rendered nows 0) in
  inject_Z (Z.of_nat renders) * GameCanvas.interval <= 50 - 0
  /\ t' <= 50
  /\ exists k : Z,
       (Z.of_nat renders <= k)%Z
       /\ t' == 0 + inject_Z k * GameCanvas.interval.
Proof.
  intros nows.
  apply (loop_renders_at_most_60_per_second nows 0 50).
  - discriminate.
  - repeat constructor; discriminate.
Defined.

Section ResetSpin.

Import GameCanvas.

Variables Math_cos Math_sin : Q -> Q.

Lemma resetCarPosition_rotation (p : Props) (c : CarState) :
  angularVelocity (resetCarPosition p c) = angularVelocity c
  /\ isTurning (resetCarPosition p c) = isTurning c.
Proof.
  unfold resetCarPosition.
  destruct (mapData p); [split; reflexivity |].
  destruct (JS.neqb _ _); split; reflexivity.
Qed.

Lemma handleClear_carRef (p : Props) (g : Refs) :
  carRef (handleClear p g)
  = set_angle 0
      (set_driftAngle 0 (set_speed 0 (resetCarPosition p (carRef g)))).
Proof.
  unfold handleClear.
  destruct g as [[sys |] replayData replayState currentRun ghost car];
    cbn [currentRunRef ghostRunRef];
    (destruct (_ <? _)%nat;
     [destruct (match ghost with Some _ => _ | None => _ end) |]);
    reflexivity.
Qed.

(** The heading after an unsteered tick. *)
Lemma liveCar_unsteered_angle (p : Props) (w h : Q) (car : CarState) :
  left (inputState p) = false -> right (inputState p) = false ->
  angle (liveCar Math_cos Math_sin p w h car)
  = angle car + angularVelocity car * (94 # 100).
Proof.
  intros Hl Hr. unfold liveCar. cbv zeta.
  rewrite turn_no_steering by assumption.
  destruct (boundsWrapping_keeps p w h
              (velocityVectors Math_cos Math_sin p
                 (friction p (driftPhysics p (accelerate p car)))))
    as (_ & _ & -> & _).
  assert (Hacc : angle (accelerate p car) = angle car
                 /\ angularVelocity (accelerate p car) = angularVelocity car).
  { unfold accelerate.
    repeat match goal with
           | |- context [if ?c then _ else _] => destruct c
           end; split; reflexivity. }
  destruct Hacc as [Hangle Hav].
  set (c := accelerate p car) in *. clearbody c.
  destruct c. cbn in Hangle, Hav. subst.
  unfold velocityVectors, friction, driftPhysics.
  cbn [angle angularVelocity isReversing speed set_speed set_angle
       set_driftAngle set_angularVelocity set_isReversing set_xSpeed
       set_ySpeed set_xPos set_yPos].
  destruct (negb _); reflexivity.
Qed.

End ResetSpin.

(** X20.  A reset ([game-reset-tracks]) zeroes the car's speed, drift
    angle and heading but leaves its angular velocity and its [isTurning]
    flag as they were: after the first live tick without steering that
    follows the reset, the heading is 0.94 times the angular velocity the
    car had before the reset, so a car that was spinning keeps turning. *)
Theorem reset_does_not_stop_the_spin
    (Math_cos Math_sin : Q -> Q) (p0 p : GameCanvas.Props) (z w h : Q)
    (g : GameCanvas.Refs) :
  GameCanvas.isReplaying p = false ->
  left (GameCanvas.inputState p) = false ->
  right (GameCanvas.inputState p) = false ->
  let g1 := GameCanvas.handleClear p0 g in
  let g2 := GameCanvas.updatePhysics Math_cos Math_sin p z w h g1 in
  speed (GameCanvas.carRef g1) = 0
  /\ driftAngle (GameCanvas.carRef g1) = 0
  /\ angle (GameCanvas.carRef g1) = 0
  /\ angularVelocity (GameCanvas.carRef g1)
     = angularVelocity (GameCanvas.carRef g)
  /\ isTurning (GameCanvas.carRef g1) = isTurning (GameCanvas.carRef g)
  /\ angle (GameCanvas.carRef g2)
     == angularVelocity (GameCanvas.carRef g) * (94 # 100)
  /\ angularVelocity (GameCanvas.carRef g2)
     == angularVelocity (GameCanvas.carRef g) * (94 # 100).
Proof.
  intros Hp Hl Hr g1 g2.
  assert (Hcar : GameCanvas.carRef g1
                 = GameCanvas.set_angle 0
                     (GameCanvas.set_driftAngle 0
                        (GameCanvas.set_speed 0
                           (GameCanvas.resetCarPosition p0
                              (GameCanvas.carRef g)))))
    by apply handleClear_carRef.
  destruct (resetCarPosition_rotation p0 (GameCanvas.carRef g)) as [Hav Hturn].
  assert (Hav1 : angularVelocity (GameCanvas.carRef g1)
                 = angularVelocity (GameCanvas.carRef g))
    by (rewrite Hcar; exact Hav).
  assert (Hangle1 : angle (GameCanvas.carRef g1) = 0)
    by (rewrite Hcar; reflexivity).
  do 3 (split; [rewrite Hcar; reflexivity |]).
  split; [exact Hav1 |]. split; [rewrite Hcar; exact Hturn |].
  subst g2. rewrite updatePhysics_live, liveTick_carRef by exact Hp.
  rewrite liveCar_unsteered_angle, liveCar_unsteered by assumption.
  rewrite Hangle1, Hav1. split; [ring | reflexivity].
Qed.

Lemma reset_does_not_stop_the_spin_witness :
  let p := sample_props no_input false in
  let g := GameCanvas.set_carRef spinning_car GameCanvas.initial_refs in
  let g1 := GameCanvas.handleClear p g in
  let g2 := GameCanvas.updatePhysics poly_cos poly_sin p 1 390 844 g1 in
  speed (GameCanvas.carRef g1) = 0
  /\ driftAngle (GameCanvas.carRef g1) = 0
  /\ angle (GameCanvas.carRef g1) = 0
  /\ angularVelocity (GameCanvas.carRef g1)
     = angularVelocity (GameCanvas.carRef g)
  /\ isTurning (GameCanvas.carRef g1) = isTurning (GameCanvas.carRef g)
  /\ angle (GameCanvas.carRef g2)
     == angularVelocity (GameCanvas.carRef g) * (94 # 100)
  /\ angularVelocity (GameCanvas.carRef g2)
     == angularVelocity (GameCanvas.carRef g) * (94 # 100).
Proof.
  intros p g.
  apply (reset_does_not_stop_the_spin poly_cos poly_sin p p 1 390 844 g);
    reflexivity.
Defined.

(** * The map editor *)

#[global] Arguments MapEditor.pushHistory : simpl never.
#[global] Arguments JS.rem : simpl never.
#[global] Arguments JS.trunc : simpl never.

Section EditorHistory.

Import MapEditor.

Lemma pushHistory_history (newTiles : list MapTile) (s : State) :
  history (pushHistory newTiles s)
  = (let newHistory := firstn (historyIndex s + 1) (history s) ++ [newTiles] in
     if (20 <? length newHistory)%nat then tl newHistory else newHistory).
Proof. reflexivity. Qed.

Lemma pushHistory_index (newTiles : list MapTile) (s : State) :
  historyIndex (pushHistory newTiles s)
  = (length (history (pushHistory newTiles s)) - 1)%nat.
Proof. reflexivity. Qed.

Lemma pushHistory_ok (newTiles : list MapTile) (s : State) :
  (length (history s) <= 20)%nat -> history_ok (pushHistory newTiles s).
Proof.
  intros Hlen. unfold history_ok.
  rewrite pushHistory_index, pushHistory_history. cbv zeta.
  set (newHistory := firstn (historyIndex s + 1) (history s) ++ [newTiles]).
  assert (Hn : (1 <= length newHistory <= 21)%nat).
  { subst newHistory. rewrite length_app, length_firstn. cbn [length]. lia. }
  destruct (Nat.ltb_spec 20 (length newHistory)) as [Hgt | Hle].
  - destruct newHistory as [| h0 newHistory]; cbn [length tl] in *; lia.
  - lia.
Qed.

Lemma Forall_firstn_of {A : Type} (P : A -> Prop) (n : nat) (a : list A) :
  Forall P a -> Forall P (firstn n a).
Proof.
  intros Ha. revert n. induction Ha as [| v a Hv _ IH]; intros [| n];
    cbn [firstn]; constructor; auto.
Qed.

Lemma Forall_skipn_of {A : Type} (P : A -> Prop) (n : nat) (a : list A) :
  Forall P a -> Forall P (skipn n a).
Proof.
  intros Ha. revert n. induction Ha as [| v a Hv Ha IH]; intros [| n];
    cbn [skipn]; auto.
Qed.

Lemma pushHistory_Forall (P : list MapTile -> Prop) (newTiles : list MapTile)
    (s : State) :
  Forall P (history s) -> P newTiles ->
  Forall P (history (pushHistory newTiles s)).
Proof.
  intros Hs Hnew. rewrite pushHistory_history. cbv zeta.
  assert (Hall : Forall P
                   (firstn (historyIndex s + 1) (history s) ++ [newTiles])).
  { apply Forall_app. split; [now apply Forall_firstn_of |].
    now constructor. }
  destruct (_ <? _)%nat; [| exact Hall].
  destruct Hall; [constructor | assumption].
Qed.

(** Undo and redo between two neighbouring history entries. *)
Lemma undo_redo_at (s1 : State) (a b : list MapTile) (i : nat) :
  nth_error (history s1) i = Some a ->
  nth_error (history s1) (S i) = Some b ->
  historyIndex s1 = S i ->
  tiles s1 = Some b
  /\ tiles (handleUndo s1) = Some a
  /\ tiles (handleRedo (handleUndo s1)) = Some b.
Proof.
  intros Ha Hb Hi.
  assert (Hlen : (S i < length (history s1))%nat)
    by (apply nth_error_Some; rewrite Hb; discriminate).
  destruct s1 as [h1 i1 tool part sel sc pn drag start ghost].
  cbn [history historyIndex] in *. subst i1.
  unfold tiles, handleUndo.
  cbn [history historyIndex setHistoryIndex setSelectedTileIndex Nat.ltb
       Nat.leb].
  replace (S i - 1)%nat with i by lia.
  split; [exact Hb |]. split; [exact Ha |].
  unfold handleRedo.
  cbn [history historyIndex setHistoryIndex setSelectedTileIndex].
  destruct (Z.ltb_spec (Z.of_nat i) (Z.of_nat (length h1) - 1)); [| lia].
  cbn [history historyIndex setHistoryIndex setSelectedTileIndex].
  replace (i + 1)%nat with (S i) by lia. exact Hb.
Qed.

(** After a push, undo shows the tiles from before it and redo the pushed
    ones. *)
Lemma pushHistory_undo_redo (old newTiles : list MapTile) (s s1 : State) :
  history_ok s -> tiles s = Some old ->
  same_history (pushHistory newTiles s) s1 ->
  tiles s1 = Some newTiles
  /\ tiles (handleUndo s1) = Some old
  /\ tiles (handleRedo (handleUndo s1)) = Some newTiles.
Proof.
  intros [[Hlen1 Hlen20] Hidx] Hold [Hh Hi].
  unfold tiles in Hold.
  rewrite pushHistory_index in Hi. rewrite pushHistory_history in Hh, Hi.
  cbv zeta in Hh, Hi.
  set (idx := historyIndex s) in *.
  set (newHistory := firstn (idx + 1) (history s) ++ [newTiles]) in *.
  assert (Hfirst : length (firstn (idx + 1) (history s)) = (idx + 1)%nat)
    by (rewrite length_firstn; lia).
  assert (Hlen : length newHistory = (idx + 2)%nat)
    by (subst newHistory; rewrite length_app, Hfirst; cbn [length]; lia).
  assert (Hat_old : nth_error newHistory idx = Some old).
  { subst newHistory. rewrite nth_error_app1 by lia.
    rewrite nth_error_firstn.
    destruct (Nat.ltb_spec idx (idx + 1)); [exact Hold | lia]. }
  assert (Hat_new : nth_error newHistory (S idx) = Some newTiles).
  { subst newHistory. rewrite nth_error_app2 by lia.
    rewrite Hfirst. replace (S idx - (idx + 1))%nat with 0%nat by lia.
    reflexivity. }
  assert (Htl : forall n, nth_error (tl newHistory) n
                          = nth_error newHistory (S n))
    by (intros n; destruct newHistory; [now destruct n | reflexivity]).
  destruct (Nat.ltb_spec 20 (length newHistory)) as [Hgt | Hle].
  - assert (Hlen' : length (tl newHistory) = (idx + 1)%nat)
      by (destruct newHistory; cbn [length tl] in *; lia).
    rewrite Hlen' in Hi.
    apply (undo_redo_at s1 old newTiles (idx - 1)).
    + rewrite Hh, Htl. replace (S (idx - 1)) with idx by lia. exact Hat_old.
    + rewrite Hh, Htl. replace (S (idx - 1)) with idx by lia. exact Hat_new.
    + rewrite Hi. lia.
  - rewrite Hlen in Hi.
    apply (undo_redo_at s1 old newTiles idx).
    + rewrite Hh. exact Hat_old.
    + rewrite Hh. exact Hat_new.
    + rewrite Hi. lia.
Qed.

End EditorHistory.

Section EditorSteps.

Import MapEditor.

Ltac unchanged := left; split; reflexivity.

Lemma same_history_refl (s : State) : same_history s s.
Proof. split; reflexivity. Qed.

Lemma pushed_by (s : State) (tiles0 newTiles : list MapTile) :
  tiles s = Some tiles0 -> edits tiles0 newTiles ->
  pushed s (pushHistory newTiles s).
Proof.
  intros Ht He. exists tiles0, newTiles.
  split; [exact Ht |]. split; [exact He | apply same_history_refl].
Qed.

(** A click or a drag on the grid leaves the history alone or pushes
    one edit of the current tiles. *)
Lemma handleInteraction_steps (rect : option Rect.t) (clientX clientY : Q)
    (isDrag : bool) (s : State) :
  let s' := state_of (handleInteraction rect clientX clientY isDrag s) in
  same_history s s' \/ pushed s s'.
Proof.
  unfold handleInteraction.
  destruct (screenToWorld rect clientX clientY s) as [worldX worldY].
  cbv zeta.
  set (gridPixelX := worldX + totalSize / 2).
  set (gridPixelY := worldY + totalSize / 2).
  destruct (JS.ltb gridPixelX 0) eqn:Hx0;
    [unchanged |].
  destruct (JS.geb gridPixelX totalSize) eqn:Hx1;
    [unchanged |].
  destruct (JS.ltb gridPixelY 0) eqn:Hy0;
    [unchanged |].
  destruct (JS.geb gridPixelY totalSize) eqn:Hy1;
    [unchanged |].
  cbn [orb].
  apply ltb_false in Hx0, Hy0. apply geb_false in Hx1, Hy1.
  destruct (tiles s) as [tiles0 |] eqn:Htiles;
    [| unchanged].
  destruct (selectedTool s).
  - destruct (negb isDrag); unchanged.
  - destruct (findIndex _ tiles0) as [existingIndex |] eqn:Hfind.
    + destruct (nth_error tiles0 existingIndex) as [existing |] eqn:Hnth;
        [| unchanged].
      destruct (isDrag && _); [unchanged |].
      destruct (negb (String.eqb _ _)).
      * right. apply (pushed_by s tiles0); [exact Htiles |].
        now apply edit_retype.
      * destruct (negb isDrag); [| unchanged].
        right. apply (pushed_by s tiles0); [exact Htiles |].
        now apply edit_rotate.
    + right. apply (pushed_by s tiles0); [exact Htiles |].
      apply edit_place; [split; assumption | split; assumption | exact Hfind].
  - destruct (findIndex _ tiles0) as [existingIndex |];
      [| unchanged].
    right. apply (pushed_by s tiles0); [exact Htiles |]. apply edit_remove.
  - unchanged.
Qed.

Lemma handle_steps (s : State) (e : Event) :
  not_undo_redo e -> same_history s (handle s e) \/ pushed s (handle s e).
Proof.
  destruct e as [| | ctrlKey metaKey deltaX deltaY
                 | rect button clientX clientY
                 | rect buttons clientX clientY | | tool | id | | | | |];
    cbn [not_undo_redo handle]; intros He; try contradiction.
  - unfold handleWheel. destruct (ctrlKey || metaKey); unchanged.
  - unfold handlePointerDown.
    destruct (_ || _); [unchanged |].
    destruct (button =? 0)%Z; [| unchanged].
    apply handleInteraction_steps.
  - unfold handlePointerMove.
    destruct (isDragging s); [unchanged |].
    destruct (screenToWorld rect clientX clientY s) as [worldX worldY].
    cbv zeta.
    destruct (_ && _); [| unchanged].
    destruct (buttons =? 1)%Z; [| unchanged].
    set (s' := setGhostTile _ s).
    assert (Hs' : same_history s
                    (state_of (handleInteraction rect clientX clientY true s'))
                  \/ pushed s
                       (state_of
                          (handleInteraction rect clientX clientY true s'))).
    { destruct (handleInteraction_steps rect clientX clientY true s')
        as [[Hh Hi] | (tiles0 & newTiles & Ht & Hedit & Hh & Hi)].
      - left. split; [exact Hh | exact Hi].
      - right. exists tiles0, newTiles.
        split; [exact Ht |]. split; [exact Hedit |].
        split; [exact Hh | exact Hi]. }
    destruct (selectedTool s); try exact Hs'; unchanged.
  - unchanged.
  - unchanged.
  - unchanged.
  - destruct (selectionMenu s); [| unchanged].
    unfold handleSelectedRotate.
    destruct (selectedTileIndex s) as [i |]; [| unchanged].
    destruct (tiles s) as [tiles0 |] eqn:Htiles;
      [| unchanged].
    destruct (nth_error tiles0 i) as [tile |] eqn:Hnth;
      [| unchanged].
    right. apply (pushed_by s tiles0); [exact Htiles |].
    now apply edit_rotate.
  - destruct (selectionMenu s); [| unchanged].
    unfold handleSelectedDelete.
    destruct (selectedTileIndex s) as [i |]; [| unchanged].
    destruct (tiles s) as [tiles0 |] eqn:Htiles;
      [| unchanged].
    right. exists tiles0, (splice1 i tiles0).
    split; [exact Htiles |]. split; [apply edit_remove |].
    split; reflexivity.
  - unchanged.
  - unchanged.
  - unchanged.
Qed.

Lemma handleUndo_history (s : State) :
  history (handleUndo s) = history s
  /\ (historyIndex (handleUndo s) <= historyIndex s)%nat.
Proof.
  unfold handleUndo. destruct (_ <? _)%nat; cbn; split; (reflexivity || lia).
Qed.

Lemma handleRedo_history (s : State) :
  history (handleRedo s) = history s
  /\ (historyIndex s < length (history s) ->
      historyIndex (handleRedo s) < length (history s))%nat.
Proof.
  unfold handleRedo.
  destruct (Z.ltb_spec (Z.of_nat (historyIndex s))
              (Z.of_nat (length (history s)) - 1)); cbn; split;
    (reflexivity || lia).
Qed.

Lemma handle_history_ok (s : State) (e : Event) :
  history_ok s -> history_ok (handle s e).
Proof.
  intros Hs.
  assert (Hcases : not_undo_redo e \/ e = Undo \/ e = Redo)
    by (destruct e; cbn; auto).
  destruct Hcases as [He | [-> | ->]].
  - destruct (handle_steps s e He)
      as [[Hh Hi] | (tiles0 & newTiles & _ & _ & Hh & Hi)].
    + unfold history_ok. rewrite Hh, Hi. exact Hs.
    + destruct (pushHistory_ok newTiles s) as [Hlen Hidx];
        [destruct Hs; lia |].
      unfold history_ok. rewrite Hh, Hi. split; assumption.
  - cbn [handle]. destruct (handleUndo_history s) as [Hh Hi].
    unfold history_ok in *. rewrite Hh. split; [tauto | lia].
  - cbn [handle]. destruct (handleRedo_history s) as [Hh Hi].
    unfold history_ok in *. rewrite Hh. split; [tauto | apply Hi; tauto].
Qed.

Lemma initial_history_ok (initialData : option (list MapTile)) :
  history_ok (initial initialData).
Proof. unfold history_ok. cbn. lia. Qed.

Lemma run_history_ok (es : list Event) (s : State) :
  history_ok s -> history_ok (run es s).
Proof.
  revert s. induction es as [| e es IH]; intros s Hs; [exact Hs |].
  apply IH, handle_history_ok, Hs.
Qed.

Lemma history_ok_tiles (s : State) :
  history_ok s -> exists tiles0, tiles s = Some tiles0.
Proof.
  intros [_ Hidx]. unfold tiles.
  destruct (nth_error (history s) (historyIndex s)) as [tiles0 |] eqn:Hnth;
    [now exists tiles0 |].
  apply nth_error_None in Hnth. lia.
Qed.

(** A property of tile lists that every edit preserves holds of every
    history entry. *)
Section Preserved.

Variable P : list MapTile -> Prop.
Hypothesis P_edits :
  forall tiles0 newTiles, P tiles0 -> edits tiles0 newTiles -> P newTiles.

Lemma handle_Forall (s : State) (e : Event) :
  Forall P (history s) -> Forall P (history (handle s e)).
Proof.
  intros Hs.
  assert (Hcases : not_undo_redo e \/ e = Undo \/ e = Redo)
    by (destruct e; cbn; auto).
  destruct Hcases as [He | [-> | ->]].
  - destruct (handle_steps s e He)
      as [[Hh Hi] | (tiles0 & newTiles & Ht & Hedit & Hh & Hi)].
    + now rewrite Hh.
    + rewrite Hh. apply pushHistory_Forall; [exact Hs |].
      apply (P_edits tiles0); [| exact Hedit].
      rewrite Forall_forall in Hs. apply Hs.
      unfold tiles in Ht. now apply nth_error_In in Ht.
  - cbn [handle]. now rewrite (proj1 (handleUndo_history s)).
  - cbn [handle]. now rewrite (proj1 (handleRedo_history s)).
Qed.

Lemma run_Forall (es : list Event) (s : State) :
  Forall P (history s) -> Forall P (history (run es s)).
Proof.
  revert s. induction es as [| e es IH]; intros s Hs; [exact Hs |].
  apply IH, handle_Forall, Hs.
Qed.

End Preserved.

End EditorSteps.

(** X21.  Whatever the user does in the map editor, the undo history holds
    between 1 and 20 tile lists and the history index points at one of
    them: the current tiles are always defined, and at most 19 undo steps
    are kept. *)
Theorem editor_history_bounded
    (initialData : option (list MapEditor.MapTile))
    (es : list MapEditor.Event) :
  let s := MapEditor.run es (MapEditor.initial initialData) in
  (1 <= length (MapEditor.history s) <= 20)%nat
  /\ (MapEditor.historyIndex s < length (MapEditor.history s))%nat
  /\ exists tiles, MapEditor.tiles s = Some tiles.
Proof.
  intros s.
  assert (Hs : history_ok s)
    by apply run_history_ok, initial_history_ok.
  destruct Hs as [Hlen Hidx].
  split; [exact Hlen |]. split; [exact Hidx |].
  apply history_ok_tiles. split; assumption.
Qed.

Section EditorKeys.

Import MapEditor.

Lemma pushHistory_in_history (newTiles : list MapTile) (c s : State) :
  history (pushHistory_in newTiles c s) = history (pushHistory newTiles c)
  /\ historyIndex (pushHistory_in newTiles c s)
     = historyIndex (pushHistory newTiles c).
Proof. split; reflexivity. Qed.

(** With a listener of the current render the keyboard handlers are the
    handlers of the buttons. *)
Lemma handleUndo_in_agree (c s : State) :
  historyIndex c = historyIndex s -> handleUndo_in c s = handleUndo s.
Proof. intros H. unfold handleUndo_in, handleUndo. now rewrite H. Qed.

Lemma handleRedo_in_agree (c s : State) :
  historyIndex c = historyIndex s ->
  length (history c) = length (history s) ->
  handleRedo_in c s = handleRedo s.
Proof. intros Hi Hl. unfold handleRedo_in, handleRedo. now rewrite Hi, Hl. Qed.

(** The length of the history after a push. *)
Lemma pushHistory_length (newTiles : list MapTile) (s : State) :
  (historyIndex s < length (history s))%nat ->
  length (history (pushHistory newTiles s))
  = (if (20 <? historyIndex s + 2)%nat then historyIndex s + 1
     else historyIndex s + 2)%nat.
Proof.
  intros Hidx. rewrite pushHistory_history. cbv zeta.
  set (newHistory := firstn (historyIndex s + 1) (history s) ++ [newTiles]).
  assert (Hlen : length newHistory = (historyIndex s + 2)%nat).
  { subst newHistory. rewrite length_app, length_firstn. cbn [length]. lia. }
  rewrite Hlen. destruct (_ <? _)%nat; [| exact Hlen].
  destruct newHistory; cbn [length tl] in *; lia.
Qed.

(** A push that leaves the index where it was happened on a full history,
    which stays full. *)
Lemma pushHistory_same_index (newTiles : list MapTile) (s s' : State) :
  history_ok s ->
  same_history (pushHistory newTiles s) s' ->
  historyIndex s' = historyIndex s ->
  length (history s') = length (history s).
Proof.
  intros [[_ Hlen20] Hidx] [Hh Hi] Hsame.
  rewrite pushHistory_index in Hi. rewrite Hh.
  rewrite (pushHistory_length newTiles s Hidx) in *.
  destruct (Nat.ltb_spec 20 (historyIndex s + 2)); lia.
Qed.

Lemma handle_same_index (s : State) (e : Event) :
  history_ok s ->
  historyIndex (handle s e) = historyIndex s ->
  length (history (handle s e)) = length (history s).
Proof.
  intros Hs Hsame.
  assert (Hcases : not_undo_redo e \/ e = Undo \/ e = Redo)
    by (destruct e; cbn; auto).
  destruct Hcases as [He | [-> | ->]].
  - destruct (handle_steps s e He)
      as [[Hh Hi] | (tiles0 & newTiles & _ & _ & Hpushed)].
    + now rewrite Hh.
    + now apply (pushHistory_same_index newTiles).
  - cbn [handle]. now rewrite (proj1 (handleUndo_history s)).
  - cbn [handle]. now rewrite (proj1 (handleRedo_history s)).
Qed.

Lemma deps_changed_false (s s' : State) :
  deps_changed s s' = false -> deps_agree s s'.
Proof.
  unfold deps_changed, deps_agree. intros H.
  apply orb_false_iff in H. destruct H as [H Hsel].
  apply orb_false_iff in H. destruct H as [Hidx Htool].
  apply negb_false_iff in Hidx, Htool, Hsel.
  split; [now apply Nat.eqb_eq |]. split.
  - destruct (selectedTool s), (selectedTool s');
      (reflexivity || discriminate Htool).
  - destruct (selectedTileIndex s) as [i |], (selectedTileIndex s') as [j |];
      try reflexivity; try discriminate Hsel.
    cbn in Hsel. apply Nat.eqb_eq in Hsel. now subst.
Qed.

(** A render keeps the session in order when the new state has a history
    in order and, if the dependencies did not change, one of the old
    length. *)
Lemma render_ok (ss : Session) (s' : State) :
  session_ok ss -> history_ok s' ->
  (deps_agree (current ss) s' ->
   length (history s') = length (history (current ss))) ->
  session_ok (render ss s').
Proof.
  intros (Hs & (Hi & Ht & Hsel) & Hlen) Hs' Hkept.
  unfold render, session_ok. cbn [current listener].
  destruct (deps_changed (current ss) s') eqn:Hdeps.
  - split; [exact Hs' |]. split; [repeat split | reflexivity].
  - pose proof (deps_changed_false _ _ Hdeps) as Hagree.
    destruct Hagree as (Hi' & Ht' & Hsel').
    split; [exact Hs' |]. split.
    + repeat split; congruence.
    + rewrite Hlen. symmetry. apply Hkept. repeat split; assumption.
Qed.

(** What a key press does, seen from the current render. *)
Lemma handleKeyDown_cases (key : String.string) (ctrlKey metaKey : bool)
    (c s : State) :
  historyIndex c = historyIndex s ->
  length (history c) = length (history s) ->
  let s' := handleKeyDown key ctrlKey metaKey c s in
  s' = s \/ s' = handleUndo s \/ s' = handleRedo s
  \/ exists i tiles0,
       selectedTileIndex c = Some i /\ tiles c = Some tiles0
       /\ s' = setSelectedTileIndex None
                 (pushHistory_in (splice1 i tiles0) c s).
Proof.
  intros Hi Hl. cbv zeta. unfold handleKeyDown.
  destruct (String.eqb_spec key "z"%string) as [-> | Hz].
  - cbn [String.eqb Ascii.eqb Bool.eqb andb orb].
    destruct (ctrlKey || metaKey); cbn [andb]; [| now left].
    right; left. now apply handleUndo_in_agree.
  - cbn [andb].
    destruct (String.eqb_spec key "y"%string) as [-> | Hy].
    + cbn [String.eqb Ascii.eqb Bool.eqb andb orb].
      destruct (ctrlKey || metaKey); cbn [andb]; [| now left].
      right; right; left. now apply handleRedo_in_agree.
    + cbn [andb].
      destruct (String.eqb key "Delete" || String.eqb key "Backspace");
        [| now left].
      destruct (selectedTool c); try (now left).
      destruct (selectedTileIndex c) as [i |] eqn:Hsel; [| now left].
      unfold handleSelectedDelete_in. rewrite Hsel.
      destruct (tiles c) as [tiles0 |] eqn:Htiles; [| now left].
      right; right; right. exists i, tiles0. repeat split.
Qed.

Lemma step_ok (ss : Session) (i : Input) :
  session_ok ss -> session_ok (step ss i).
Proof.
  intros Hss. pose proof Hss as (Hs & (Hi & Ht & Hsel) & Hlen).
  destruct i as [e | key ctrlKey metaKey]; cbn [step].
  - apply render_ok; [exact Hss | now apply handle_history_ok |].
    intros (Hi' & _ & _). now apply handle_same_index.
  - destruct (handleKeyDown_cases key ctrlKey metaKey (listener ss)
                (current ss) Hi Hlen)
      as [-> | [-> | [-> | (i & tiles0 & Hseli & Htiles & ->)]]].
    + apply render_ok; [exact Hss | exact Hs | reflexivity].
    + apply render_ok; [exact Hss | |].
      * apply (handle_history_ok (current ss) Undo Hs).
      * intros _. now rewrite (proj1 (handleUndo_history (current ss))).
    + apply render_ok; [exact Hss | |].
      * apply (handle_history_ok (current ss) Redo Hs).
      * intros _. now rewrite (proj1 (handleRedo_history (current ss))).
    + apply render_ok; [exact Hss | |].
      * destruct (pushHistory_ok (splice1 i tiles0) (listener ss))
          as [Hl20 Hidx]; [destruct Hs; lia |].
        exact (conj Hl20 Hidx).
      * intros (_ & _ & Hnone). cbn in Hnone. congruence.
Qed.

Lemma start_ok (initialData : option (list MapTile)) :
  session_ok (start initialData).
Proof.
  split; [apply initial_history_ok |]. split; [repeat split | reflexivity].
Qed.

Lemma play_ok (inputs : list Input) (ss : Session) :
  session_ok ss -> session_ok (play inputs ss).
Proof.
  revert ss. induction inputs as [| i inputs IH]; intros ss Hss; [exact Hss |].
  apply IH, step_ok, Hss.
Qed.

Lemma render_current (ss : Session) (s' : State) :
  current (render ss s') = s'.
Proof. reflexivity. Qed.

(** After a push the index is not 0. *)
Lemma pushed_index_pos (s s' : State) :
  history_ok s -> pushed s s' -> (0 < historyIndex s')%nat.
Proof.
  intros [_ Hidx] (tiles0 & newTiles & _ & _ & Hh & Hi).
  rewrite Hi, pushHistory_index, (pushHistory_length newTiles s Hidx).
  destruct (Nat.ltb_spec 20 (historyIndex s + 2)); lia.
Qed.

End EditorKeys.

(** X22.  In the map editor, in every state reached by pointer, wheel and
    button events and by key presses (whose listener can hold the handlers
    of an older render), when a pointer, wheel or button event other than
    undo and redo changes the tiles, an undo right after it, by the button
    or by Ctrl/Cmd+Z, shows the tiles from before the event again, and a
    redo after that undo, by the button or by Ctrl/Cmd+Y, shows the
    changed tiles: also when the history is full and its oldest entry was
    dropped.  (An edit by the Delete key is not covered: see
    [stale_delete_key_drops_an_edit].) *)
Theorem undo_reverts_the_last_edit
    (initialData : option (list MapEditor.MapTile))
    (inputs : list MapEditor.Input) (e : MapEditor.Event)
    (ctrlKey metaKey : bool) :
  not_undo_redo e ->
  ctrlKey || metaKey = true ->
  let ss := MapEditor.play inputs (MapEditor.start initialData) in
  let ss1 := MapEditor.step ss (MapEditor.UI e) in
  let shown x := MapEditor.tiles (MapEditor.current x) in
  shown ss1 <> shown ss ->
  let undone := MapEditor.step ss1 (MapEditor.UI MapEditor.Undo) in
  let redone := MapEditor.step undone (MapEditor.UI MapEditor.Redo) in
  let undone_by_key :=
    MapEditor.step ss1 (MapEditor.KeyDown "z"%string ctrlKey metaKey) in
  let redone_by_key :=
    MapEditor.step undone_by_key (MapEditor.KeyDown "y"%string ctrlKey metaKey) in
  shown undone = shown ss /\ shown redone = shown ss1
  /\ shown undone_by_key = shown ss /\ shown redone_by_key = shown ss1.
Proof.
  intros He Hmod ss ss1 shown Hchanged undone redone undone_by_key
    redone_by_key.
  assert (Hss : session_ok ss) by apply play_ok, start_ok.
  assert (Hss1 : session_ok ss1) by apply step_ok, Hss.
  pose proof Hss as (Hs & _).
  set (s := MapEditor.current ss) in *.
  set (s1 := MapEditor.handle s e).
  assert (Hs1 : MapEditor.current ss1 = s1) by reflexivity.
  destruct (handle_steps s e He)
    as [[Hh Hi] | (tiles0 & newTiles & Ht & Hedit & Hpushed)].
  { exfalso. apply Hchanged. subst shown. cbv beta. rewrite Hs1.
    unfold MapEditor.tiles. fold s1 in Hh, Hi. now rewrite Hh, Hi. }
  fold s1 in Hpushed.
  destruct (pushHistory_undo_redo tiles0 newTiles s s1 Hs Ht Hpushed)
    as (H1 & Hundo & Hredo).
  assert (Hpos : (0 < MapEditor.historyIndex s1)%nat).
  { apply (pushed_index_pos s s1 Hs). now exists tiles0, newTiles. }
  assert (Hbutton : MapEditor.current undone = MapEditor.handleUndo s1)
    by reflexivity.
  assert (Hkey : MapEditor.current undone_by_key = MapEditor.handleUndo s1).
  { subst undone_by_key. cbn [MapEditor.step]. rewrite render_current, Hs1.
    unfold MapEditor.handleKeyDown.
    cbn [String.eqb Ascii.eqb Bool.eqb andb orb]. rewrite Hmod.
    apply handleUndo_in_agree.
    destruct Hss1 as (_ & (Hagree & _) & _). now rewrite Hagree, Hs1. }
  (* The undo moved the index, so the listener is the render after it. *)
  assert (Hfresh : forall x : MapEditor.Session,
            MapEditor.current x = s1 ->
            MapEditor.listener
              (MapEditor.render x (MapEditor.handleUndo s1))
            = MapEditor.handleUndo s1).
  { intros x Hx. unfold MapEditor.render. cbn [MapEditor.listener].
    rewrite Hx.
    assert (Hdeps : MapEditor.deps_changed s1 (MapEditor.handleUndo s1)
                    = true).
    { unfold MapEditor.deps_changed, MapEditor.handleUndo.
      destruct (Nat.ltb_spec 0 (MapEditor.historyIndex s1)); [| lia].
      cbn [MapEditor.historyIndex MapEditor.setHistoryIndex
           MapEditor.setSelectedTileIndex].
      destruct (Nat.eqb_spec (MapEditor.historyIndex s1)
                  (MapEditor.historyIndex s1 - 1)); [lia | reflexivity]. }
    now rewrite Hdeps. }
  assert (Hredo_button : MapEditor.current redone
                         = MapEditor.handleRedo (MapEditor.handleUndo s1))
    by reflexivity.
  assert (Hredo_key : MapEditor.current redone_by_key
                      = MapEditor.handleRedo (MapEditor.handleUndo s1)).
  { assert (Hk : MapEditor.handleKeyDown "z"%string ctrlKey metaKey
                   (MapEditor.listener ss1) (MapEditor.current ss1)
                 = MapEditor.handleUndo s1) by exact Hkey.
    assert (Hl : MapEditor.listener undone_by_key = MapEditor.handleUndo s1).
    { change undone_by_key
        with (MapEditor.render ss1
                (MapEditor.handleKeyDown "z"%string ctrlKey metaKey
                   (MapEditor.listener ss1) (MapEditor.current ss1))).
      rewrite Hk. now apply Hfresh. }
    change (MapEditor.current redone_by_key)
      with (MapEditor.handleKeyDown "y"%string ctrlKey metaKey
              (MapEditor.listener undone_by_key)
              (MapEditor.current undone_by_key)).
    rewrite Hl, Hkey. unfold MapEditor.handleKeyDown.
    cbn [String.eqb Ascii.eqb Bool.eqb andb orb]. rewrite Hmod.
    now apply handleRedo_in_agree. }
  subst shown. cbv beta.
  rewrite Hbutton, Hredo_button, Hkey, Hredo_key, Hs1.
  change (MapEditor.current ss) with s.
  rewrite Hundo, Hredo, H1, Ht. repeat split.
Qed.

Lemma undo_reverts_the_last_edit_witness :
  let ss := MapEditor.play [] (MapEditor.start (Some sample_tiles)) in
  let ss1 := MapEditor.step ss (MapEditor.UI sample_click) in
  let shown x := MapEditor.tiles (MapEditor.current x) in
  let undone := MapEditor.step ss1 (MapEditor.UI MapEditor.Undo) in
  let redone := MapEditor.step undone (MapEditor.UI MapEditor.Redo) in
  let undone_by_key := MapEditor.step ss1 (MapEditor.KeyDown "z"%string true false) in
  let redone_by_key :=
    MapEditor.step undone_by_key (MapEditor.KeyDown "y"%string true false) in
  shown undone = shown ss /\ shown redone = shown ss1
  /\ shown undone_by_key = shown ss /\ shown redone_by_key = shown ss1.
Proof.
  apply (undo_reverts_the_last_edit (Some sample_tiles) [] sample_click
           true false).
  - exact I.
  - reflexivity.
  - vm_compute. discriminate.
Defined.

(** The case left out above.  With a full history the twentieth rotation
    leaves the index at 19, and the listener keeps the handlers of the
    render before it: the Delete key then deletes from the tiles of that
    render and pushes onto its history.  The rotation by 90 degrees to 0
    is lost, and the undo after the Delete shows the tile at 270 degrees,
    not at 0 as it was before the Delete. *)
Example stale_delete_key_drops_an_edit :
  let ss := MapEditor.play twenty_rotations (MapEditor.start (Some middle_tile)) in
  let deleted := MapEditor.step ss (MapEditor.KeyDown "Delete"%string false false) in
  let undone := MapEditor.step deleted (MapEditor.UI MapEditor.Undo) in
  let shown x := MapEditor.tiles (MapEditor.current x) in
  (exists t, shown ss = Some [t] /\ MapEditor.rotation t == 0)
  /\ shown deleted = Some []
  /\ (exists t, shown undone = Some [t] /\ MapEditor.rotation t == 270).
Proof.
  cbv zeta. split; [| split].
  - eexists. split; [vm_compute; reflexivity | vm_compute; reflexivity].
  - vm_compute. reflexivity.
  - eexists. split; [vm_compute; reflexivity | vm_compute; reflexivity].
Qed.

Section EditorTiles.

Import MapEditor.

Lemma nth_error_splice1 {A : Type} (i j : nat) (a : list A) :
  nth_error (splice1 i a) j
  = if (j <? i)%nat then nth_error a j else nth_error a (S j).
Proof.
  unfold splice1. revert j a. induction i as [| i IH]; intros j a.
  - cbn. destruct a; [now destruct j | reflexivity].
  - destruct a as [| v a];
      [destruct (j <? S i)%nat; now destruct j |].
    cbn [firstn skipn app]. destruct j as [| j]; [reflexivity |].
    cbn [nth_error]. rewrite IH.
    change (S j <? S i)%nat with (j <? i)%nat. reflexivity.
Qed.

Lemma nth_error_assign {A : Type} (i j : nat) (v : A) (a : list A) :
  (i < length a)%nat ->
  nth_error (assign i v a) j
  = if (j =? i)%nat then Some v else nth_error a j.
Proof.
  unfold assign. revert j a. induction i as [| i IH]; intros j a Hi.
  - destruct a as [| w a]; [cbn in Hi; lia |]. now destruct j.
  - destruct a as [| w a]; [cbn in Hi; lia |].
    cbn [firstn skipn app]. destruct j as [| j]; [reflexivity |].
    cbn [nth_error length] in *. rewrite IH by lia. reflexivity.
Qed.

Lemma findIndex_None {A : Type} (f : A -> bool) (a : list A) :
  findIndex f a = None -> forall j v, nth_error a j = Some v -> f v = false.
Proof.
  induction a as [| w a IH]; intros Hnone j v Hj; [now destruct j |].
  cbn [findIndex] in Hnone. destruct (f w) eqn:Hw; [discriminate |].
  destruct (findIndex f a); [discriminate |].
  destruct j as [| j]; [cbn in Hj; congruence |].
  now apply (IH eq_refl j).
Qed.

Lemma same_cell_sym (t u : MapTile) : same_cell t u = same_cell u t.
Proof.
  unfold same_cell, JS.eqb.
  assert (Hsym : forall a b, Qeq_bool a b = Qeq_bool b a).
  { intros a b. destruct (Qeq_bool a b) eqn:Hab, (Qeq_bool b a) eqn:Hba;
      try reflexivity.
    - apply Qeq_bool_iff in Hab. symmetry in Hab.
      apply Qeq_bool_iff in Hab. congruence.
    - apply Qeq_bool_iff in Hba. symmetry in Hba.
      apply Qeq_bool_iff in Hba. congruence. }
  now rewrite (Hsym (x t)), (Hsym (y t)).
Qed.

Lemma assign_one_tile_per_cell (i : nat) (t v : MapTile)
    (tiles0 : list MapTile) :
  nth_error tiles0 i = Some t -> x v = x t -> y v = y t ->
  one_tile_per_cell tiles0 -> one_tile_per_cell (assign i v tiles0).
Proof.
  intros Hi Hx Hy Hone j k a b Hj Hk Hsame.
  assert (Hlen : (i < length tiles0)%nat)
    by (apply nth_error_Some; rewrite Hi; discriminate).
  rewrite nth_error_assign in Hj, Hk by exact Hlen.
  assert (Hcell : forall u, same_cell v u = same_cell t u)
    by (intros u; unfold same_cell; now rewrite Hx, Hy).
  assert (Hcell' : forall u, same_cell u v = same_cell u t)
    by (intros u; unfold same_cell; now rewrite Hx, Hy).
  destruct (Nat.eqb_spec j i) as [-> | Hji], (Nat.eqb_spec k i) as [-> | Hki];
    try reflexivity.
  - injection Hj as <-. rewrite Hcell in Hsame.
    apply (Hone i k t b Hi Hk Hsame).
  - injection Hk as <-. rewrite Hcell' in Hsame.
    apply (Hone j i a t Hj Hi Hsame).
  - apply (Hone j k a b Hj Hk Hsame).
Qed.

Lemma edits_one_tile_per_cell (tiles0 newTiles : list MapTile) :
  one_tile_per_cell tiles0 -> edits tiles0 newTiles ->
  one_tile_per_cell newTiles.
Proof.
  intros Hone Hedit.
  destruct Hedit as [i | i t id Hi | i t Hi | gx gy id Hgx Hgy Hfind].
  - intros j k a b Hj Hk Hsame. rewrite nth_error_splice1 in Hj, Hk.
    destruct (Nat.ltb_spec j i), (Nat.ltb_spec k i);
      pose proof (Hone _ _ a b Hj Hk Hsame); lia.
  - now apply (assign_one_tile_per_cell i t).
  - now apply (assign_one_tile_per_cell i t).
  - intros j k a b Hj Hk Hsame.
    pose proof (findIndex_None _ _ Hfind) as Hfree.
    destruct (Nat.lt_ge_cases j (length tiles0)) as [Hjl | Hjl],
             (Nat.lt_ge_cases k (length tiles0)) as [Hkl | Hkl].
    + rewrite nth_error_app1 in Hj, Hk by assumption.
      apply (Hone j k a b Hj Hk Hsame).
    + rewrite nth_error_app1 in Hj by assumption.
      rewrite nth_error_app2 in Hk by assumption.
      destruct (k - length tiles0)%nat as [| m] eqn:Hm;
        [| now destruct m].
      injection Hk as <-. specialize (Hfree j a Hj).
      unfold same_cell in Hsame. cbn [x y] in Hsame. congruence.
    + rewrite nth_error_app2 in Hj by assumption.
      rewrite nth_error_app1 in Hk by assumption.
      destruct (j - length tiles0)%nat as [| m] eqn:Hm;
        [| now destruct m].
      injection Hj as <-. specialize (Hfree k b Hk).
      rewrite same_cell_sym in Hsame.
      unfold same_cell in Hsame. cbn [x y] in Hsame. congruence.
    + rewrite nth_error_app2 in Hj, Hk by assumption.
      destruct (j - length tiles0)%nat as [| m] eqn:Hm;
        [| now destruct m].
      destruct (k - length tiles0)%nat as [| m'] eqn:Hm';
        [| now destruct m'].
      lia.
Qed.

Lemma trunc_comp (q q' : Q) : q == q' -> JS.trunc q = JS.trunc q'.
Proof.
  intros Hq. unfold JS.trunc, JS.leb.
  rewrite (Qleb_comp 0 0 (Qeq_refl 0) q q' Hq).
  rewrite (Qfloor_comp q q' Hq).
  assert (Hopp : - q == - q') by now rewrite Hq.
  now rewrite (Qfloor_comp _ _ Hopp).
Qed.

Lemma rem_comp (a a' b : Q) : a == a' -> JS.rem a b == JS.rem a' b.
Proof.
  intros Ha. unfold JS.rem.
  assert (Hdiv : a / b == a' / b) by now rewrite Ha.
  rewrite (trunc_comp _ _ Hdiv), Ha. reflexivity.
Qed.

Lemma rotate_right_angle (r : Q) :
  right_angle r -> right_angle (JS.rem (r + 90) 360).
Proof.
  unfold right_angle.
  intros [Hr | [Hr | [Hr | Hr]]].
  - right; left. rewrite (rem_comp (r + 90) (0 + 90)) by now rewrite Hr.
    reflexivity.
  - right; right; left.
    rewrite (rem_comp (r + 90) (90 + 90)) by now rewrite Hr. reflexivity.
  - right; right; right.
    rewrite (rem_comp (r + 90) (180 + 90)) by now rewrite Hr. reflexivity.
  - left. rewrite (rem_comp (r + 90) (270 + 90)) by now rewrite Hr.
    reflexivity.
Qed.

(** The cell under a point of the grid. *)
Lemma cell_on_grid (gridPixel : Q) :
  0 <= gridPixel < totalSize ->
  (0 <= Qfloor (gridPixel / TILE_SIZE) < 64)%Z.
Proof.
  intros [H0 H1].
  assert (Hq : gridPixel / TILE_SIZE == gridPixel * (1 # 256))
    by (unfold TILE_SIZE; field).
  rewrite (Qfloor_comp _ _ Hq).
  assert (Ht : totalSize == 16384) by reflexivity. rewrite Ht in H1.
  split.
  - change 0%Z with (Qfloor 0). apply Qfloor_resp_le. lra.
  - apply Z.lt_nge. intros Hge.
    assert (Hle : inject_Z 64 <= inject_Z (Qfloor (gridPixel * (1 # 256))))
      by now rewrite <- Zle_Qle.
    pose proof (Qfloor_le (gridPixel * (1 # 256))) as Hfl.
    change (inject_Z 64) with 64 in Hle. lra.
Qed.

Lemma edits_tile_ok (tiles0 newTiles : list MapTile) :
  Forall tile_ok tiles0 -> edits tiles0 newTiles -> Forall tile_ok newTiles.
Proof.
  intros Hok Hedit.
  assert (Hat : forall i t, nth_error tiles0 i = Some t -> tile_ok t).
  { intros i t Hi. rewrite Forall_forall in Hok. apply Hok.
    now apply nth_error_In in Hi. }
  destruct Hedit as [i | i t id Hi | i t Hi | gx gy id Hgx Hgy Hfind].
  - apply Forall_app.
    split; [now apply Forall_firstn_of | now apply Forall_skipn_of].
  - apply Forall_app. split; [now apply Forall_firstn_of |].
    constructor; [| now apply Forall_skipn_of].
    destruct (Hat i t Hi) as [Hgrid _].
    split; [exact Hgrid | now left].
  - apply Forall_app. split; [now apply Forall_firstn_of |].
    constructor; [| now apply Forall_skipn_of].
    destruct (Hat i t Hi) as [Hgrid Hrot].
    split; [exact Hgrid | now apply rotate_right_angle].
  - apply Forall_app. split; [exact Hok |].
    constructor; [| constructor].
    split; [| now left].
    exists (Qfloor (gx / TILE_SIZE)), (Qfloor (gy / TILE_SIZE)).
    split; [now apply cell_on_grid |]. split; [now apply cell_on_grid |].
    split; reflexivity.
Qed.

End EditorTiles.

(** X23.  If no two tiles of the initial map are on the same grid cell,
    then no tile list that the editor ever holds (the current one and every
    history entry that undo or redo can bring back) has two tiles on the
    same cell. *)
Theorem editor_keeps_one_tile_per_cell
    (initialData : option (list MapEditor.MapTile))
    (es : list MapEditor.Event) :
  one_tile_per_cell (initial_tiles initialData) ->
  let s := MapEditor.run es (MapEditor.initial initialData) in
  Forall one_tile_per_cell (MapEditor.history s)
  /\ exists tiles,
       MapEditor.tiles s = Some tiles /\ one_tile_per_cell tiles.
Proof.
  intros Hinit s.
  assert (Hall : Forall one_tile_per_cell (MapEditor.history s)).
  { apply run_Forall; [exact edits_one_tile_per_cell |].
    constructor; [exact Hinit | constructor]. }
  split; [exact Hall |].
  destruct (history_ok_tiles s) as [tiles Ht];
    [apply run_history_ok, initial_history_ok |].
  exists tiles. split; [exact Ht |].
  rewrite Forall_forall in Hall. apply Hall.
  unfold MapEditor.tiles in Ht. now apply nth_error_In in Ht.
Qed.

Lemma editor_keeps_one_tile_per_cell_witness :
  let s :=
    MapEditor.run [sample_click] (MapEditor.initial (Some sample_tiles)) in
  Forall one_tile_per_cell (MapEditor.history s)
  /\ exists tiles,
       MapEditor.tiles s = Some tiles /\ one_tile_per_cell tiles.
Proof.
  apply (editor_keeps_one_tile_per_cell (Some sample_tiles) [sample_click]).
  intros i j t u Hi Hj Hsame.
  destruct i as [| [| i]], j as [| [| j]]; try reflexivity;
    cbn in Hi, Hj; try (now destruct i); try (now destruct j);
    injection Hi as <-; injection Hj as <-; discriminate Hsame.
Defined.

(** X24.  If every tile of the initial map is on a cell of the 64 x 64
    grid (whole coordinates from 0 to 63) with a rotation of 0, 90, 180 or
    270 degrees, then so is every tile of every tile list the editor ever
    holds: tiles are placed only on the cell under the pointer, inside the
    grid, and a rotation adds 90 degrees modulo 360. *)
Theorem editor_tiles_stay_on_grid
    (initialData : option (list MapEditor.MapTile))
    (es : list MapEditor.Event) :
  Forall tile_ok (initial_tiles initialData) ->
  let s := MapEditor.run es (MapEditor.initial initialData) in
  Forall (Forall tile_ok) (MapEditor.history s)
  /\ exists tiles,
       MapEditor.tiles s = Some tiles /\ Forall tile_ok tiles.
Proof.
  intros Hinit s.
  assert (Hall : Forall (Forall tile_ok) (MapEditor.history s)).
  { apply run_Forall; [exact edits_tile_ok |].
    constructor; [exact Hinit | constructor]. }
  split; [exact Hall |].
  destruct (history_ok_tiles s) as [tiles Ht];
    [apply run_history_ok, initial_history_ok |].
  exists tiles. split; [exact Ht |].
  rewrite Forall_forall in Hall. apply Hall.
  unfold MapEditor.tiles in Ht. now apply nth_error_In in Ht.
Qed.

Lemma editor_tiles_stay_on_grid_witness :
  let s :=
    MapEditor.run [sample_click] (MapEditor.initial (Some sample_tiles)) in
  Forall (Forall tile_ok) (MapEditor.history s)
  /\ exists tiles,
       MapEditor.tiles s = Some tiles /\ Forall tile_ok tiles.
Proof.
  apply (editor_tiles_stay_on_grid (Some sample_tiles) [sample_click]).
  constructor; [| constructor; [| constructor]].
  - split; [exists 3%Z, 4%Z; repeat split; (lia || reflexivity) |].
    left. reflexivity.
  - split; [exists 10%Z, 20%Z; repeat split; (lia || reflexivity) |].
    right; left. reflexivity.
Defined.

Section EditorZoom.

Import MapEditor.

Ltac split_cases :=
  repeat match goal with
         | |- context [match ?c with _ => _ end] => destruct c
         end.

Lemma handleInteraction_scale (rect : option Rect.t) (clientX clientY : Q)
    (isDrag : bool) (s : State) :
  scale (state_of (handleInteraction rect clientX clientY isDrag s))
  = scale s.
Proof. unfold handleInteraction. split_cases; reflexivity. Qed.

Lemma handle_scale (s : State) (e : Event) :
  match e with
  | Wheel ctrlKey metaKey _ deltaY =>
      scale (handle s e)
      = if ctrlKey || metaKey
        then JS.min (JS.max (scale s + - deltaY * (1 # 1000)) (1 # 10)) 2
        else scale s
  | ZoomIn => scale (handle s e) = JS.min (scale s * (12 # 10)) 2
  | ZoomOut => scale (handle s e) = JS.max (scale s / (12 # 10)) (1 # 10)
  | _ => scale (handle s e) = scale s
  end.
Proof.
  destruct e as [| | ctrlKey metaKey deltaX deltaY
                 | rect button clientX clientY
                 | rect buttons clientX clientY | | tool | id | | | | |];
    cbn [handle]; try reflexivity.
  - unfold handleUndo. now destruct (_ <? _)%nat.
  - unfold handleRedo. now destruct (_ <? _)%Z.
  - unfold handleWheel. now destruct (ctrlKey || metaKey).
  - unfold handlePointerDown.
    destruct (_ || _); [reflexivity |].
    destruct (button =? 0)%Z; [| reflexivity].
    apply handleInteraction_scale.
  - unfold handlePointerMove.
    destruct (isDragging s); [reflexivity |].
    destruct (screenToWorld rect clientX clientY s) as [worldX worldY].
    cbv zeta.
    destruct (_ && _); [| reflexivity].
    destruct (buttons =? 1)%Z; [| reflexivity].
    destruct (selectedTool s); try reflexivity;
      now rewrite handleInteraction_scale.
  - destruct (selectionMenu s); [| reflexivity].
    unfold handleSelectedRotate. split_cases; reflexivity.
  - destruct (selectionMenu s); [| reflexivity].
    unfold handleSelectedDelete. split_cases; reflexivity.
Qed.

Lemma handle_zoom_ok (s : State) (e : Event) :
  zoom_ok s -> zoom_ok (handle s e).
Proof.
  unfold zoom_ok. intros [Hlo Hhi].
  pose proof (handle_scale s e) as He.
  destruct e as [| | ctrlKey metaKey deltaX deltaY | | | | | | | | | |];
    rewrite He; try (split; assumption).
  - destruct (ctrlKey || metaKey); [| split; assumption].
    unfold JS.min, JS.max. split.
    + apply Q.min_glb; [apply Q.le_max_r | discriminate].
    + apply Q.le_min_r.
  - unfold JS.min. split; [| apply Q.le_min_r].
    apply Q.min_glb; [lra | discriminate].
  - unfold JS.max. split; [apply Q.le_max_r |].
    apply Q.max_lub; [| discriminate].
    assert (Hdiv : scale s / (12 # 10) == scale s * (10 # 12)) by field.
    rewrite Hdiv. lra.
Qed.

Lemma run_zoom_ok (es : list Event) (s : State) :
  zoom_ok s -> zoom_ok (run es s).
Proof.
  revert s. induction es as [| e es IH]; intros s Hs; [exact Hs |].
  apply IH, handle_zoom_ok, Hs.
Qed.

End EditorZoom.

(** X25.  The zoom of the map editor stays between 0.1 and 2.0 whatever
    the user does: the wheel clamps on both sides, and the zoom-in and
    zoom-out buttons, which clamp on one side only, cannot leave the range
    from inside it.  So [screenToWorld] never divides by zero. *)
Theorem editor_zoom_stays_in_range
    (initialData : option (list MapEditor.MapTile))
    (es : list MapEditor.Event) :
  let s := MapEditor.run es (MapEditor.initial initialData) in
  1 # 10 <= MapEditor.scale s <= 2 /\ ~ MapEditor.scale s == 0.
Proof.
  intros s.
  assert (Hs : zoom_ok s).
  { apply run_zoom_ok. split; discriminate. }
  split; [exact Hs |]. destruct Hs as [Hlo _]. intros H0. lra.
Qed.

(** * The sound engine's distortion curve *)

Section Distortion.

Import SoundEngine.

(** The abscissa of sample [i] is in [-1, 1). *)
Lemma sample_abscissa (i : nat) :
  (Z.of_nat i < n_samples)%Z ->
  let x := (inject_Z (Z.of_nat i) * 2) / inject_Z n_samples - 1 in
  -1 <= x /\ x < 1.
Proof.
  intros Hi x.
  assert (Hx : x == inject_Z (Z.of_nat i) * (2 # 44100) - 1)
    by (subst x; unfold n_samples; field).
  assert (H0 : 0 <= inject_Z (Z.of_nat i))
    by (change 0 with (inject_Z 0); rewrite <- Zle_Qle; lia).
  assert (H1 : inject_Z (Z.of_nat i) < inject_Z 44100)
    by (rewrite <- Zlt_Qlt; exact Hi).
  change (inject_Z 44100) with 44100 in H1.
  rewrite Hx. split; lra.
Qed.

Lemma soft_clip_bounded (k x : Q) :
  0 <= k -> -1 <= x <= 1 ->
  -1 <= (JS.PI + k) * x / (JS.PI + k * JS.abs x) <= 1.
Proof.
  intros Hk [Hlo Hhi].
  assert (Hpi : 3 < JS.PI) by reflexivity.
  pose proof (Qabs_nonneg x) as Habs0.
  assert (Habs : JS.abs x == x \/ JS.abs x == - x).
  { unfold JS.abs. destruct (Qlt_le_dec x 0) as [Hneg | Hpos].
    - right. apply Qabs_neg. lra.
    - left. now apply Qabs_pos. }
  unfold JS.abs in *.
  set (a := Qabs x) in *. set (pi := JS.PI) in *. clearbody a pi.
  assert (Hd : 0 < pi + k * a) by nra.
  split.
  - apply Qle_shift_div_l; [exact Hd |].
    destruct Habs as [Ha | Ha]; rewrite Ha; nra.
  - apply Qle_shift_div_r; [exact Hd |].
    destruct Habs as [Ha | Ha]; rewrite Ha; nra.
Qed.

Lemma curve_at_bounded (amount : Q) (i : nat) :
  0 <= amount -> (Z.of_nat i < n_samples)%Z -> -1 <= curve_at amount i <= 1.
Proof.
  intros Hk Hi. unfold curve_at. cbv zeta.
  destruct (sample_abscissa i Hi) as [Hlo Hhi].
  destruct (JS.eqb amount 0).
  - split; lra.
  - apply soft_clip_bounded; [exact Hk | split; lra].
Qed.

End Distortion.

(** X26.  For an amount that is not negative, [makeDistortionCurve] gives
    44100 samples that all lie between -1 and 1, and the first one is
    exactly -1: the wave shaper never pushes the signal beyond full
    scale. *)
Theorem distortion_curve_within_full_scale (amount : Q) :
  0 <= amount ->
  length (SoundEngine.makeDistortionCurve amount) = Z.to_nat 44100
  /\ Forall (fun v => -1 <= v <= 1) (SoundEngine.makeDistortionCurve amount)
  /\ (forall d, nth 0 (SoundEngine.makeDistortionCurve amount) d == -1).
Proof.
  intros Hk. unfold SoundEngine.makeDistortionCurve.
  split; [now rewrite length_map, length_seq |]. split.
  - apply Forall_map, Forall_forall. intros i Hi. apply in_seq in Hi.
    apply curve_at_bounded; [exact Hk | lia].
  - intros d.
    change (nth 0 (map (SoundEngine.curve_at amount)
                     (seq 0 (Z.to_nat SoundEngine.n_samples))) d)
      with (SoundEngine.curve_at amount 0).
    unfold SoundEngine.curve_at. cbv zeta.
    assert (Hx : inject_Z (Z.of_nat 0) * 2
                 / inject_Z SoundEngine.n_samples - 1 == -1)
      by reflexivity.
    destruct (JS.eqb amount 0); [exact Hx |].
    set (x := inject_Z (Z.of_nat 0) * 2
              / inject_Z SoundEngine.n_samples - 1) in *.
    assert (Habs : JS.abs x == 1)
      by (unfold JS.abs; rewrite Hx; reflexivity).
    rewrite Habs, Hx.
    assert (Hpi : 3 < JS.PI) by reflexivity.
    field. intros H0. set (pi := JS.PI) in *. clearbody pi. lra.
Qed.

Lemma distortion_curve_within_full_scale_witness :
  length (SoundEngine.makeDistortionCurve 50) = Z.to_nat 44100
  /\ Forall (fun v => -1 <= v <= 1) (SoundEngine.makeDistortionCurve 50)
  /\ (forall d, nth 0 (SoundEngine.makeDistortionCurve 50) d == -1).
Proof.
  apply (distortion_curve_within_full_scale 50). discriminate.
Defined.
